(** * synth: the sequencer, the sawtooth oscillator, the low-pass filter and
      the circular sample buffer of [main.cpp], embedded and verified.

    Integers of the program are modelled as [Z] with the wrap-around of
    their C++ type written out ([size_t] is 64 bits wide, [unsigned] 32).
    Operations whose C++ behaviour is undefined (a copy outside its array,
    a division by zero, an out-of-range float to integer conversion) return
    [None]. *)

From Stdlib Require Import ZArith List Bool Lia Reals Lra.
From Stdlib Require Import Floats.SpecFloat.
Import ListNotations.

Local Open Scope Z_scope.

(** ** Machine integers *)

Definition wrap32 (z : Z) : Z := z mod 2 ^ 32.
Definition wrap64 (z : Z) : Z := z mod 2 ^ 64.

(** [size_t] arithmetic. *)
Definition uadd (a b : Z) : Z := wrap64 (a + b).
Definition usub (a b : Z) : Z := wrap64 (a - b).

Definition size_max : Z := 2 ^ 64.

(** [int16_t] bounds of <climits>. *)
Definition SHRT_MAX : Z := 32767.
Definition SHRT_MIN : Z := -32768.

Definition in_int16 (z : Z) : Prop := SHRT_MIN <= z <= SHRT_MAX.

(** ** A small error monad for undefined behaviour *)

Definition bind {A B : Type} (m : option A) (k : A -> option B) : option B :=
  match m with
  | Some a => k a
  | None => None
  end.

Notation "x <- m ;; k" := (bind m (fun x => k))
  (at level 61, m at next level, right associativity).
Notation "' p <- m ;; k" := (bind m (fun x => match x with p => k end))
  (at level 61, p pattern, m at next level, right associativity).

(** ** Arrays and [std::copy] *)

Definition len {A : Type} (l : list A) : Z := Z.of_nat (length l).

(** The elements [from, to) of an array; reading outside it is undefined. *)
Definition slice {A : Type} (l : list A) (from to : Z) : option (list A) :=
  if (0 <=? from) && (from <=? to) && (to <=? len l)
  then Some (firstn (Z.to_nat (to - from)) (skipn (Z.to_nat from) l))
  else None.

(** Store [data] into [dest] from index [at_]; storing outside [dest] is
    undefined. *)
Definition blit {A : Type} (data dest : list A) (at_ : Z) : option (list A) :=
  if (0 <=? at_) && (at_ + len data <=? len dest)
  then Some (firstn (Z.to_nat at_) dest ++ data
             ++ skipn (Z.to_nat (at_ + len data)) dest)
  else None.

(** [std::copy(src + from, src + to, dest + at_)]. *)
Definition std_copy {A : Type} (src : list A) (from to : Z)
    (dest : list A) (at_ : Z) : option (list A) :=
  data <- slice src from to ;;
  blit data dest at_.

(** ** CircularBuffer *)

Module CircularBuffer.

Record t := mk {
  samples : list Z;
  write_a : Z;
  read_a : Z;
  first : bool
}.

Definition size (b : t) : Z := len (samples b).

(** [CircularBuffer(size_t size) : samples(size) {}]. *)
Definition make (n : nat) : t := mk (repeat 0 n) 0 0 true.

(** [copy_out(dest, count)]: the buffer afterwards, the caller's array
    afterwards and the returned shortfall. *)
Definition copy_out (b : t) (dest : list Z) (count : Z)
    : option (t * list Z * Z) :=
  let src := samples b in
  let read := read_a b in
  let write := write_a b in
  '(count_out, dest') <-
    (if read <? write then
       let count_out := Z.min count (usub write read) in
       d <- std_copy src read (read + count_out) dest 0 ;;
       Some (count_out, d)
     else
       let size1 := Z.min (usub (size b) read) count in
       let size2 := Z.max 0 (Z.min (usub count size1) write) in
       d1 <- std_copy src read (read + size1) dest 0 ;;
       d2 <- std_copy src 0 size2 d1 size1 ;;
       Some (uadd size1 size2, d2)) ;;
  if size b =? 0 then None
  else Some (mk src write (uadd read count_out mod size b) (first b),
             dest', usub count count_out).

(** [copy_in(src, count)]: the buffer afterwards and the returned
    shortfall. *)
Definition copy_in (b : t) (src : list Z) (count : Z) : option (t * Z) :=
  let dest := samples b in
  let read := read_a b in
  let write := write_a b in
  '(count_in, dest', first') <-
    (if first b then
       let count_in := Z.min count (size b) in
       d <- std_copy src 0 count_in dest write ;;
       Some (count_in, d, false)
     else if read >? write then
       let count_in := Z.min count (usub read write) in
       d <- std_copy src 0 count_in dest write ;;
       Some (count_in, d, first b)
     else if read <? write then
       let size1 := Z.min (usub (size b) write) count in
       let size2 := Z.max 0 (Z.min (usub count size1) read) in
       d1 <- std_copy src 0 size1 dest write ;;
       d2 <- std_copy src size1 (size1 + size2) d1 0 ;;
       Some (uadd size1 size2, d2, first b)
     else Some (0, dest, first b)) ;;
  if size b =? 0 then None
  else Some (mk dest' (uadd write count_in mod size b) read first',
             usub count count_in).

Definition has_space (b : t) : bool := negb (write_a b =? read_a b).

(** *** Histories of calls *)

Inductive call :=
| CopyIn (src : list Z) (count : Z)
| CopyOut (dest : list Z) (count : Z).

(** A run keeps, next to the buffer, how many samples the producer has
    stored and the consumer has taken so far: each call adds the count it
    was given minus the shortfall it returned. *)
Record tally := mkTally { produced : Z; consumed : Z }.

Definition step (st : t * tally) (c : call) : option (t * tally) :=
  let '(b, k) := st in
  match c with
  | CopyIn src count =>
      '(b', short) <- copy_in b src count ;;
      Some (b', mkTally (produced k + (count - short)) (consumed k))
  | CopyOut dest count =>
      '(b', _, short) <- copy_out b dest count ;;
      Some (b', mkTally (produced k) (consumed k + (count - short)))
  end.

Fixpoint run (st : t * tally) (cs : list call) : option (t * tally) :=
  match cs with
  | [] => Some st
  | c :: cs' => st' <- step st c ;; run st' cs'
  end.

Definition start (n : nat) : t * tally := (make n, mkTally 0 0).

(** A call as the program issues it: the caller's array holds exactly
    [count] samples. *)
Definition call_ok (c : call) : Prop :=
  match c with
  | CopyIn src count => len src = count /\ count < size_max
  | CopyOut dest count => len dest = count /\ count < size_max
  end.

(** The cursors index the array and the first-write flag is only up while
    the write cursor is still at the origin.  The array is a
    [std::vector<int16_t>], whose byte size fits [ptrdiff_t]: twice its
    length fits [size_t]. *)
Record wf (b : t) : Prop := mkWf {
  wf_size : 0 < size b /\ 2 * size b <= size_max;
  wf_read : 0 <= read_a b < size b;
  wf_write : 0 <= write_a b < size b;
  wf_first : first b = true -> write_a b = 0
}.

(** What the branches of [copy_out] and [copy_in] take as the number of
    samples that can be read, and that can be stored. *)
Definition occupied (b : t) : Z :=
  if read_a b <? write_a b then write_a b - read_a b
  else size b - read_a b + write_a b.

Definition space (b : t) : Z :=
  if first b then size b
  else if read_a b >? write_a b then read_a b - write_a b
  else if read_a b <? write_a b then size b - write_a b + read_a b
  else 0.

(** How far the producer is ahead of the consumer. *)
Definition lead (k : tally) : Z := produced k - consumed k.

(** What a run maintains: while the first write is pending nothing has
    been produced and the read cursor is the number of samples consumed,
    up to whole laps; afterwards the producer's lead is [occupied], less
    the whole laps the consumer has taken over stale contents. *)
Definition tally_inv (b : t) (k : tally) : Prop :=
  exists laps : Z, 0 <= laps /\
    if first b
    then produced k = 0 /\ consumed k = read_a b + laps * size b
    else lead k = occupied b - laps * size b.

(** The available space as the specification words it for every call
    after the first: the gap when the reader is ahead of the writer, and
    round the end of the array to the reader when the writer is ahead of
    or level with the reader. *)
Definition space_as_specified (b : t) : Z :=
  if read_a b >? write_a b then read_a b - write_a b
  else size b - write_a b + read_a b.

(** Element [i] of an array, for the statements about its contents. *)
Definition get (l : list Z) (i : Z) : Z := nth (Z.to_nat i) l 0.

End CircularBuffer.

(** ** Floating point

    [float] is IEEE-754 binary32 and [double] binary64, both as
    [spec_float] with the operations of the standard library's
    specification at the matching precision, rounding to nearest, ties to
    even.  Expressions are evaluated in the type C++ gives them
    (FLT_EVAL_METHOD 0): an operand is widened to [double] only next to a
    [double] operand. *)

Module F32.
Definition prec : Z := 24.
Definition emax : Z := 128.
Definition add := SFadd prec emax.
Definition mul := SFmul prec emax.
Definition div := SFdiv prec emax.
(** Conversion of an integer. *)
Definition of_Z (z : Z) : spec_float := binary_normalize prec emax z 0 false.
(** Narrowing conversion from [double]. *)
Definition of_double (x : spec_float) : spec_float :=
  match x with
  | S754_finite s m e => binary_round prec emax s m e
  | _ => x
  end.
End F32.

Module F64.
Definition prec : Z := 53.
Definition emax : Z := 1024.
Definition add := SFadd prec emax.
Definition sub := SFsub prec emax.
Definition mul := SFmul prec emax.
Definition div := SFdiv prec emax.
Definition of_Z (z : Z) : spec_float := binary_normalize prec emax z 0 false.
(** Widening conversion from [float]; exact. *)
Definition of_float (x : spec_float) : spec_float :=
  match x with
  | S754_finite s m e => binary_round prec emax s m e
  | _ => x
  end.
(** A decimal literal [n / 10^d], correctly rounded. *)
Definition literal (n : Z) (d : Z) : spec_float := div (of_Z n) (of_Z (10 ^ d)).
End F64.

Definition fzero : spec_float := S754_zero false.

(** [a < b]; false when either is a NaN. *)
Definition flt (a b : spec_float) : bool := SFltb a b.

(** [std::clamp(v, lo, hi)]: [(v < lo) ? lo : (hi < v) ? hi : v]. *)
Definition clamp (v lo hi : spec_float) : spec_float :=
  if flt v lo then lo else if flt hi v then hi else v.

(** A floating value used as a condition: true unless it equals zero. *)
Definition truthy (x : spec_float) : bool := negb (SFeqb x fzero).

(** The integer part of a finite value, towards zero. *)
Definition truncate (x : spec_float) : option Z :=
  match x with
  | S754_zero _ => Some 0
  | S754_finite s m e =>
      Some (cond_Zopp s (match e with
                         | Zneg p => Zpos m / 2 ^ Zpos p
                         | _ => Zpos m * 2 ^ e
                         end))
  | _ => None
  end.

(** Conversion to [int16_t]: undefined unless the integer part fits. *)
Definition to_int16 (x : spec_float) : option Z :=
  z <- truncate x ;;
  if (SHRT_MIN <=? z) && (z <=? SHRT_MAX) then Some z else None.

(** [data[i] = v]. *)
Definition store (data : list Z) (i : Z) (v : Z) : option (list Z) :=
  blit [v] data i.

Definition samples_per_sec : Z := 44100.

(** ** Synth::Sequencer *)

Module Sequencer.

Record t := mk {
  bpm : Z;
  pattern : list spec_float;
  sample : Z
}.

(** [float pattern[8] = {440, 0, 698.5, 400, 554.4, 698.5, 830.6, 554.4}]:
    each initialiser is narrowed to [float]. *)
Definition default_pattern : list spec_float :=
  [ F32.of_Z 440; F32.of_Z 0;
    F32.of_double (F64.literal 6985 1); F32.of_Z 400;
    F32.of_double (F64.literal 5544 1); F32.of_double (F64.literal 6985 1);
    F32.of_double (F64.literal 8306 1); F32.of_double (F64.literal 5544 1) ].

Definition init : t := mk (138 * 4) default_pattern 0.

(** [60 * samples_per_sec / bpm], in [unsigned]: [bpm] is converted. *)
Definition beat_length (s : t) : option Z :=
  let d := wrap32 (bpm s) in
  if d =? 0 then None else Some (wrap32 (60 * samples_per_sec) / d).

Definition pattern_length (s : t) : option Z :=
  bl <- beat_length s ;; Some (wrap32 (bl * 8)).

(** [tick(count)]: the note and the sequencer afterwards. *)
Definition tick (s : t) (count : Z) : option (spec_float * t) :=
  beat_length <- beat_length s ;;
  pattern_length <- pattern_length s ;;
  if beat_length =? 0 then None else
  note <- nth_error (pattern s) (Z.to_nat (sample s / beat_length)) ;;
  if pattern_length =? 0 then None else
  Some (note,
        mk (bpm s) (pattern s) (uadd (sample s) count mod pattern_length)).

(** Successive calls of [tick]: the notes returned and the last state. *)
Fixpoint ticks (s : t) (counts : list Z) : option (list spec_float * t) :=
  match counts with
  | [] => Some ([], s)
  | c :: cs =>
      '(note, s1) <- tick s c ;;
      '(notes, s2) <- ticks s1 cs ;;
      Some (note :: notes, s2)
  end.

(** The sequencer of the program with its counter at [c]. *)
Definition at_counter (c : Z) : t := mk (bpm init) (pattern init) c.

Definition sum (l : list Z) : Z := fold_right Z.add 0 l.

End Sequencer.

(** ** Synth::SawTooth *)

Module SawTooth.

Record t := mk {
  tuning_v : spec_float;
  tuning : spec_float;
  volume : spec_float;
  last : spec_float
}.

(** [tuning_v = 1.0f], [tuning = 1.0], [volume = 0.25], [last = 0]. *)
Definition init : t :=
  mk (F32.of_Z 1) (F32.of_Z 1) (F32.of_double (F64.literal 25 2)) fzero.

(** [if (value > 1.0) { value -= 2.0; }]: the comparison and the
    subtraction are in [double], the assignment narrows. *)
Definition wrap_phase (value : spec_float) : spec_float :=
  if flt (F64.of_Z 1) (F64.of_float value)
  then F32.of_double (F64.sub (F64.of_float value) (F64.of_Z 2))
  else value.

(** [value * volume * scale] with [scale = SHRT_MAX], converted to
    [int16_t]. *)
Definition sample_of (value volume : spec_float) : option Z :=
  to_int16 (F32.mul (F32.mul value volume) (F32.of_Z SHRT_MAX)).

(** The loop over [i], with [n] iterations left. *)
Fixpoint fill (volume delta : spec_float) (n : nat) (i : Z)
    (value : spec_float) (data : list Z) : option (spec_float * list Z) :=
  match n with
  | O => Some (value, data)
  | S n' =>
      v <- sample_of value volume ;;
      data' <- store data i v ;;
      fill volume delta n' (i + 1) (wrap_phase (F32.add value delta)) data'
  end.

(** [tick(note, data, count)]: the oscillator and the block afterwards. *)
Definition tick (s : t) (note : spec_float) (data : list Z) (count : Z)
    : option (t * list Z) :=
  let '(tuning', value, delta) :=
    if truthy note then
      let tuning' :=
        clamp (F32.mul (tuning s) (tuning_v s))
              (F32.div (F32.of_Z 1) (F32.of_Z 10)) (F32.of_Z 1000) in
      let freq :=
        clamp (F32.mul tuning' note) (F32.of_Z 10) (F32.of_Z 10000) in
      let period := F32.div (F32.of_Z samples_per_sec) freq in
      let delta :=
        F32.of_double (F64.div (F64.of_Z 2) (F64.of_float period)) in
      (tuning', wrap_phase (F32.add (last s) delta), delta)
    else (tuning s, last s, fzero) in
  '(value', data') <- fill (volume s) delta (Z.to_nat count) 0 value data ;;
  Some (mk (tuning_v s) tuning' (volume s) value', data').

(** [Synth::tuning(a)]: [tuning_v = 1.0 + 0.01 * a]. *)
Definition set_tuning (s : t) (a : Z) : t :=
  mk (F32.of_double
        (F64.add (F64.of_Z 1) (F64.mul (F64.literal 1 2) (F64.of_Z a))))
     (tuning s) (volume s) (last s).

End SawTooth.

(** ** Synth::LowPass *)

Module LowPass.

(** [float value[4]] is the four fields [value0] to [value3]. *)
Record t := mk {
  rc_v : spec_float;
  rc : spec_float;
  value0 : spec_float;
  value1 : spec_float;
  value2 : spec_float;
  value3 : spec_float
}.

(** [rc_v = 1.0], [rc = 0.5], [value = {0, 0, 0, 0}]. *)
Definition init : t :=
  mk (F32.of_Z 1) (F32.of_double (F64.literal 5 1)) fzero fzero fzero fzero.

(** [std::clamp(data[i] * rc + value[j] * (1.0 - rc), SHRT_MIN, SHRT_MAX)]
    assigned to the [float] accumulator: the first product is in [float],
    the rest in [double]. *)
Definition smooth (rc acc : spec_float) (x : Z) : spec_float :=
  F32.of_double
    (clamp (F64.add (F64.of_float (F32.mul (F32.of_Z x) rc))
                    (F64.mul (F64.of_float acc)
                             (F64.sub (F64.of_Z 1) (F64.of_float rc))))
           (F64.of_Z SHRT_MIN) (F64.of_Z SHRT_MAX)).

(** The inner loop over [i] for one stage, with [n] iterations left. *)
Fixpoint stage (rc : spec_float) (n : nat) (i : Z) (acc : spec_float)
    (data : list Z) : option (spec_float * list Z) :=
  match n with
  | O => Some (acc, data)
  | S n' =>
      x <- nth_error data (Z.to_nat i) ;;
      let acc' := smooth rc acc x in
      v <- to_int16 acc' ;;
      data' <- store data i v ;;
      stage rc n' (i + 1) acc' data'
  end.

(** [tick(data, count)]: the outer loop runs [j = 0 .. 3]. *)
Definition tick (s : t) (data : list Z) (count : Z) : option (t * list Z) :=
  let rc' := clamp (F32.mul (rc s) (rc_v s)) fzero (F32.of_Z 1) in
  let n := Z.to_nat count in
  '(v0, d0) <- stage rc' n 0 (value0 s) data ;;
  '(v1, d1) <- stage rc' n 0 (value1 s) d0 ;;
  '(v2, d2) <- stage rc' n 0 (value2 s) d1 ;;
  '(v3, d3) <- stage rc' n 0 (value3 s) d2 ;;
  Some (mk (rc_v s) rc' v0 v1 v2 v3, d3).

(** [Synth::cutoff(a)]: [rc_v = 1.0 + 0.01 * a]. *)
Definition set_cutoff (s : t) (a : Z) : t :=
  mk (F32.of_double
        (F64.add (F64.of_Z 1) (F64.mul (F64.literal 1 2) (F64.of_Z a))))
     (rc s) (value0 s) (value1 s) (value2 s) (value3 s).

End LowPass.

(** ** Synth *)

Module Synth.

Record t := mk {
  sequencer : Sequencer.t;
  sawtooth : SawTooth.t;
  lowpass : LowPass.t
}.

Definition init : t := mk Sequencer.init SawTooth.init LowPass.init.

(** [make_sound(data, count)]. *)
Definition make_sound (s : t) (data : list Z) (count : Z)
    : option (t * list Z) :=
  '(note, sq) <- Sequencer.tick (sequencer s) count ;;
  '(sw, d1) <- SawTooth.tick (sawtooth s) note data count ;;
  '(lp, d2) <- LowPass.tick (lowpass s) d1 count ;;
  Some (mk sq sw lp, d2).

End Synth.

(** ** The real value of a float, rounding, and ranges *)

(** [2 ^ e] as a real. *)
Definition bpow (e : Z) : R := powerRZ 2 e.

(** The real [m * 2 ^ e]. *)
Definition F2R (m e : Z) : R := (IZR m * bpow e)%R.

(** The real value of a finite float; zero for the others. *)
Definition B2R (x : spec_float) : R :=
  match x with
  | S754_finite s m e => F2R (cond_Zopp s (Zpos m)) e
  | _ => 0%R
  end.

(** [v] lies in the slice [[m * 2^e, (m+1) * 2^e)], and [l] tells whether
    it is its lower end. *)
Definition inbetween (m e : Z) (l : location) (v : R) : Prop :=
  (F2R m e <= v < F2R (m + 1) e)%R /\ (l = loc_Exact <-> v = F2R m e).

(** What [n] right shifts keep: the mantissa stays non-negative, the value
    stays located, and the mantissa loses [n] digits. *)
Definition shr_inv (e0 d : Z) (v : R) (k : Z) (mrs : shr_record) : Prop :=
  0 <= shr_m mrs
  /\ inbetween (shr_m mrs) (e0 + k) (loc_of_shr_record mrs) v
  /\ (IZR (shr_m mrs) < bpow (d - k))%R
  /\ (0 <= d - 1 - k -> 2 ^ (d - 1 - k) <= shr_m mrs).

(** The last step of [binary_round_aux]: a zero mantissa is a zero, an
    exponent above the format is an overflow. *)
Definition finish (prec emax : Z) (sx : bool) (m e : Z) : spec_float :=
  match m with
  | Z0 => S754_zero sx
  | Zpos p => if e <=? emax - prec then S754_finite sx p e else S754_infinity sx
  | Zneg _ => S754_nan
  end.

Definition finite_or_zero (x : spec_float) : bool :=
  match x with
  | S754_zero _ | S754_finite _ _ _ => true
  | _ => false
  end.

(** A number of the format: canonical, and neither infinite nor a NaN. *)
Definition good (prec emax : Z) (x : spec_float) : Prop :=
  valid_binary prec emax x = true /\ finite_or_zero x = true.

(** [res] is a rounding of the magnitude [v] with sign [sx]: no number of
    the format lies strictly between [v] and it. *)
Definition rounded (prec emax : Z) (sx : bool) (v : R) (res : spec_float)
    : Prop :=
  exists m e,
    res = finish prec emax sx m e
    /\ 0 <= m
    /\ (0 < m -> SpecFloat.fexp prec emax (Zdigits2 m + e) = e)
    /\ (forall K F, 0 <= K -> (IZR K < bpow prec)%R ->
          SpecFloat.emin prec emax <= F ->
          (v <= F2R K F)%R -> (F2R m e <= F2R K F)%R)
    /\ (forall K F, 0 <= K -> (IZR K < bpow prec)%R ->
          SpecFloat.emin prec emax <= F ->
          (F2R K F <= v)%R -> (F2R K F <= F2R m e)%R).

(** [res] is a rounding of the real [w]. *)
Definition rounds (prec emax : Z) (w : R) (res : spec_float) : Prop :=
  exists s,
    rounded prec emax s (Rabs w) res
    /\ ((0 < w)%R -> s = false) /\ ((w < 0)%R -> s = true).

(** A finite [float]. *)
Definition is_float (x : spec_float) : bool :=
  valid_binary F32.prec F32.emax x && finite_or_zero x.

(** [lo <= x && x <= hi] on a finite [float]. *)
Definition between (lo hi x : spec_float) : bool :=
  is_float x && negb (flt x lo) && negb (flt hi x).

(** The range of an [int16_t] sample. *)
Definition in_sample_range (x : spec_float) : bool :=
  between (F32.of_Z SHRT_MIN) (F32.of_Z SHRT_MAX) x.

(** The range [0, 1] of a coefficient, a volume or a phase increment. *)
Definition in_unit (x : spec_float) : bool :=
  between fzero (F32.of_Z 1) x.

(** The wrapped phase range [-1, 1]. *)
Definition in_phase (x : spec_float) : bool :=
  between (F32.of_Z (-1)) (F32.of_Z 1) x.

(** The range [0.1, 1000] of the tuning. *)
Definition in_tuning_range (x : spec_float) : bool :=
  between (F32.div (F32.of_Z 1) (F32.of_Z 10)) (F32.of_Z 1000) x.

(** ** Audio and audioCallback *)

Definition buffer_size : Z := 1024.

(** [std::fill(buffer + from, buffer + to, 0)]. *)
Definition fill_zero (buffer : list Z) (from to : Z) : option (list Z) :=
  if from <=? to
  then blit (repeat 0 (Z.to_nat (to - from))) buffer from
  else None.

Module Audio.

(** The members of [Audio] that the sound path uses.  The device handle,
    the thread, the mutex and the condition variable are left out. *)
Record t := mk {
  synth : Synth.t;
  buffer : CircularBuffer.t;
  quit : bool
}.

(** [Audio() : buffer(buffer_size * 2) {}]. *)
Definition make : t :=
  mk Synth.init (CircularBuffer.make (Z.to_nat (buffer_size * 2))) false.

(** [Audio::tuning(a)], which is [Synth::tuning(a)]. *)
Definition tuning (a : t) (x : Z) : t :=
  mk (Synth.mk (Synth.sequencer (synth a))
               (SawTooth.set_tuning (Synth.sawtooth (synth a)) x)
               (Synth.lowpass (synth a)))
     (buffer a) (quit a).

(** [Audio::cutoff(a)], which is [Synth::cutoff(a)]. *)
Definition cutoff (a : t) (x : Z) : t :=
  mk (Synth.mk (Synth.sequencer (synth a))
               (Synth.sawtooth (synth a))
               (LowPass.set_cutoff (Synth.lowpass (synth a)) x))
     (buffer a) (quit a).

(** The condition the producer waits for:
    [quit || buffer.has_space()]. *)
Definition wait_over (a : t) : bool :=
  quit a || CircularBuffer.has_space (buffer a).

(** One turn of the loop of [Audio::play], from its top to the wait: the
    block is synthesised into the local array [data] of [buffer_size]
    samples and offered to the buffer.  The result carries the block and
    the shortfall, which the source calls [left]. *)
Definition produce (a : t) (data : list Z) : option (t * list Z * Z) :=
  '(sy, data1) <- Synth.make_sound (synth a) data buffer_size ;;
  '(b, short) <- CircularBuffer.copy_in (buffer a) data1 buffer_size ;;
  Some (mk sy b (quit a), data1, short).

(** The rest of the turn when [left] was not zero, from the return of the
    wait: unless [quit] is set, the last [left] samples of the block are
    offered once more, and what the buffer returns is dropped.  [a] is the
    object as the producer finds it when it wakes up. *)
Definition resume (a : t) (data : list Z) (left : Z) : option t :=
  if quit a then Some a
  else
    rest <- slice data (buffer_size - left) buffer_size ;;
    '(b, _) <- CircularBuffer.copy_in (buffer a) rest left ;;
    Some (mk (synth a) b (quit a)).

End Audio.

(** [audioCallback(userdata, stream, len)]: the [Audio] object and the
    stream afterwards.  A null pointer is [None]; the stream is taken as
    the array of [int16_t] the callback casts it to; [len], an [int32_t],
    is converted to [size_t] by the division; [short] is the source's
    [left].  [audio.notify()] wakes the producer and changes no data. *)
Definition audioCallback (userdata : option Audio.t)
    (stream : option (list Z)) (len : Z)
    : option (option Audio.t * option (list Z)) :=
  match userdata, stream with
  | Some audio, Some buffer =>
      let count := wrap64 len / 2 in
      '(b, buffer1, short) <-
        CircularBuffer.copy_out (Audio.buffer audio) buffer count ;;
      buffer2 <- (if short =? 0 then Some buffer1
                  else fill_zero buffer1 (count - short) count) ;;
      Some (Some (Audio.mk (Audio.synth audio) b (Audio.quit audio)),
            Some buffer2)
  | _, _ => Some (userdata, stream)
  end.

(** ** Keyboard *)

Module Keyboard.

(** [state] is the array SDL hands out and [length] the number of keys in
    it. *)
Record t := mk {
  state : list Z;
  length : Z
}.

(** [pressed(key)]. *)
Definition pressed (k : t) (key : Z) : option bool :=
  if (key <? 0) || (key >? length k) then Some false
  else x <- nth_error (state k) (Z.to_nat key) ;; Some (x =? 1).

End Keyboard.

(** ** The states the program keeps to *)

(** A sequencer whose tempo gives a beat of at least one sample, with a
    pattern of eight finite notes and the counter inside the pattern. *)
Definition sequencer_ok (s : Sequencer.t) : Prop :=
  1 <= Sequencer.bpm s <= 60 * samples_per_sec
  /\ List.length (Sequencer.pattern s) = 8%nat
  /\ Forall (fun note => is_float note = true) (Sequencer.pattern s)
  /\ 0 <= Sequencer.sample s
     < 8 * (60 * samples_per_sec / Sequencer.bpm s).

(** An oscillator with finite tunings, a volume in [0, 1] and a phase in
    [-1, 1]. *)
Definition sawtooth_ok (s : SawTooth.t) : Prop :=
  is_float (SawTooth.tuning_v s) = true
  /\ is_float (SawTooth.tuning s) = true
  /\ in_unit (SawTooth.volume s) = true
  /\ in_phase (SawTooth.last s) = true.

(** A filter with finite coefficients and its four accumulators within
    the range of a sample. *)
Definition lowpass_ok (s : LowPass.t) : Prop :=
  is_float (LowPass.rc_v s) = true
  /\ is_float (LowPass.rc s) = true
  /\ in_sample_range (LowPass.value0 s) = true
  /\ in_sample_range (LowPass.value1 s) = true
  /\ in_sample_range (LowPass.value2 s) = true
  /\ in_sample_range (LowPass.value3 s) = true.

Definition synth_ok (s : Synth.t) : Prop :=
  sequencer_ok (Synth.sequencer s)
  /\ sawtooth_ok (Synth.sawtooth s)
  /\ lowpass_ok (Synth.lowpass s).

(** * Properties *)

(** ** Arithmetic of the machine integers *)

Lemma wrap64_small (z : Z) : 0 <= z < size_max -> wrap64 z = z.
Proof. intros H. unfold wrap64. apply Z.mod_small. exact H. Qed.

Lemma uadd_small (a b : Z) : 0 <= a + b < size_max -> uadd a b = a + b.
Proof. apply wrap64_small. Qed.

Lemma usub_small (a b : Z) : 0 <= a - b < size_max -> usub a b = a - b.
Proof. apply wrap64_small. Qed.

Lemma mod_once (x c : Z) :
  0 <= x < 2 * c -> x mod c = if x <? c then x else x - c.
Proof.
  intros H. destruct (Z.ltb_spec x c) as [Hlt | Hge].
  - apply Z.mod_small. lia.
  - symmetry. apply Z.mod_unique with (q := 1); lia.
Qed.

Lemma mod_once_cases (x c : Z) :
  0 <= x < 2 * c ->
  x < c /\ x mod c = x \/ c <= x /\ x mod c = x - c.
Proof.
  intros H. rewrite (mod_once x c H).
  destruct (Z.ltb_spec x c); [left | right]; split; auto.
Qed.

(** ** Arrays *)

Lemma len_nonneg {A : Type} (l : list A) : 0 <= len l.
Proof. unfold len. lia. Qed.

Lemma len_app {A : Type} (l1 l2 : list A) : len (l1 ++ l2) = len l1 + len l2.
Proof. unfold len. rewrite length_app. lia. Qed.

Lemma len_firstn {A : Type} (l : list A) (n : Z) :
  0 <= n <= len l -> len (firstn (Z.to_nat n) l) = n.
Proof. unfold len. intros H. rewrite length_firstn. lia. Qed.

Lemma len_skipn {A : Type} (l : list A) (n : Z) :
  0 <= n <= len l -> len (skipn (Z.to_nat n) l) = len l - n.
Proof. unfold len. intros H. rewrite length_skipn. lia. Qed.

Lemma len_zero_nil {A : Type} (l : list A) : len l = 0 -> l = [].
Proof. unfold len. destruct l; simpl; [reflexivity | lia]. Qed.

Lemma slice_some {A : Type} (l : list A) (from to : Z) :
  0 <= from <= to -> to <= len l ->
  slice l from to
  = Some (firstn (Z.to_nat (to - from)) (skipn (Z.to_nat from) l)).
Proof.
  intros H1 H2. unfold slice.
  destruct (Z.leb_spec 0 from); [| lia].
  destruct (Z.leb_spec from to); [| lia].
  destruct (Z.leb_spec to (len l)); [| lia].
  reflexivity.
Qed.

Lemma slice_len {A : Type} (l d : list A) (from to : Z) :
  slice l from to = Some d ->
  len d = to - from /\ 0 <= from <= to /\ to <= len l.
Proof.
  unfold slice.
  destruct (Z.leb_spec 0 from); [| discriminate].
  destruct (Z.leb_spec from to); [| discriminate].
  destruct (Z.leb_spec to (len l)); [| discriminate].
  simpl. intros E. injection E as <-. split; [| lia].
  rewrite len_firstn; [reflexivity |]. rewrite len_skipn; lia.
Qed.

Lemma blit_some {A : Type} (data dest : list A) (at_ : Z) :
  0 <= at_ -> at_ + len data <= len dest ->
  blit data dest at_
  = Some (firstn (Z.to_nat at_) dest ++ data
          ++ skipn (Z.to_nat (at_ + len data)) dest).
Proof.
  intros H1 H2. unfold blit.
  destruct (Z.leb_spec 0 at_); [| lia].
  destruct (Z.leb_spec (at_ + len data) (len dest)); [| lia].
  reflexivity.
Qed.

Lemma blit_len {A : Type} (data dest d : list A) (at_ : Z) :
  blit data dest at_ = Some d ->
  len d = len dest /\ 0 <= at_ /\ at_ + len data <= len dest.
Proof.
  unfold blit.
  destruct (Z.leb_spec 0 at_); [| discriminate].
  destruct (Z.leb_spec (at_ + len data) (len dest)); [| discriminate].
  simpl. intros E. injection E as <-. split; [| lia].
  pose proof (len_nonneg data).
  rewrite !len_app, len_firstn, len_skipn; lia.
Qed.

Lemma std_copy_some {A : Type} (src dest : list A) (from to at_ : Z) :
  0 <= from <= to -> to <= len src ->
  0 <= at_ -> at_ + (to - from) <= len dest ->
  exists d, std_copy src from to dest at_ = Some d /\ len d = len dest.
Proof.
  intros H1 H2 H3 H4. unfold std_copy.
  rewrite slice_some by assumption. simpl.
  assert (Hl : len (firstn (Z.to_nat (to - from)) (skipn (Z.to_nat from) src))
               = to - from).
  { rewrite len_firstn; [reflexivity |]. rewrite len_skipn; lia. }
  rewrite blit_some by (rewrite ?Hl; lia).
  eexists. split; [reflexivity |].
  rewrite !len_app, len_firstn, len_skipn, Hl; rewrite ?Hl; lia.
Qed.

Lemma std_copy_eq {A : Type} (src dest : list A) (from to at_ : Z) :
  0 <= from <= to -> to <= len src ->
  0 <= at_ -> at_ + (to - from) <= len dest ->
  std_copy src from to dest at_
  = Some (firstn (Z.to_nat at_) dest
          ++ firstn (Z.to_nat (to - from)) (skipn (Z.to_nat from) src)
          ++ skipn (Z.to_nat (at_ + (to - from))) dest).
Proof.
  intros H1 H2 H3 H4. unfold std_copy.
  rewrite slice_some by assumption. simpl.
  assert (Hl : len (firstn (Z.to_nat (to - from)) (skipn (Z.to_nat from) src))
               = to - from).
  { rewrite len_firstn; [reflexivity |]. rewrite len_skipn; lia. }
  rewrite blit_some by (rewrite ?Hl; lia). rewrite Hl. reflexivity.
Qed.

Lemma firstn_len_app {A : Type} (l1 l2 : list A) :
  firstn (Z.to_nat (len l1)) (l1 ++ l2) = l1.
Proof.
  unfold len. rewrite Nat2Z.id, firstn_app, Nat.sub_diag, firstn_all.
  simpl. apply app_nil_r.
Qed.

Lemma skipn_len_all {A : Type} (l : list A) (n : Z) :
  len l <= n -> skipn (Z.to_nat n) l = [].
Proof. unfold len. intros H. apply skipn_all2. lia. Qed.

Lemma firstn_len_all {A : Type} (l : list A) (n : Z) :
  len l <= n -> firstn (Z.to_nat n) l = l.
Proof. unfold len. intros H. apply firstn_all2. lia. Qed.

Lemma std_copy_len {A : Type} (src dest d : list A) (from to at_ : Z) :
  std_copy src from to dest at_ = Some d ->
  len d = len dest /\ 0 <= from <= to /\ to <= len src
  /\ 0 <= at_ /\ at_ + (to - from) <= len dest.
Proof.
  unfold std_copy. destruct (slice src from to) as [data |] eqn:Es;
    simpl; [| discriminate].
  intros Eb. apply slice_len in Es. apply blit_len in Eb. lia.
Qed.

Lemma mod_diff_cases (p w c : Z) :
  0 <= p < c -> 0 <= w < c ->
  w <= p /\ (p - w) mod c = p - w \/ p < w /\ (p - w) mod c = p - w + c.
Proof.
  intros Hp Hw. destruct (Z_le_gt_dec w p) as [Hle | Hgt]; [left | right].
  - split; [exact Hle |]. apply Z.mod_small. lia.
  - split; [lia |]. symmetry.
    apply Z.mod_unique with (q := -1); lia.
Qed.

(** What [std::copy] leaves at index [p] of the destination. *)
Lemma get_std_copy (src dest d : list Z) (from to at_ p : Z) :
  std_copy src from to dest at_ = Some d -> 0 <= p ->
  CircularBuffer.get d p
  = if (at_ <=? p) && (p <? at_ + (to - from))
    then CircularBuffer.get src (from + (p - at_))
    else CircularBuffer.get dest p.
Proof.
  intros H Hp. pose proof (std_copy_len _ _ _ _ _ _ H) as (Hl & Hf & Ht & Ha & Hd).
  rewrite std_copy_eq in H by lia. injection H as <-.
  unfold CircularBuffer.get.
  assert (L1 : length (firstn (Z.to_nat at_) dest) = Z.to_nat at_).
  { rewrite length_firstn. unfold len in *. lia. }
  assert (L2 : length (firstn (Z.to_nat (to - from))
                         (skipn (Z.to_nat from) src)) = Z.to_nat (to - from)).
  { rewrite length_firstn, length_skipn. unfold len in *. lia. }
  destruct (Z.leb_spec at_ p) as [H1 | H1]; simpl.
  - rewrite app_nth2 by lia. rewrite L1.
    destruct (Z.ltb_spec p (at_ + (to - from))) as [H2 | H2].
    + rewrite app_nth1 by lia. rewrite nth_firstn, nth_skipn.
      destruct (Nat.ltb_spec (Z.to_nat p - Z.to_nat at_)
                  (Z.to_nat (to - from))) as [_ | Hn]; [| lia].
      f_equal. lia.
    + rewrite app_nth2 by lia. rewrite L2, nth_skipn. f_equal. lia.
  - rewrite app_nth1 by lia. rewrite nth_firstn.
    destruct (Nat.ltb_spec (Z.to_nat p) (Z.to_nat at_)) as [_ | Hn];
      [reflexivity | lia].
Qed.

(** ** CircularBuffer: cursors *)

Module CircularBufferFacts.
Import CircularBuffer.

Ltac unwrap :=
  repeat match goal with
  | |- context [usub ?a ?b] => rewrite (usub_small a b) by lia
  | |- context [uadd ?a ?b] => rewrite (uadd_small a b) by lia
  | H : context [usub ?a ?b] |- _ => rewrite (usub_small a b) in H by lia
  | H : context [uadd ?a ?b] |- _ => rewrite (uadd_small a b) in H by lia
  end.

Ltac split_ifs :=
  repeat match goal with
  | H : context [if ?c then _ else _] |- _ =>
      let E := fresh "E" in destruct c eqn:E
  | |- context [if ?c then _ else _] =>
      let E := fresh "E" in destruct c eqn:E
  end.

Ltac to_prop :=
  repeat match goal with
  | H : (_ <? _) = true |- _ => apply Z.ltb_lt in H
  | H : (_ <? _) = false |- _ => apply Z.ltb_ge in H
  | H : (_ >? _) = true |- _ => rewrite Z.gtb_ltb in H; apply Z.ltb_lt in H
  | H : (_ >? _) = false |- _ => rewrite Z.gtb_ltb in H; apply Z.ltb_ge in H
  | H : (_ =? _) = true |- _ => apply Z.eqb_eq in H
  | H : (_ =? _) = false |- _ => apply Z.eqb_neq in H
  | H : (_ <=? _) = true |- _ => apply Z.leb_le in H
  | H : (_ <=? _) = false |- _ => apply Z.leb_gt in H
  end.

Ltac copies :=
  repeat match goal with
  | H : context [std_copy ?s ?f ?t ?d ?a] |- _ =>
      let E := fresh "Ec" in
      destruct (std_copy s f t d a) eqn:E; simpl in H;
      [apply std_copy_len in E | discriminate H]
  end.

Lemma copy_in_cursors (b b' : t) (src : list Z) (count short : Z) :
  wf b -> 0 <= count < size_max ->
  copy_in b src count = Some (b', short) ->
  short = count - Z.min count (space b)
  /\ write_a b' = (write_a b + Z.min count (space b)) mod size b
  /\ read_a b' = read_a b
  /\ first b' = false
  /\ size b' = size b.
Proof.
  intros [Hs Hr Hw Hf] Hc. unfold copy_in, space.
  destruct (first b) eqn:Efirst.
  - specialize (Hf eq_refl). intros H. copies.
    destruct (Z.eqb_spec (size b) 0); [discriminate |].
    injection H as <- <-. unfold size in *. simpl. unwrap.
    repeat split; lia.
  - destruct (read_a b >? write_a b) eqn:E1;
      [| destruct (read_a b <? write_a b) eqn:E2]; to_prop; intros H.
    + copies. destruct (Z.eqb_spec (size b) 0); [discriminate |].
      injection H as <- <-. unfold size in *. simpl. unwrap.
      repeat split; lia.
    + copies. destruct (Z.eqb_spec (size b) 0); [discriminate |].
      injection H as <- <-. unfold size in *. simpl. unwrap.
      replace (Z.min (len (samples b) - write_a b) count
               + Z.max 0 (Z.min (count - Z.min (len (samples b) - write_a b) count)
                                (read_a b)))
        with (Z.min count (len (samples b) - write_a b + read_a b)) by lia.
      repeat split; lia.
    + simpl in H. destruct (Z.eqb_spec (size b) 0); [discriminate |].
      injection H as <- <-. unfold size in *. simpl. unwrap.
      replace (Z.min count 0) with 0 by lia.
      repeat split; try lia.
Qed.

Lemma copy_out_cursors (b b' : t) (dest dest' : list Z) (count short : Z) :
  wf b -> 0 <= count < size_max ->
  copy_out b dest count = Some (b', dest', short) ->
  short = count - Z.min count (occupied b)
  /\ read_a b' = (read_a b + Z.min count (occupied b)) mod size b
  /\ write_a b' = write_a b
  /\ first b' = first b
  /\ samples b' = samples b.
Proof.
  intros [Hs Hr Hw Hf] Hc. unfold copy_out, occupied.
  destruct (read_a b <? write_a b) eqn:E1; to_prop; intros H.
  - copies. destruct (Z.eqb_spec (size b) 0); [discriminate |].
    injection H as <- <- <-. unfold size in *. simpl. unwrap.
    repeat split; lia.
  - copies. destruct (Z.eqb_spec (size b) 0); [discriminate |].
    injection H as <- <- <-. unfold size in *. simpl. unwrap.
    replace (Z.min (len (samples b) - read_a b) count
             + Z.max 0 (Z.min (count - Z.min (len (samples b) - read_a b) count)
                              (write_a b)))
      with (Z.min count (len (samples b) - read_a b + write_a b)) by lia.
    repeat split; lia.
Qed.

Lemma copy_in_wf (b b' : t) (src : list Z) (count short : Z) :
  wf b -> 0 <= count < size_max ->
  copy_in b src count = Some (b', short) -> wf b'.
Proof.
  intros Hwf Hc H.
  destruct (copy_in_cursors _ _ _ _ _ Hwf Hc H) as (_ & Hw' & Hr' & Hf' & Hs').
  destruct Hwf as [Hs Hr Hw Hf].
  constructor; rewrite ?Hs', ?Hr', ?Hw'; try assumption.
  - apply Z.mod_pos_bound. lia.
  - rewrite Hf'. discriminate.
Qed.

Lemma copy_out_wf (b b' : t) (dest dest' : list Z) (count short : Z) :
  wf b -> 0 <= count < size_max ->
  copy_out b dest count = Some (b', dest', short) -> wf b'.
Proof.
  intros Hwf Hc H.
  destruct (copy_out_cursors _ _ _ _ _ _ Hwf Hc H) as (_ & Hr' & Hw' & Hf' & Hs').
  destruct Hwf as [Hs Hr Hw Hf].
  assert (Hsz : size b' = size b) by (unfold size; rewrite Hs'; reflexivity).
  constructor; rewrite ?Hsz, ?Hr', ?Hw', ?Hf'; try assumption.
  apply Z.mod_pos_bound. lia.
Qed.

(** Neither call has undefined behaviour when the caller's array holds the
    [count] samples it announces. *)
Lemma copy_in_total (b : t) (src : list Z) (count : Z) :
  wf b -> 0 <= count < size_max -> count <= len src ->
  exists b' short, copy_in b src count = Some (b', short).
Proof.
  intros [Hs Hr Hw Hf] Hc Hsrc. unfold copy_in.
  assert (Hnz : (size b =? 0) = false) by (apply Z.eqb_neq; lia).
  rewrite Hnz. unfold size in *.
  destruct (first b) eqn:Efirst.
  - specialize (Hf eq_refl).
    destruct (std_copy_some src (samples b) 0 (Z.min count (len (samples b)))
                (write_a b)) as (d & -> & _); try lia.
    simpl. eauto.
  - destruct (read_a b >? write_a b) eqn:E1;
      [| destruct (read_a b <? write_a b) eqn:E2]; to_prop.
    + unwrap.
      destruct (std_copy_some src (samples b) 0
                  (Z.min count (read_a b - write_a b)) (write_a b))
        as (d & -> & _); try lia.
      simpl. eauto.
    + unwrap.
      destruct (std_copy_some src (samples b) 0
                  (Z.min (len (samples b) - write_a b) count) (write_a b))
        as (d1 & -> & Hd1); try lia.
      simpl.
      destruct (std_copy_some src d1
                  (Z.min (len (samples b) - write_a b) count)
                  (Z.min (len (samples b) - write_a b) count
                   + Z.max 0 (Z.min (count
                                     - Z.min (len (samples b) - write_a b) count)
                                    (read_a b))) 0)
        as (d2 & -> & _); try lia.
      simpl. eauto.
    + simpl. eauto.
Qed.

Lemma copy_out_total (b : t) (dest : list Z) (count : Z) :
  wf b -> 0 <= count < size_max -> count <= len dest ->
  exists b' dest' short, copy_out b dest count = Some (b', dest', short).
Proof.
  intros [Hs Hr Hw Hf] Hc Hdest. unfold copy_out.
  assert (Hnz : (size b =? 0) = false) by (apply Z.eqb_neq; lia).
  rewrite Hnz. unfold size in *.
  destruct (read_a b <? write_a b) eqn:E1; to_prop.
  - unwrap.
    destruct (std_copy_some (samples b) dest (read_a b)
                (read_a b + Z.min count (write_a b - read_a b)) 0)
      as (d & -> & _); try lia.
    simpl. eauto.
  - unwrap.
    destruct (std_copy_some (samples b) dest (read_a b)
                (read_a b + Z.min (len (samples b) - read_a b) count) 0)
      as (d1 & -> & Hd1); try lia.
    simpl.
    destruct (std_copy_some (samples b) d1 0
                (Z.max 0 (Z.min (count
                                 - Z.min (len (samples b) - read_a b) count)
                                (write_a b)))
                (Z.min (len (samples b) - read_a b) count))
      as (d2 & -> & _); try lia.
    simpl. eauto.
Qed.

(** *** What every run maintains *)

Ltac laps_with j :=
  split_ifs; to_prop; first [ exists j; lia | exists (j + 1); lia ].

Ltac reduce_mod x c :=
  let Hm := fresh "Hm" in
  let E := fresh "Em" in
  assert (Hm : 0 <= x < 2 * c) by (split_ifs; to_prop; lia);
  destruct (mod_once_cases x c Hm) as [[? E] | [? E]]; rewrite E; clear E.

Lemma copy_in_tally (b b' : t) (k : tally) (src : list Z) (count short : Z) :
  wf b -> 0 <= count < size_max -> tally_inv b k ->
  copy_in b src count = Some (b', short) ->
  tally_inv b' (mkTally (produced k + (count - short)) (consumed k)).
Proof.
  intros Hwf Hc (j & Hj & Hinv) H.
  destruct (copy_in_cursors _ _ _ _ _ Hwf Hc H) as (-> & Hw' & Hr' & Hf' & Hs').
  destruct Hwf as [Hs Hr Hw Hf].
  unfold tally_inv, lead, occupied in *. rewrite Hf', Hs', Hr', Hw'. simpl.
  clear H Hw' Hr' Hf' Hs'.
  unfold space in *. destruct (first b) eqn:Efirst.
  - specialize (Hf eq_refl). rewrite Hf in *. simpl.
    reduce_mod (Z.min count (size b)) (size b); laps_with j.
  - destruct (read_a b >? write_a b) eqn:E1;
      [| destruct (read_a b <? write_a b) eqn:E2]; to_prop.
    + reduce_mod (write_a b + Z.min count (read_a b - write_a b)) (size b);
        laps_with j.
    + reduce_mod (write_a b
                  + Z.min count (size b - write_a b + read_a b)) (size b);
        laps_with j.
    + reduce_mod (write_a b + Z.min count 0) (size b); laps_with j.
Qed.

Lemma copy_out_tally (b b' : t) (k : tally) (dest dest' : list Z)
    (count short : Z) :
  wf b -> 0 <= count < size_max -> tally_inv b k ->
  copy_out b dest count = Some (b', dest', short) ->
  tally_inv b' (mkTally (produced k) (consumed k + (count - short))).
Proof.
  intros Hwf Hc (j & Hj & Hinv) H.
  destruct (copy_out_cursors _ _ _ _ _ _ Hwf Hc H)
    as (-> & Hr' & Hw' & Hf' & Hs').
  destruct Hwf as [Hs Hr Hw Hf].
  assert (Hsz : size b' = size b) by (unfold size; rewrite Hs'; reflexivity).
  unfold tally_inv, lead, occupied in *. rewrite Hf', Hsz, Hr', Hw'. simpl.
  clear H Hw' Hr' Hf' Hs' Hsz.
  destruct (read_a b <? write_a b) eqn:E1; to_prop.
  - reduce_mod (read_a b + Z.min count (write_a b - read_a b)) (size b);
      destruct (first b); try (specialize (Hf eq_refl)); laps_with j.
  - reduce_mod (read_a b
                + Z.min count (size b - read_a b + write_a b)) (size b);
      destruct (first b); try (specialize (Hf eq_refl)); laps_with j.
Qed.

Lemma step_inv (b b' : t) (k k' : tally) (c : call) :
  wf b -> tally_inv b k -> call_ok c ->
  step (b, k) c = Some (b', k') ->
  wf b' /\ tally_inv b' k' /\ size b' = size b.
Proof.
  intros Hwf Hinv Hok. unfold step.
  destruct c as [src count | dest count]; simpl in Hok;
    destruct Hok as [Hlen Hmax].
  - pose proof (len_nonneg src) as Hpos.
    assert (Hc : 0 <= count < size_max) by lia.
    destruct (copy_in b src count) as [[b1 short] |] eqn:E; simpl;
      [| discriminate].
    intros H. injection H as <- <-. split; [| split].
    + exact (copy_in_wf _ _ _ _ _ Hwf Hc E).
    + exact (copy_in_tally _ _ _ _ _ _ Hwf Hc Hinv E).
    + apply (copy_in_cursors _ _ _ _ _ Hwf Hc E).
  - pose proof (len_nonneg dest) as Hpos.
    assert (Hc : 0 <= count < size_max) by lia.
    destruct (copy_out b dest count) as [[[b1 d1] short] |] eqn:E; simpl;
      [| discriminate].
    intros H. injection H as <- <-. split; [| split].
    + exact (copy_out_wf _ _ _ _ _ _ Hwf Hc E).
    + exact (copy_out_tally _ _ _ _ _ _ _ Hwf Hc Hinv E).
    + destruct (copy_out_cursors _ _ _ _ _ _ Hwf Hc E) as (_ & _ & _ & _ & Hs).
      unfold size. rewrite Hs. reflexivity.
Qed.

Lemma step_total (b : t) (k : tally) (c : call) :
  wf b -> call_ok c -> exists st, step (b, k) c = Some st.
Proof.
  intros Hwf Hok. unfold step.
  destruct c as [src count | dest count]; simpl in Hok;
    destruct Hok as [Hlen Hmax].
  - pose proof (len_nonneg src) as Hpos.
    destruct (copy_in_total b src count) as (b' & short & ->);
      [assumption | lia | lia |]. simpl. eauto.
  - pose proof (len_nonneg dest) as Hpos.
    destruct (copy_out_total b dest count) as (b' & d' & short & ->);
      [assumption | lia | lia |]. simpl. eauto.
Qed.

Lemma run_cons (st : t * tally) (c : call) (cs : list call) :
  run st (c :: cs) = (st' <- step st c ;; run st' cs).
Proof. reflexivity. Qed.

Lemma run_inv (cs : list call) : forall (b b' : t) (k k' : tally),
  wf b -> tally_inv b k -> Forall call_ok cs ->
  run (b, k) cs = Some (b', k') ->
  wf b' /\ tally_inv b' k' /\ size b' = size b.
Proof.
  induction cs as [| c cs IH]; intros b b' k k' Hwf Hinv Hok.
  - simpl. intros H. injection H as <- <-. split; [| split]; auto.
  - inversion Hok as [| ? ? Hc Hcs]; subst. rewrite run_cons.
    destruct (step (b, k) c) as [[b1 k1] |] eqn:E; [| discriminate].
    cbn [bind].
    destruct (step_inv _ _ _ _ _ Hwf Hinv Hc E) as (Hwf1 & Hinv1 & Hs1).
    intros H. rewrite <- Hs1. apply (IH _ _ _ _ Hwf1 Hinv1 Hcs H).
Qed.

Lemma make_size (n : nat) : size (make n) = Z.of_nat n.
Proof. unfold size, len. simpl. rewrite repeat_length. reflexivity. Qed.

Lemma make_wf (n : nat) :
  (0 < n)%nat -> 2 * Z.of_nat n <= size_max -> wf (make n).
Proof.
  intros Hn Hmax. constructor; rewrite ?make_size; cbn [make read_a write_a];
    auto; lia.
Qed.

Lemma start_inv (n : nat) : tally_inv (make n) (mkTally 0 0).
Proof. exists 0. simpl. lia. Qed.

(** X1.  Every history of well-formed calls on a fresh buffer runs to the
    end without undefined behaviour. *)
Theorem run_total (n : nat) (cs : list call) :
  (0 < n)%nat -> 2 * Z.of_nat n <= size_max -> Forall call_ok cs ->
  exists st, run (start n) cs = Some st.
Proof.
  intros Hn Hmax. unfold start.
  generalize (make_wf n Hn Hmax) (start_inv n).
  generalize (make n) (mkTally 0 0). induction cs as [| c cs IH];
    intros b k Hwf Hinv Hok.
  - simpl. eauto.
  - inversion Hok as [| ? ? Hc Hcs]; subst. rewrite run_cons.
    destruct (step_total b k c Hwf Hc) as ([b1 k1] & E). rewrite E.
    cbn [bind].
    destruct (step_inv _ _ _ _ _ Hwf Hinv Hc E) as (Hwf1 & Hinv1 & _).
    apply IH; assumption.
Qed.

(** X2.  The half of the cursor invariant that the code keeps: after any
    history of calls the producer is at most one capacity ahead of the
    consumer, and both cursors index the array. *)
Theorem producer_never_laps (n : nat) (cs : list call) (b : t) (k : tally) :
  (0 < n)%nat -> 2 * Z.of_nat n <= size_max -> Forall call_ok cs ->
  run (start n) cs = Some (b, k) ->
  produced k - consumed k <= Z.of_nat n
  /\ 0 <= read_a b < Z.of_nat n /\ 0 <= write_a b < Z.of_nat n.
Proof.
  intros Hn Hmax Hok Hrun.
  destruct (run_inv cs _ _ _ _ (make_wf n Hn Hmax) (start_inv n) Hok Hrun)
    as ([Hs Hr Hw Hf] & (j & Hj & Hinv) & Hsz).
  rewrite make_size in Hsz. rewrite Hsz in *.
  repeat split; try lia.
  unfold lead, occupied in Hinv. rewrite Hsz in Hinv.
  destruct (first b); [nia |].
  destruct (read_a b <? write_a b) eqn:E; to_prop; nia.
Qed.

(** *** A write into the fresh buffer, read back at once *)

Lemma fresh_copy_in (b : t) (src : list Z) (count : Z) :
  wf b -> first b = true -> 0 <= count < size_max -> count <= len src ->
  copy_in b src count
  = Some (mk (firstn (Z.to_nat (Z.min count (size b))) src
              ++ skipn (Z.to_nat (Z.min count (size b))) (samples b))
             (Z.min count (size b) mod size b) (read_a b) false,
          count - Z.min count (size b)).
Proof.
  intros [Hs Hr Hw Hf] Efirst Hc Hsrc. specialize (Hf Efirst).
  unfold copy_in. rewrite Efirst, Hf.
  assert (Hnz : (size b =? 0) = false) by (apply Z.eqb_neq; lia).
  rewrite Hnz. unfold size in *.
  rewrite std_copy_eq by lia. cbn [bind]. unwrap.
  rewrite Z.sub_0_r, !Z.add_0_l. reflexivity.
Qed.

Lemma fresh_write_read (b : t) (src dest : list Z) :
  wf b -> first b = true -> read_a b = 0 ->
  len src <= size b -> len dest = len src ->
  exists b1 b2,
    copy_in b src (len src) = Some (b1, 0)
    /\ copy_out b1 dest (len src) = Some (b2, src, 0)
    /\ write_a b2 = len src mod size b
    /\ read_a b2 = len src mod size b.
Proof.
  intros Hwf Efirst Eread Hsrc Hdest.
  pose proof (len_nonneg src) as Hpos.
  pose proof Hwf as [Hs Hr Hw Hf].
  assert (Hc : 0 <= len src < size_max) by lia.
  rewrite (fresh_copy_in b src (len src) Hwf Efirst Hc) by lia.
  replace (Z.min (len src) (size b)) with (len src) by lia.
  rewrite Z.sub_diag, Eread, firstn_len_all by lia.
  set (s1 := src ++ skipn (Z.to_nat (len src)) (samples b)).
  set (w1 := len src mod size b).
  exists (mk s1 w1 0 false), (mk s1 w1 w1 false).
  split; [reflexivity |]. split; [| split; reflexivity].
  assert (Hsz : size (mk s1 w1 0 false) = size b).
  { unfold size, s1. cbn [samples].
    rewrite len_app, len_skipn; unfold size in *; lia. }
  assert (Hs1 : len s1 = size b) by exact Hsz.
  assert (Hnz : (size b =? 0) = false) by (apply Z.eqb_neq; lia).
  unfold copy_out. rewrite Hsz, Hnz. cbn [samples read_a write_a first].
  assert (Hm : 0 <= len src < 2 * size b) by lia.
  destruct (mod_once_cases (len src) (size b) Hm) as [[Hlt Em] | [Hge Em]];
    fold w1 in Em.
  - destruct (Z.ltb_spec 0 w1) as [Hnon | Hzero].
    + unwrap. replace (Z.min (len src) (w1 - 0)) with (len src) by lia.
      rewrite std_copy_eq by lia. cbn [bind].
      rewrite Z.sub_0_r, !Z.add_0_l. unwrap.
      subst s1. change (Z.to_nat 0) with 0%nat. cbn [firstn skipn app].
      rewrite firstn_len_app, (skipn_len_all dest), app_nil_r by lia.
      rewrite Z.sub_diag, Z.add_0_l. fold w1. reflexivity.
    + assert (E0 : len src = 0) by lia. rewrite E0 in *.
      apply len_zero_nil in E0. apply len_zero_nil in Hdest. subst src dest.
      unwrap. replace (Z.min (size b - 0) 0) with 0 by lia.
      replace w1 with 0 by lia.
      replace (Z.max 0 (Z.min (0 - 0) 0)) with 0 by lia.
      rewrite std_copy_eq by (unfold len; simpl; lia). cbn [bind]. simpl.
      rewrite std_copy_eq by (unfold len; simpl; lia). cbn [bind]. simpl.
      unwrap. rewrite Z.mod_0_l by lia. reflexivity.
  - assert (E : len src = size b) by lia. rewrite E in *.
    replace w1 with 0 by lia. change (0 <? 0) with false. cbv iota. unwrap.
    replace (Z.min (size b - 0) (size b)) with (size b) by lia.
    rewrite Z.sub_diag. replace (Z.max 0 (Z.min 0 0)) with 0 by lia.
    rewrite std_copy_eq by lia. cbn [bind].
    rewrite Z.sub_0_r, !Z.add_0_l.
    change (Z.to_nat 0) with 0%nat. cbn [firstn skipn app].
    rewrite (firstn_len_all s1), (skipn_len_all dest), app_nil_r by lia.
    rewrite std_copy_eq by lia. cbn [bind].
    rewrite Z.sub_0_r, Z.add_0_r.
    change (Z.to_nat 0) with 0%nat. cbn [firstn skipn app].
    rewrite (firstn_len_all s1), (skipn_len_all s1), app_nil_r by lia.
    unwrap. rewrite Z.add_0_l, Z.sub_diag, Z_mod_same_full.
    subst s1. rewrite (skipn_len_all (samples b)), app_nil_r by
      (unfold size in *; lia).
    reflexivity.
Qed.

(** *** Where the samples go *)

Ltac unwrap_goal :=
  repeat match goal with
  | |- context [usub ?a ?b] => rewrite (usub_small a b) by lia
  | |- context [uadd ?a ?b] => rewrite (uadd_small a b) by lia
  end.

Ltac run_copies :=
  repeat first
    [ progress unwrap_goal
    | match goal with
      | |- context [std_copy ?s ?f ?t ?d ?a] =>
          let E := fresh "Ec" in
          let L := fresh "Lc" in
          destruct (std_copy s f t d a) eqn:E; cbn [bind];
          [pose proof (std_copy_len _ _ _ _ _ _ E) as L | discriminate]
      end ].

Ltac read_copies :=
  repeat match goal with
  | E : std_copy _ _ _ _ _ = Some ?d |- context [get ?d ?q] =>
      rewrite (get_std_copy _ _ _ _ _ _ q E) by lia
  end.

Ltac bools :=
  repeat match goal with
  | |- context [?a <=? ?b] => destruct (Z.leb_spec a b); cbn [andb]
  | |- context [?a <? ?b] => destruct (Z.ltb_spec a b); cbn [andb]
  end.

(** After [copy_in], index [p] of the array holds the source sample whose
    offset is the distance from the old write cursor round to [p], when
    that offset is among those stored; any other index is untouched. *)
Lemma copy_in_data (b b' : t) (src : list Z) (count short p : Z) :
  wf b -> 0 <= count < size_max ->
  copy_in b src count = Some (b', short) -> 0 <= p < size b ->
  get (samples b') p
  = if (p - write_a b) mod size b <? Z.min count (space b)
    then get src ((p - write_a b) mod size b)
    else get (samples b) p.
Proof.
  intros [Hs Hr Hw Hf] Hc H Hp. revert H. unfold copy_in, space.
  destruct (Z.eqb_spec (size b) 0) as [| _]; [lia |]. unfold size in *.
  destruct (first b) eqn:Efirst;
    [ specialize (Hf eq_refl)
    | destruct (read_a b >? write_a b) eqn:E1;
      [| destruct (read_a b <? write_a b) eqn:E2] ];
    to_prop; run_copies;
    intros H; injection H as <- <-; cbn [samples]; read_copies;
    destruct (mod_diff_cases p (write_a b) (len (samples b)) Hp Hw)
      as [[Hle Em] | [Hlt Em]];
    rewrite Em; clear Em; bools;
    try lia; try reflexivity; f_equal; lia.
Qed.

(** After [copy_out], index [i] of the caller's array holds the sample
    [i] places round from the old read cursor, for each sample taken; the
    rest of the caller's array is untouched. *)
Lemma copy_out_data (b b' : t) (dest dest' : list Z) (count short i : Z) :
  wf b -> 0 <= count < size_max ->
  copy_out b dest count = Some (b', dest', short) -> 0 <= i ->
  get dest' i
  = if i <? Z.min count (occupied b)
    then get (samples b) ((read_a b + i) mod size b)
    else get dest i.
Proof.
  intros [Hs Hr Hw Hf] Hc H Hi. revert H. unfold copy_out, occupied.
  destruct (Z.eqb_spec (size b) 0) as [| _]; [lia |]. unfold size in *.
  destruct (read_a b <? write_a b) eqn:E1; to_prop; run_copies;
    intros H; injection H as <- <- <-; read_copies; bools;
    try lia; try reflexivity;
    match goal with
    | |- context [(?x + ?y) mod ?c] =>
        let Hm := fresh in
        assert (Hm : 0 <= x + y < 2 * c) by lia;
        destruct (mod_once_cases (x + y) c Hm) as [[? ->] | [? ->]]
    end; try lia; f_equal; lia.
Qed.

(** *** The write path after the first call *)

Lemma offset_of_target (w i c : Z) :
  0 < c -> 0 <= i < c -> ((w + i) mod c - w) mod c = i.
Proof.
  intros Hc Hi. rewrite Zminus_mod_idemp_l.
  replace (w + i - w) with i by lia. apply Z.mod_small. exact Hi.
Qed.

Lemma target_of_offset (w p c : Z) :
  0 <= p < c -> (w + (p - w) mod c) mod c = p.
Proof.
  intros Hp. rewrite Zplus_mod_idemp_r.
  replace (w + (p - w)) with p by lia. apply Z.mod_small. exact Hp.
Qed.

(** C4, as the code has it.  On every call after the first, [copy_in]
    stores [k = min count avail] samples, where [avail] is the gap
    [read - write] when the reader is ahead, the room round the end of the
    array [size - write + read] when the writer is strictly ahead, and
    nothing when the cursors are level (the buffer then counts as full).
    Source sample [i] lands at index [(write + i) mod size], so the copy is
    split at the wrap point; every other index keeps its content; the write
    cursor advances by [k] modulo the size, the read cursor is untouched,
    and the call returns [count - k]. *)
Theorem copy_in_after_first (b : t) (src : list Z) (count : Z) :
  wf b -> first b = false -> 0 <= count < size_max -> count <= len src ->
  let avail :=
    if read_a b >? write_a b then read_a b - write_a b
    else if read_a b <? write_a b then size b - write_a b + read_a b
    else 0 in
  let k := Z.min count avail in
  exists b',
    copy_in b src count = Some (b', count - k)
    /\ write_a b' = (write_a b + k) mod size b
    /\ read_a b' = read_a b
    /\ size b' = size b
    /\ (forall i, 0 <= i < k ->
          get (samples b') ((write_a b + i) mod size b) = get src i)
    /\ (forall p, 0 <= p < size b ->
          (forall i, 0 <= i < k -> p <> (write_a b + i) mod size b) ->
          get (samples b') p = get (samples b) p).
Proof.
  intros Hwf Efirst Hc Hsrc avail k.
  assert (Eavail : space b = avail).
  { unfold space. rewrite Efirst. reflexivity. }
  destruct (copy_in_total b src count Hwf Hc Hsrc) as (b' & short & E).
  destruct (copy_in_cursors _ _ _ _ _ Hwf Hc E) as (-> & Hw' & Hr' & _ & Hs').
  rewrite Eavail in *. fold k in Hw'. fold k in E.
  pose proof Hwf as [Hs Hr Hw Hf].
  assert (Hk : k <= size b).
  { subst k avail. destruct (read_a b >? write_a b) eqn:E1;
      [| destruct (read_a b <? write_a b) eqn:E2]; to_prop; lia. }
  exists b'. repeat split; try assumption.
  - intros i Hi.
    assert (Hp : 0 <= (write_a b + i) mod size b < size b)
      by (apply Z.mod_pos_bound; lia).
    rewrite (copy_in_data _ _ _ _ _ _ Hwf Hc E Hp), Eavail.
    rewrite offset_of_target by lia. fold k.
    destruct (Z.ltb_spec i k); [reflexivity | lia].
  - intros p Hp Hfree.
    rewrite (copy_in_data _ _ _ _ _ _ Hwf Hc E Hp), Eavail. fold k.
    destruct (Z.ltb_spec ((p - write_a b) mod size b) k) as [Hlt | Hge];
      [| reflexivity].
    exfalso. apply (Hfree ((p - write_a b) mod size b)).
    + split; [| exact Hlt]. apply Z.mod_pos_bound. lia.
    + symmetry. apply target_of_offset. exact Hp.
Qed.

Lemma copy_in_after_first_witness :
  exists b',
    copy_in (mk [1; 2; 3; 4] 3 1 false) [7; 8; 9] 3 = Some (b', 1)
    /\ samples b' = [8; 2; 3; 7].
Proof.
  assert (Hwf : wf (mk [1; 2; 3; 4] 3 1 false)).
  { constructor; unfold size, len, size_max; cbn; try lia; discriminate. }
  destruct (copy_in_after_first (mk [1; 2; 3; 4] 3 1 false) [7; 8; 9] 3 Hwf
              eq_refl) as (b' & E & _).
  - unfold size_max. lia.
  - unfold len. simpl. lia.
  - exists b'. split; [exact E |].
    vm_compute in E. injection E as <-. reflexivity.
Defined.

(** C4 as stated fails: with the cursors level on a call after the first,
    the specification's space is the whole array, but the code stores
    nothing and returns the whole count. *)
Lemma copy_in_level_cursors_store_nothing :
  ~ (forall (b b' : t) (src : list Z) (count short : Z),
       wf b -> first b = false -> 0 <= count < size_max -> count <= len src ->
       copy_in b src count = Some (b', short) ->
       short = count - Z.min count (space_as_specified b)).
Proof.
  intros Hclaim.
  assert (Hwf : wf (mk [1; 2; 3; 4] 0 0 false)).
  { constructor; unfold size, len, size_max; cbn; try lia; discriminate. }
  specialize (Hclaim (mk [1; 2; 3; 4] 0 0 false) (mk [1; 2; 3; 4] 0 0 false)
                [9] 1 1 Hwf eq_refl).
  vm_compute in Hclaim.
  assert (H : 1 = 0); [| discriminate H].
  apply Hclaim; try reflexivity. split; [discriminate | reflexivity].
  discriminate.
Qed.

(** *** The fresh buffer *)

(** The round trip on a fresh buffer.  On a buffer in its initial state
    (first write pending, read cursor at the origin), a write of [L <= size] samples followed at once by a
    read of [L] samples hands back exactly the written samples in order,
    and both calls return shortfall 0. *)
Theorem write_then_read_roundtrip (b : t) (src dest : list Z) :
  wf b -> first b = true -> read_a b = 0 ->
  len src <= size b -> len dest = len src ->
  exists b1 b2,
    copy_in b src (len src) = Some (b1, 0)
    /\ copy_out b1 dest (len src) = Some (b2, src, 0).
Proof.
  intros Hwf Efirst Eread Hsrc Hdest.
  destruct (fresh_write_read b src dest Hwf Efirst Eread Hsrc Hdest)
    as (b1 & b2 & H1 & H2 & _).
  exists b1, b2. split; assumption.
Qed.

Lemma write_then_read_roundtrip_witness :
  exists b1 b2,
    copy_in (make 4) [5; 6; 7] 3 = Some (b1, 0)
    /\ copy_out b1 [0; 0; 0] 3 = Some (b2, [5; 6; 7], 0).
Proof.
  apply (write_then_read_roundtrip (make 4) [5; 6; 7] [0; 0; 0]).
  - apply make_wf; unfold size_max; lia.
  - reflexivity.
  - reflexivity.
  - vm_compute. discriminate.
  - reflexivity.
Defined.

(** C5, evaluated on the code.  On a buffer of capacity 4 that has been
    written to and then drained (3 samples in, the same 3 out), the
    cursors are level and the buffer is empty; a write of 2 samples is
    then refused whole (shortfall 2, nothing stored) and the read of 2
    samples that follows hands back the stale samples [0; 5] with
    shortfall 0, because level cursors are taken as a full buffer by both
    calls. *)
Theorem roundtrip_fails_after_a_drain :
  exists b1 b2 b3 b4,
    copy_in (make 4) [5; 6; 7] 3 = Some (b1, 0)
    /\ copy_out b1 [0; 0; 0] 3 = Some (b2, [5; 6; 7], 0)
    /\ write_a b2 = 3 /\ read_a b2 = 3
    /\ copy_in b2 [1; 2] 2 = Some (b3, 2)
    /\ samples b3 = samples b2
    /\ copy_out b3 [0; 0] 2 = Some (b4, [0; 5], 0).
Proof.
  do 4 eexists. repeat split; vm_compute; reflexivity.
Qed.

(** C3, evaluated on the code.  On a fresh buffer of capacity 2048,
    writing 1024 samples returns shortfall 0 and reading 1024 samples
    returns exactly those samples with shortfall 0; both cursors then stand
    at 1024, so [has_space] answers [false] although the buffer has just
    been emptied. *)
Theorem has_space_false_after_drain (scratch dest : list Z) :
  len scratch = 1024 -> len dest = 1024 ->
  exists b1 b2,
    copy_in (make 2048) scratch 1024 = Some (b1, 0)
    /\ copy_out b1 dest 1024 = Some (b2, scratch, 0)
    /\ write_a b2 = 1024 /\ read_a b2 = 1024
    /\ has_space b2 = false.
Proof.
  intros Hs Hd.
  assert (Hwf : wf (make 2048)) by (apply make_wf; unfold size_max; lia).
  destruct (fresh_write_read (make 2048) scratch dest Hwf eq_refl eq_refl)
    as (b1 & b2 & H1 & H2 & Hw & Hr).
  - rewrite make_size. lia.
  - lia.
  - rewrite make_size, Hs in *. change (1024 mod Z.of_nat 2048) with 1024 in *.
    exists b1, b2. repeat split; try assumption.
    unfold has_space. rewrite Hw, Hr. reflexivity.
Qed.

Lemma has_space_false_after_drain_witness :
  exists b1 b2,
    copy_in (make 2048) (repeat 7 1024) 1024 = Some (b1, 0)
    /\ copy_out b1 (repeat 0 1024) 1024 = Some (b2, repeat 7 1024, 0)
    /\ write_a b2 = 1024 /\ read_a b2 = 1024
    /\ has_space b2 = false.
Proof.
  apply (has_space_false_after_drain (repeat 7 1024) (repeat 0 1024));
    unfold len; rewrite repeat_length; reflexivity.
Defined.

(** C9, as the code has it.  On the first call to [copy_in] with a count
    above the capacity,
    the copy is cut to exactly [size] samples: the call is defined (every
    store is inside the array), the array then holds the first [size]
    source samples from offset 0, the returned shortfall is
    [count - size], the write cursor is back at the origin and the read
    cursor untouched.  When the consumer has not yet run, the buffer is
    then exactly full: reading [size] samples returns the stored ones in
    order, and a further write stores nothing. *)
Theorem first_write_truncates (b : t) (src : list Z) (count : Z) :
  wf b -> first b = true ->
  size b < count -> count < size_max -> count <= len src ->
  exists b',
    copy_in b src count = Some (b', count - size b)
    /\ samples b' = firstn (Z.to_nat (size b)) src
    /\ (forall p, 0 <= p < size b -> get (samples b') p = get src p)
    /\ size b' = size b
    /\ write_a b' = 0 /\ read_a b' = read_a b /\ first b' = false
    /\ (read_a b = 0 ->
        (forall dest, len dest = size b ->
           exists b2, copy_out b' dest (size b)
                      = Some (b2, firstn (Z.to_nat (size b)) src, 0))
        /\ forall more n, 0 <= n < size_max -> n <= len more ->
             copy_in b' more n = Some (b', n)).
Proof.
  intros Hwf Efirst Hgt Hmax Hsrc.
  pose proof Hwf as [Hs Hr Hw Hf].
  assert (Hc : 0 <= count < size_max) by lia.
  rewrite (fresh_copy_in b src count Hwf Efirst Hc Hsrc).
  replace (Z.min count (size b)) with (size b) by lia.
  rewrite Z_mod_same_full.
  rewrite (skipn_len_all (samples b)), app_nil_r by (unfold size; lia).
  eexists. split; [reflexivity |]. cbn [samples write_a read_a first].
  assert (Hlen : len (firstn (Z.to_nat (size b)) src) = size b)
    by (apply len_firstn; lia).
  repeat split.
  - intros p Hp. unfold get. rewrite nth_firstn.
    destruct (Nat.ltb_spec (Z.to_nat p) (Z.to_nat (size b))); [reflexivity | lia].
  - exact Hlen.
  - intros dest Hdest.
    set (src' := firstn (Z.to_nat (size b)) src) in *.
    destruct (fresh_write_read b src' dest Hwf Efirst H) as (b1 & b2 & H1 & H2 & _);
      try lia.
    rewrite Hlen in *.
    rewrite (fresh_copy_in b src' (size b) Hwf Efirst) in H1 by lia.
    replace (Z.min (size b) (size b)) with (size b) in H1 by lia.
    rewrite Z_mod_same_full, (firstn_len_all src'),
      (skipn_len_all (samples b)), app_nil_r in H1 by (unfold size in *; lia).
    injection H1 as <-. exists b2. exact H2.
  - intros more n Hn Hmore. unfold copy_in. cbn [samples write_a read_a first].
    rewrite H. change (0 >? 0) with false. change (0 <? 0) with false.
    cbn [bind].
    assert (Hsz : forall w r f,
               size (mk (firstn (Z.to_nat (size b)) src) w r f) = size b)
      by (intros; exact Hlen).
    rewrite !Hsz.
    destruct (Z.eqb_spec (size b) 0) as [| _]; [lia |].
    rewrite uadd_small, usub_small by lia.
    rewrite Z.add_0_r, Z.sub_0_r, Z.mod_0_l by lia.
    reflexivity.
Qed.

Lemma first_write_truncates_witness :
  exists b',
    copy_in (make 4) [1; 2; 3; 4; 5; 6] 6 = Some (b', 2)
    /\ samples b' = [1; 2; 3; 4] /\ write_a b' = 0.
Proof.
  destruct (first_write_truncates (make 4) [1; 2; 3; 4; 5; 6] 6)
    as (b' & E & Hs & _ & _ & Hw & _).
  - apply make_wf; unfold size_max; lia.
  - reflexivity.
  - vm_compute. reflexivity.
  - unfold size_max. lia.
  - vm_compute. discriminate.
  - exists b'. repeat split; assumption.
Defined.

(** C9 as stated fails when the consumer has run before the first write:
    the first call does not look at the read cursor, so the truncated copy
    runs over it.  After a read of 2 places from the fresh buffer of 4 and
    a first write of 6 samples, the read cursor stands in the middle of the
    4 stored samples, and the next read returns the last two of them and
    comes back short. *)
Lemma first_write_overruns_the_reader :
  exists b1 b2 b3,
    copy_out (make 4) [0; 0] 2 = Some (b1, [0; 0], 0)
    /\ copy_in b1 [1; 2; 3; 4; 5; 6] 6 = Some (b2, 2)
    /\ samples b2 = [1; 2; 3; 4] /\ write_a b2 = 0 /\ read_a b2 = 2
    /\ copy_out b2 [0; 0; 0; 0] 4 = Some (b3, [3; 4; 0; 0], 2).
Proof.
  do 3 eexists. repeat split; vm_compute; reflexivity.
Qed.

(** C1, evaluated on the code with block size 1024 and capacity 2048.  The
    consumer overtakes the producer in two ways: a read before anything was
    written takes 1024 samples from the empty buffer, and a read after the
    buffer was drained takes 1024 stale samples, because level cursors are
    read as a full buffer. *)
Theorem consumer_overtakes_producer :
  (exists b k,
     run (start 2048) [CopyOut (repeat 0 1024) 1024] = Some (b, k)
     /\ produced k = 0 /\ consumed k = 1024
     /\ write_a b = 0 /\ read_a b = 1024)
  /\ (exists b k,
        run (start 2048)
          [CopyIn (repeat 7 1024) 1024;
           CopyOut (repeat 0 1024) 1024;
           CopyOut (repeat 0 1024) 1024] = Some (b, k)
        /\ produced k = 1024 /\ consumed k = 2048
        /\ write_a b = 1024 /\ read_a b = 0).
Proof.
  split; eexists; eexists; (split; [vm_compute; reflexivity |]);
    repeat split; reflexivity.
Qed.

End CircularBufferFacts.

(** ** Sequencer *)

Module SequencerFacts.
Import Sequencer.

Lemma lengths_at (c : Z) :
  beat_length (at_counter c) = Some 4793
  /\ pattern_length (at_counter c) = Some 38344.
Proof. split; reflexivity. Qed.

Lemma note_at (k : Z) :
  0 <= k < 8 -> exists note, nth_error default_pattern (Z.to_nat k) = Some note.
Proof.
  intros Hk.
  assert (Hn : (Z.to_nat k < 8)%nat) by lia.
  destruct (nth_error default_pattern (Z.to_nat k)) as [note |] eqn:E.
  - exists note. reflexivity.
  - apply nth_error_None in E. simpl in E. lia.
Qed.

Lemma tick_at (c count : Z) :
  0 <= c < 38344 -> 0 <= count -> c + count < size_max ->
  exists note,
    nth_error default_pattern (Z.to_nat (c / 4793)) = Some note
    /\ tick (at_counter c) count
       = Some (note, at_counter ((c + count) mod 38344)).
Proof.
  intros Hc Hcount Hmax.
  assert (Hk : 0 <= c / 4793 < 8).
  { split; [apply Z.div_pos; lia | apply Z.div_lt_upper_bound; lia]. }
  destruct (note_at _ Hk) as (note & Hnote).
  exists note. split; [exact Hnote |].
  unfold tick. destruct (lengths_at c) as [-> ->]. cbn [bind].
  change (4793 =? 0) with false. change (38344 =? 0) with false. cbv iota.
  cbn [sample pattern at_counter init].
  rewrite Hnote. cbn [bind]. rewrite uadd_small by lia. reflexivity.
Qed.

Lemma ticks_at (counts : list Z) : forall c,
  0 <= c < 38344 -> Forall (fun n => 0 <= n) counts ->
  38344 + sum counts < size_max ->
  exists notes,
    ticks (at_counter c) counts
    = Some (notes, at_counter ((c + sum counts) mod 38344))
    /\ length notes = length counts.
Proof.
  induction counts as [| n counts IH]; intros c Hc Hpos Hmax.
  - exists []. cbn [ticks sum fold_right].
    rewrite Z.add_0_r, Z.mod_small by lia. auto.
  - inversion Hpos as [| ? ? Hn Hrest]; subst.
    assert (Hs : 0 <= sum counts).
    { clear -Hrest. induction Hrest; [reflexivity |].
      change (sum (x :: l)) with (x + sum l). lia. }
    change (sum (n :: counts)) with (n + sum counts) in *.
    destruct (tick_at c n Hc Hn) as (note & _ & Htick); [lia |].
    assert (Hc1 : 0 <= (c + n) mod 38344 < 38344)
      by (apply Z.mod_pos_bound; lia).
    destruct (IH _ Hc1 Hrest) as (notes & Hticks & Hlen); [lia |].
    exists (note :: notes). cbn [ticks]. rewrite Htick. cbn [bind].
    rewrite Hticks. cbn [bind]. split; [| simpl; congruence].
    rewrite Zplus_mod_idemp_l, Z.add_assoc. reflexivity.
Qed.

(** C2, as the code computes it.  With 44100 samples per second and 552
    beats per minute the beat is 60 * 44100 / 552 = 4793 samples in integer
    arithmetic and the pattern 38344 samples.  [tick] at counter 0 returns
    440 and at counter 4800 returns 0; from any counter, blocks adding up
    to one pattern length bring the sequencer back to the very same state,
    so it then repeats the same notes. *)
Theorem sequencer_period (c : Z) (counts : list Z) :
  0 <= c < 38344 -> Forall (fun n => 0 <= n) counts -> sum counts = 38344 ->
  beat_length init = Some 4793
  /\ pattern_length init = Some 38344
  /\ (exists s, tick (at_counter 0) 0 = Some (F32.of_Z 440, s))
  /\ (exists s, tick (at_counter 4800) 0 = Some (F32.of_Z 0, s))
  /\ (exists notes,
        ticks (at_counter c) counts = Some (notes, at_counter c)
        /\ length notes = length counts)
  /\ (exists note, tick (at_counter c) 38344 = Some (note, at_counter c)).
Proof.
  intros Hc Hpos Hsum.
  repeat split; try (eexists; reflexivity).
  - destruct (ticks_at counts c Hc Hpos) as (notes & Hticks & Hlen).
    + rewrite Hsum. unfold size_max. lia.
    + exists notes. split; [| exact Hlen]. rewrite Hticks, Hsum.
      replace ((c + 38344) mod 38344) with c; [reflexivity |].
      rewrite <- (Z.mul_1_l 38344) at 1. rewrite Z_mod_plus_full.
      symmetry. apply Z.mod_small. exact Hc.
  - destruct (tick_at c 38344 Hc) as (note & _ & Htick);
      [lia | unfold size_max; lia |].
    exists note. rewrite Htick.
    replace ((c + 38344) mod 38344) with c; [reflexivity |].
    rewrite <- (Z.mul_1_l 38344) at 1. rewrite Z_mod_plus_full.
    symmetry. apply Z.mod_small. exact Hc.
Qed.

Lemma sequencer_period_witness :
  exists notes,
    ticks (at_counter 7) [1024; 37320] = Some (notes, at_counter 7)
    /\ length notes = 2%nat.
Proof.
  destruct (sequencer_period 7 [1024; 37320]) as (_ & _ & _ & _ & H & _).
  - lia.
  - repeat constructor; lia.
  - reflexivity.
  - exact H.
Defined.

(** C2 as stated fails: the beat is not 4800 samples and the pattern not
    38400, and advancing 38400 samples from counter 0 leaves the counter at
    56. *)
Lemma sequencer_beat_is_not_4800 :
  ~ (beat_length init = Some 4800
     /\ pattern_length init = Some 38400
     /\ exists note, tick init 38400 = Some (note, init)).
Proof. intros (H & _). discriminate H. Qed.

Lemma sequencer_38400_is_no_period :
  exists note s, tick init 38400 = Some (note, s) /\ sample s = 56.
Proof. eexists. eexists. split; reflexivity. Qed.

End SequencerFacts.

(** ** SawTooth on a silent step *)

Module SawToothFacts.
Import SawTooth.

Lemma truthy_false_zero (note : spec_float) :
  truthy note = false -> exists sg, note = S754_zero sg.
Proof.
  unfold truthy, SFeqb, fzero. destruct note as [sg | sg | | sg m e]; simpl.
  - eauto.
  - destruct sg; discriminate.
  - discriminate.
  - destruct sg; discriminate.
Qed.

(** Adding the zero increment leaves a value as it is, the negative zero
    apart, which becomes the positive zero. *)
Lemma spec_float_eq_dec_neg_zero (x : spec_float) :
  {x = S754_zero true} + {x <> S754_zero true}.
Proof.
  destruct x as [[|] | sg | | sg m e];
    first [left; reflexivity | right; discriminate].
Qed.

Lemma add_fzero (x : spec_float) :
  x <> S754_zero true -> F32.add x fzero = x.
Proof.
  intros Hx. destruct x as [[|] | sg | | sg m e]; try reflexivity.
  contradiction Hx. reflexivity.
Qed.

Lemma wrap_phase_below (x : spec_float) :
  flt (F64.of_Z 1) (F64.of_float x) = false -> wrap_phase x = x.
Proof. intros H. unfold wrap_phase. rewrite H. reflexivity. Qed.

Lemma store_some (data : list Z) (i v : Z) :
  0 <= i < len data ->
  store data i v
  = Some (firstn (Z.to_nat i) data ++ [v] ++ skipn (Z.to_nat (i + 1)) data).
Proof.
  intros Hi. unfold store. rewrite blit_some; [reflexivity | lia |].
  change (len [v]) with 1. lia.
Qed.

Lemma store_prefix (pre rest : list Z) (old v : Z) :
  store (pre ++ old :: rest) (len pre) v = Some ((pre ++ [v]) ++ rest).
Proof.
  rewrite store_some.
  - rewrite firstn_len_app. f_equal. rewrite <- app_assoc. f_equal.
    simpl. f_equal.
    replace (Z.to_nat (len pre + 1)) with (length pre + 1)%nat
      by (unfold len; lia).
    rewrite skipn_app, skipn_all2 by lia.
    replace (length pre + 1 - length pre)%nat with 1%nat by lia.
    reflexivity.
  - unfold len. rewrite length_app. simpl length. lia.
Qed.

(** With a zero increment and a value that the wrap test leaves alone, the
    loop writes the same sample [n] times and hands the value back. *)
Lemma fill_hold (volume value : spec_float) (v : Z) (n : nat) :
  forall (pre rest : list Z),
    value <> S754_zero true ->
    flt (F64.of_Z 1) (F64.of_float value) = false ->
    sample_of value volume = Some v ->
    (n <= length rest)%nat ->
    fill volume fzero n (len pre) value (pre ++ rest)
    = Some (value, pre ++ repeat v n ++ skipn n rest).
Proof.
  induction n as [| n IH]; intros pre rest Hnz Hle Hv Hn.
  - reflexivity.
  - destruct rest as [| old rest]; [simpl in Hn; lia |].
    cbn [fill]. rewrite Hv. cbn [bind]. rewrite store_prefix. cbn [bind].
    rewrite add_fzero, wrap_phase_below by assumption.
    replace (len pre + 1) with (len (pre ++ [v]))
      by (rewrite len_app; reflexivity).
    rewrite IH; try assumption; [| simpl in Hn; lia].
    rewrite <- app_assoc. reflexivity.
Qed.

(** The negative zero gives sample 0 and is replaced by the positive zero
    after the first iteration. *)
Lemma fill_hold_negative_zero (volume : spec_float) (n : nat)
    (rest : list Z) :
  sample_of (S754_zero true) volume = Some 0 ->
  sample_of (S754_zero false) volume = Some 0 ->
  (S n <= length rest)%nat ->
  fill volume fzero (S n) 0 (S754_zero true) rest
  = Some (S754_zero false, repeat 0 (S n) ++ skipn (S n) rest).
Proof.
  intros Hneg Hpos Hn. destruct rest as [| old rest]; [simpl in Hn; lia |].
  cbn [fill]. rewrite Hneg. cbn [bind].
  change (store (old :: rest) 0 0)
    with (store ([] ++ old :: rest) (len (@nil Z)) 0).
  rewrite store_prefix. cbn [bind app].
  change (wrap_phase (F32.add (S754_zero true) fzero)) with (S754_zero false).
  change (0 + 1) with (len [0]).
  change (0 :: rest) with ([0] ++ rest).
  rewrite (fill_hold volume (S754_zero false) 0 n [0] rest);
    try assumption; try reflexivity; try discriminate.
  simpl in Hn. lia.
Qed.

Lemma sample_of_zero_sign (volume : spec_float) (v : Z) :
  sample_of (S754_zero true) volume = Some v ->
  v = 0 /\ sample_of (S754_zero false) volume = Some 0.
Proof.
  unfold sample_of. destruct volume as [sg | sg | | sg m e];
    cbn; intros H; try discriminate; injection H as <-; auto.
Qed.

(** A silent block: every position receives the sample of the held
    value. *)
Lemma hold_block (s : t) (note : spec_float)
    (data : list Z) (count v : Z) :
  truthy note = false ->
  flt (F64.of_Z 1) (F64.of_float (last s)) = false ->
  sample_of (last s) (volume s) = Some v ->
  0 <= count <= len data ->
  exists s',
    tick s note data count
    = Some (s', repeat v (Z.to_nat count) ++ skipn (Z.to_nat count) data)
    /\ (last s' = last s
        \/ last s = S754_zero true /\ last s' = S754_zero false).
Proof.
  intros Hnote Hle Hv Hcount. unfold tick. rewrite Hnote.
  assert (Hn : (Z.to_nat count <= length data)%nat) by (unfold len in *; lia).
  destruct (spec_float_eq_dec_neg_zero (last s)) as [Hz | Hnz].
  - destruct (Z.to_nat count) as [| n] eqn:En.
    + cbn [fill bind]. eexists. split; [reflexivity |]. left. reflexivity.
    + rewrite Hz in *. destruct (sample_of_zero_sign _ _ Hv) as [-> Hpos].
      rewrite (fill_hold_negative_zero (volume s) n data Hv Hpos Hn).
      cbn [bind]. eexists. split; [reflexivity |]. right. auto.
  - pose proof (fill_hold (volume s) (last s) v (Z.to_nat count) [] data
                  Hnz Hle Hv Hn) as Hfill.
    cbn [app] in Hfill. change (len (@nil Z)) with 0 in Hfill.
    rewrite Hfill. cbn [bind]. eexists. split; [reflexivity |]. left. reflexivity.
Qed.

(** C6, as the code has it.  With [note == 0], from a state whose held
    value is not above 1
    (the wrap test then leaves it alone) and converts to the 16-bit sample
    [v = last * volume * SHRT_MAX], [tick] writes [v] into all [count]
    positions of the block and leaves [last] as it was (a negative zero
    comes back as the positive zero); nothing decays. *)
Theorem tick_holds_on_silence (s : t) (note : spec_float)
    (data : list Z) (count v : Z) :
  truthy note = false ->
  flt (F64.of_Z 1) (F64.of_float (last s)) = false ->
  sample_of (last s) (volume s) = Some v ->
  0 <= count <= len data ->
  exists s',
    tick s note data count
    = Some (s', repeat v (Z.to_nat count) ++ skipn (Z.to_nat count) data)
    /\ (last s' = last s
        \/ last s = S754_zero true /\ last s' = S754_zero false).
Proof. apply hold_block. Qed.

Lemma tick_holds_on_silence_witness :
  exists s',
    tick (mk (F32.of_Z 1) (F32.of_Z 1) (F32.of_double (F64.literal 25 2))
             (F32.of_double (F64.literal 5 1)))
         fzero [0; 0; 0; 0; 9] 4
    = Some (s', [4095; 4095; 4095; 4095; 9]).
Proof.
  destruct (tick_holds_on_silence
              (mk (F32.of_Z 1) (F32.of_Z 1) (F32.of_double (F64.literal 25 2))
                  (F32.of_double (F64.literal 5 1)))
              fzero [0; 0; 0; 0; 9] 4 4095) as (s' & E & _).
  - reflexivity.
  - reflexivity.
  - reflexivity.
  - unfold len. simpl. lia.
  - exists s'. exact E.
Defined.

(** C6 as stated fails for a held value above 1: the wrap test of the loop
    runs although the increment is zero.  From the value 1.5 the block is
    not constant and the value handed back is -0.5. *)
Lemma hold_breaks_above_one :
  exists s',
    tick (mk (F32.of_Z 1) (F32.of_Z 1) (F32.of_double (F64.literal 25 2))
             (F32.of_double (F64.literal 15 1)))
         fzero [0; 0; 0] 3
    = Some (s', [12287; -4095; -4095])
    /\ last s' = F32.of_double (F64.literal (-5) 1)
    /\ last s' <> F32.of_double (F64.literal 15 1).
Proof.
  eexists. split; [vm_compute; reflexivity |].
  split; [vm_compute; reflexivity | vm_compute; discriminate].
Qed.

(** C10.  Whenever [tick] returns, the smoothed tuning it leaves is the
    old one when [note == 0], and one multiplicative step towards the
    target, clamped to [0.1, 1000], when the note is not zero; the target
    and the volume are never written. *)
Theorem tuning_glide_pauses_on_silence (s s' : t) (note : spec_float)
    (data data' : list Z) (count : Z) :
  tick s note data count = Some (s', data') ->
  tuning s'
  = (if truthy note
     then clamp (F32.mul (tuning s) (tuning_v s))
                (F32.div (F32.of_Z 1) (F32.of_Z 10)) (F32.of_Z 1000)
     else tuning s)
  /\ tuning_v s' = tuning_v s
  /\ volume s' = volume s.
Proof.
  unfold tick. destruct (truthy note);
    match goal with
    | |- context [fill ?v ?d ?n ?i ?x ?l] =>
        destruct (fill v d n i x l) as [[value' out] |]
    end; cbn [bind]; intros H; try discriminate H;
    injection H as <- <-; auto.
Qed.

Lemma tuning_glide_pauses_on_silence_witness :
  exists s' data',
    tick (set_tuning init 1) fzero [0; 0; 0; 0] 4 = Some (s', data')
    /\ tuning s' = tuning init.
Proof.
  destruct (tick (set_tuning init 1) fzero [0; 0; 0; 0] 4)
    as [[s' data'] |] eqn:E; [| vm_compute in E; discriminate E].
  exists s', data'. split; [reflexivity |].
  apply (tuning_glide_pauses_on_silence _ _ _ _ _ _ E).
Defined.

(** On a sounding step the same state does glide: with the target at
    1.01 the smoothed tuning moves from 1 to 1.01. *)
Lemma tuning_glides_on_a_note :
  exists s' data',
    tick (set_tuning init 1) (F32.of_Z 440) [0; 0; 0; 0] 4 = Some (s', data')
    /\ tuning s' = F32.mul (F32.of_Z 1) (tuning_v (set_tuning init 1))
    /\ tuning s' <> tuning init.
Proof.
  eexists. eexists. split; [vm_compute; reflexivity |].
  split; [reflexivity | discriminate].
Qed.

End SawToothFacts.

(** * Floating point: rounding is monotone *)

Lemma bpow_pos (e : Z) : (0 < bpow e)%R.
Proof. apply powerRZ_lt. lra. Qed.

Lemma bpow_add (a b : Z) : bpow (a + b) = (bpow a * bpow b)%R.
Proof. apply powerRZ_add. lra. Qed.

Lemma bpow_0 : bpow 0 = 1%R.
Proof. reflexivity. Qed.

Lemma bpow_1 : bpow 1 = 2%R.
Proof. unfold bpow. simpl. lra. Qed.

Lemma bpow_opp (a : Z) : bpow (- a) = (/ bpow a)%R.
Proof. apply powerRZ_neg'. Qed.

Lemma bpow_IZR (k : Z) : 0 <= k -> bpow k = IZR (2 ^ k).
Proof.
  intros Hk. unfold bpow. destruct k as [| p | p]; [reflexivity | | lia].
  rewrite <- Zpower_pos_powerRZ. reflexivity.
Qed.

Lemma bpow_ge_1 (k : Z) : 0 <= k -> (1 <= bpow k)%R.
Proof.
  intros Hk. rewrite bpow_IZR by exact Hk. apply IZR_le.
  pose proof (Z.pow_pos_nonneg 2 k). lia.
Qed.

Lemma bpow_le (a b : Z) : a <= b -> (bpow a <= bpow b)%R.
Proof.
  intros H. replace b with (a + (b - a)) by lia. rewrite bpow_add.
  pose proof (bpow_pos a). pose proof (bpow_ge_1 (b - a) ltac:(lia)). nra.
Qed.

Lemma bpow_lt (a b : Z) : a < b -> (bpow a < bpow b)%R.
Proof.
  intros H. replace b with (a + 1 + (b - a - 1)) by lia.
  rewrite !bpow_add, bpow_1.
  pose proof (bpow_pos a). pose proof (bpow_ge_1 (b - a - 1) ltac:(lia)). nra.
Qed.

Lemma bpow_lt_inv (a b : Z) : (bpow a < bpow b)%R -> a < b.
Proof.
  intros H. destruct (Z_lt_le_dec a b) as [Hlt | Hge]; [exact Hlt |].
  apply bpow_le in Hge. lra.
Qed.

Lemma bpow_le_inv (a b : Z) : (bpow a <= bpow b)%R -> a <= b.
Proof.
  intros H. destruct (Z_le_gt_dec a b) as [Hle | Hgt]; [exact Hle |].
  assert (b < a) by lia. apply bpow_lt in H0. lra.
Qed.

Lemma F2R_shift (m e k : Z) : 0 <= k -> F2R (m * 2 ^ k) e = F2R m (e + k).
Proof.
  intros Hk. unfold F2R. rewrite mult_IZR, <- bpow_IZR, bpow_add by exact Hk.
  ring.
Qed.

Lemma digits2_pos_bounds (p : positive) :
  2 ^ (Zpos (digits2_pos p) - 1) <= Zpos p < 2 ^ Zpos (digits2_pos p).
Proof.
  induction p as [p IH | p IH |]; cbn [digits2_pos].
  - rewrite Pos2Z.inj_succ.
    replace (Z.succ (Z.pos (digits2_pos p)) - 1) with (Z.pos (digits2_pos p) - 1 + 1) by lia.
    destruct (Pos.eq_dec (digits2_pos p) 1) as [E | E].
    + rewrite E in *. simpl in *. lia.
    + rewrite Z.pow_add_r, Z.pow_succ_r by lia. lia.
  - rewrite Pos2Z.inj_succ.
    replace (Z.succ (Z.pos (digits2_pos p)) - 1) with (Z.pos (digits2_pos p) - 1 + 1) by lia.
    rewrite Z.pow_add_r, Z.pow_succ_r by lia. lia.
  - simpl. lia.
Qed.

Lemma loc_of_record_of_loc (m : Z) (l : location) :
  loc_of_shr_record (shr_record_of_loc m l) = l.
Proof. destruct l as [| []]; reflexivity. Qed.

Lemma shr_m_record_of_loc (m : Z) (l : location) :
  shr_m (shr_record_of_loc m l) = m.
Proof. destruct l as [| []]; reflexivity. Qed.

Lemma loc_exact_iff (mrs : shr_record) :
  loc_of_shr_record mrs = loc_Exact <-> shr_r mrs = false /\ shr_s mrs = false.
Proof.
  destruct mrs as [m [|] [|]]; simpl; split; intros H;
    try discriminate; try (destruct H; discriminate); auto.
Qed.

Lemma shr_1_spec (mrs : shr_record) :
  0 <= shr_m mrs ->
  shr_m (shr_1 mrs) = shr_m mrs / 2
  /\ shr_r (shr_1 mrs) = Z.odd (shr_m mrs)
  /\ shr_s (shr_1 mrs) = shr_r mrs || shr_s mrs.
Proof.
  destruct mrs as [m r s]. simpl. intros Hm.
  destruct m as [| [p | p |] | p]; try lia; simpl; repeat split;
    try reflexivity.
  - rewrite Pos2Z.inj_xI. apply Z.div_unique with (r := 1); lia.
  - rewrite Pos2Z.inj_xO. apply Z.div_unique with (r := 0); lia.
Qed.

Lemma shr_1_inbetween (mrs : shr_record) (e : Z) (v : R) :
  0 <= shr_m mrs ->
  inbetween (shr_m mrs) e (loc_of_shr_record mrs) v ->
  inbetween (shr_m (shr_1 mrs)) (e + 1) (loc_of_shr_record (shr_1 mrs)) v.
Proof.
  intros Hm [[Hlo Hhi] Hex].
  destruct (shr_1_spec mrs Hm) as (Em & Er & Es).
  set (m := shr_m mrs) in *. set (q := m / 2) in *.
  assert (Hq : IZR m = (2 * IZR q + (if Z.odd m then 1 else 0))%R).
  { assert (Hz : m = 2 * q + (if Z.odd m then 1 else 0)).
    { subst q. rewrite (Z.div_mod m 2) at 1 by lia.
      rewrite Zmod_odd. reflexivity. }
    rewrite Hz at 1. rewrite plus_IZR, mult_IZR.
    destruct (Z.odd m); reflexivity. }
  unfold inbetween, F2R in *. rewrite Em, bpow_add, bpow_1.
  pose proof (bpow_pos e) as Hb.
  rewrite plus_IZR in *. rewrite loc_exact_iff, Er, Es.
  rewrite loc_exact_iff in Hex.
  destruct (Z.odd m) eqn:Eodd.
  - split; [split; nra |]. split.
    + intros [Hodd _]. discriminate Hodd.
    + intros Hv. exfalso. nra.
  - split; [split; nra |]. split.
    + intros [_ Hrs]. apply orb_false_elim in Hrs.
      apply Hex in Hrs. rewrite Hrs, Hq. ring.
    + intros Hv. split; [reflexivity |].
      assert (Hv' : v = (IZR m * bpow e)%R) by (rewrite Hv, Hq; ring).
      apply Hex in Hv'. destruct Hv' as [-> ->]. reflexivity.
Qed.

Lemma iter_pos_inv {A : Type} (f : A -> A) (P : Z -> A -> Prop) :
  (forall k x, P k x -> P (k + 1) (f x)) ->
  forall p k x, P k x -> P (k + Zpos p) (iter_pos f p x).
Proof.
  intros Hstep. induction p as [p IH | p IH |]; intros k x Hx; cbn [iter_pos].
  - replace (k + Z.pos p~1) with (k + 1 + Z.pos p + Z.pos p) by lia.
    apply IH, IH, Hstep, Hx.
  - replace (k + Z.pos p~0) with (k + Z.pos p + Z.pos p) by lia.
    apply IH, IH, Hx.
  - apply Hstep, Hx.
Qed.

Lemma shr_inv_step (e0 d : Z) (v : R) (k : Z) (mrs : shr_record) :
  shr_inv e0 d v k mrs -> shr_inv e0 d v (k + 1) (shr_1 mrs).
Proof.
  intros (Hm & Hin & Hup & Hlow).
  destruct (shr_1_spec mrs Hm) as (Em & _).
  split; [| split; [| split]].
  - rewrite Em. apply Z.div_pos; lia.
  - rewrite Z.add_assoc. apply shr_1_inbetween; assumption.
  - rewrite Em. replace (d - k) with (d - (k + 1) + 1) in Hup by lia.
    rewrite bpow_add, bpow_1 in Hup.
    assert (H2 : (2 * IZR (shr_m mrs / 2) <= IZR (shr_m mrs))%R).
    { rewrite <- mult_IZR. apply IZR_le.
      pose proof (Z.mul_div_le (shr_m mrs) 2). lia. }
    lra.
  - intros Hd. rewrite Em. specialize (Hlow ltac:(lia)).
    replace (d - 1 - k) with (d - 1 - (k + 1) + 1) in Hlow by lia.
    rewrite Z.pow_add_r in Hlow by lia.
    apply Z.div_le_lower_bound; lia.
Qed.

Lemma shr_spec (e0 d : Z) (v : R) (mrs : shr_record) (n : Z) :
  shr_inv e0 d v 0 mrs ->
  let '(mrs', e') := shr mrs e0 n in
  e' = e0 + Z.max 0 n /\ shr_inv e0 d v (Z.max 0 n) mrs'.
Proof.
  intros H. unfold shr. destruct n as [| p | p].
  - rewrite Z.max_l by lia. rewrite Z.add_0_r. auto.
  - rewrite Z.max_r by lia. split; [reflexivity |].
    apply (iter_pos_inv shr_1 (shr_inv e0 d v) (shr_inv_step e0 d v) p 0 mrs H).
  - rewrite Z.max_l by lia. rewrite Z.add_0_r. auto.
Qed.

Lemma Zdigits2_bounds (m : Z) :
  0 < m -> 0 < Zdigits2 m /\ 2 ^ (Zdigits2 m - 1) <= m < 2 ^ Zdigits2 m.
Proof.
  destruct m as [| p | p]; try lia. intros _. simpl.
  split; [lia | apply digits2_pos_bounds].
Qed.

Lemma Zdigits2_unique (m k : Z) :
  0 < k -> 2 ^ (k - 1) <= m < 2 ^ k -> Zdigits2 m = k.
Proof.
  intros Hk [Hlo Hhi].
  assert (Hm : 0 < m) by (pose proof (Z.pow_pos_nonneg 2 (k - 1)); lia).
  destruct (Zdigits2_bounds m Hm) as (Hd & Hdlo & Hdhi).
  destruct (Z.lt_trichotomy (Zdigits2 m) k) as [Hlt | [Heq | Hgt]];
    [exfalso | exact Heq | exfalso].
  - assert (2 ^ Zdigits2 m <= 2 ^ (k - 1)) by (apply Z.pow_le_mono_r; lia). lia.
  - assert (2 ^ k <= 2 ^ (Zdigits2 m - 1)) by (apply Z.pow_le_mono_r; lia). lia.
Qed.

Lemma Zdigits2_upper (m : Z) : 0 <= m -> (IZR m < bpow (Zdigits2 m))%R.
Proof.
  intros Hm. destruct (Z.eq_dec m 0) as [-> | Hnz].
  - change (Zdigits2 0) with 0. rewrite bpow_0. lra.
  - destruct (Zdigits2_bounds m ltac:(lia)) as (Hd & _ & Hhi).
    rewrite bpow_IZR by lia. apply IZR_lt. exact Hhi.
Qed.

Lemma IZR_lt_bpow (m k : Z) : 0 <= k -> (IZR m < bpow k)%R -> m < 2 ^ k.
Proof. intros Hk H. rewrite bpow_IZR in H by exact Hk. apply lt_IZR, H. Qed.

Lemma rne_bounds (m : Z) (l : location) :
  m <= round_nearest_even m l <= m + 1
  /\ (l = loc_Exact -> round_nearest_even m l = m).
Proof.
  destruct l as [| []]; simpl.
  - split; [lia | auto].
  - destruct (Z.even m); split; try lia; discriminate.
  - split; [lia | discriminate].
  - split; [lia | discriminate].
Qed.

Lemma F2R_le (m1 m2 e : Z) : m1 <= m2 -> (F2R m1 e <= F2R m2 e)%R.
Proof.
  intros H. unfold F2R. apply IZR_le in H. pose proof (bpow_pos e). nra.
Qed.

Lemma F2R_lt_inv (m1 m2 e : Z) : (F2R m1 e < F2R m2 e)%R -> m1 < m2.
Proof.
  unfold F2R. intros H. apply lt_IZR. pose proof (bpow_pos e). nra.
Qed.

Lemma F2R_le_inv (m1 m2 e : Z) : (F2R m1 e <= F2R m2 e)%R -> m1 <= m2.
Proof.
  unfold F2R. intros H. apply le_IZR. pose proof (bpow_pos e). nra.
Qed.

Lemma F2R_lt_bpow (m e k : Z) :
  (IZR m < bpow k)%R -> (F2R m e < bpow (k + e))%R.
Proof.
  intros H. unfold F2R. rewrite bpow_add. pose proof (bpow_pos e). nra.
Qed.

Lemma F2R_ge_bpow (m e k : Z) :
  0 <= k -> 2 ^ k <= m -> (bpow (k + e) <= F2R m e)%R.
Proof.
  intros Hk H. unfold F2R. rewrite bpow_add, (bpow_IZR k) by exact Hk.
  apply IZR_le in H. pose proof (bpow_pos e). nra.
Qed.

Section Rounding.

Variables prec emax : Z.
Hypothesis Hprec : 0 < prec.
Hypothesis Hemax : prec < emax.

Local Notation fexp := (SpecFloat.fexp prec emax).
Local Notation emin := (SpecFloat.emin prec emax).

Lemma fexp_spec (x : Z) :
  x - prec <= fexp x /\ emin <= fexp x
  /\ (fexp x = x - prec \/ fexp x = emin).
Proof. unfold SpecFloat.fexp. lia. Qed.

(** The two shifts and the rounding of [binary_round_aux], on a located
    value: the result is the [finish] of a canonical mantissa and exponent
    that no representable bound separates from the value. *)
Lemma binary_round_aux_correct (sx : bool) (mx ex : Z) (lx : location)
    (v : R) :
  0 <= mx -> inbetween mx ex lx v -> ex <= fexp (Zdigits2 mx + ex) ->
  exists m e,
    binary_round_aux prec emax sx mx ex lx = finish prec emax sx m e
    /\ 0 <= m
    /\ (0 < m -> fexp (Zdigits2 m + e) = e)
    /\ (forall K F, 0 <= K -> (IZR K < bpow prec)%R -> emin <= F ->
          (v <= F2R K F)%R -> (F2R m e <= F2R K F)%R)
    /\ (forall K F, 0 <= K -> (IZR K < bpow prec)%R -> emin <= F ->
          (F2R K F <= v)%R -> (F2R K F <= F2R m e)%R).
Proof.
  intros Hmx Hin Hex.
  set (d := Zdigits2 mx) in *.
  unfold binary_round_aux, shr_fexp. fold d.
  (* first shift *)
  assert (Hinv0 : shr_inv ex d v 0 (shr_record_of_loc mx lx)).
  { unfold shr_inv. rewrite shr_m_record_of_loc, loc_of_record_of_loc.
    rewrite Z.add_0_r, Z.sub_0_r.
    split; [exact Hmx |]. split; [exact Hin |].
    split; [apply Zdigits2_upper, Hmx |].
    intros Hd. destruct (Z.eq_dec mx 0) as [E | E].
    - subst d. rewrite E in Hd. simpl in Hd. lia.
    - rewrite Z.sub_0_r. apply (Zdigits2_bounds mx). lia. }
  pose proof (shr_spec ex d v _ (fexp (d + ex) - ex) Hinv0) as H1.
  destruct (shr (shr_record_of_loc mx lx) ex (fexp (d + ex) - ex))
    as [mrs1 e1].
  rewrite Z.max_r in H1 by lia.
  destruct H1 as (He1 & Hm1 & Hin1 & Hup1 & Hlow1).
  replace (ex + (fexp (d + ex) - ex)) with (fexp (d + ex)) in * by lia.
  rewrite <- He1 in Hin1.
  set (m1 := shr_m mrs1) in *. set (l1 := loc_of_shr_record mrs1) in *.
  destruct (fexp_spec (d + ex)) as (Hf1 & Hf2 & Hf3).
  assert (Hm1p : m1 < 2 ^ prec).
  { apply IZR_lt_bpow; [lia |].
    eapply Rlt_le_trans; [exact Hup1 |]. apply bpow_le. lia. }
  assert (Hnorm : emin < e1 -> 2 ^ (prec - 1) <= m1).
  { intros He. replace (prec - 1) with (d - 1 - (fexp (d + ex) - ex)) by lia.
    apply Hlow1. lia. }
  (* rounding *)
  destruct (rne_bounds m1 l1) as [[Hr1 Hr2] Hr3].
  set (m2 := round_nearest_even m1 l1) in *.
  (* second shift *)
  assert (Hfin : exists mrs2 e,
             shr (shr_record_of_loc m2 loc_Exact) e1
                 (fexp (Zdigits2 m2 + e1) - e1) = (mrs2, e)
             /\ 0 <= shr_m mrs2 /\ F2R (shr_m mrs2) e = F2R m2 e1
             /\ (0 < shr_m mrs2 -> fexp (Zdigits2 (shr_m mrs2) + e) = e)).
  { destruct (Z_lt_le_dec m2 (2 ^ prec)) as [Hlt | Hge].
    - exists (shr_record_of_loc m2 loc_Exact), e1.
      assert (Hd2 : 0 < m2 -> fexp (Zdigits2 m2 + e1) = e1).
      { intros Hpos. destruct (Zdigits2_bounds m2 Hpos) as (Hd2 & Hlo2 & Hhi2).
        destruct (Z_le_gt_dec e1 emin) as [Hsub | Hnor].
        - assert (Zdigits2 m2 <= prec).
          { destruct (Z_le_gt_dec (Zdigits2 m2) prec); [assumption |].
            assert (2 ^ prec <= 2 ^ (Zdigits2 m2 - 1))
              by (apply Z.pow_le_mono_r; lia). lia. }
          unfold SpecFloat.fexp. lia.
        - rewrite (Zdigits2_unique m2 prec).
          + unfold SpecFloat.fexp. lia.
          + lia.
          + split; [| exact Hlt]. specialize (Hnorm ltac:(lia)). lia. }
      assert (Hn2 : fexp (Zdigits2 m2 + e1) - e1 <= 0).
      { destruct (Z.eq_dec m2 0) as [E | E].
        - rewrite E. simpl. unfold SpecFloat.fexp. lia.
        - rewrite Hd2 by lia. lia. }
      cbn [shr_record_of_loc shr_m].
      split; [| split; [lia | split; [reflexivity | exact Hd2]]].
      unfold shr.
      destruct (fexp (Zdigits2 m2 + e1) - e1); try lia; reflexivity.
    - assert (E2 : m2 = 2 ^ prec) by lia.
      assert (Hd2 : Zdigits2 m2 = prec + 1).
      { apply Zdigits2_unique; [lia |]. rewrite E2.
        replace (prec + 1 - 1) with prec by lia.
        split; [lia |]. apply Z.pow_lt_mono_r; lia. }
      assert (Hn2 : fexp (Zdigits2 m2 + e1) - e1 = 1).
      { rewrite Hd2. unfold SpecFloat.fexp. lia. }
      rewrite Hn2.
      assert (Hhalf : m2 = 2 ^ (prec - 1) * 2).
      { rewrite E2. replace prec with (prec - 1 + 1) at 1 by lia.
        rewrite Z.pow_add_r by lia. lia. }
      exists (shr_1 (shr_record_of_loc m2 loc_Exact)), (e1 + 1).
      assert (Hs := shr_1_spec (shr_record_of_loc m2 loc_Exact)
                      ltac:(simpl; lia)).
      destruct Hs as (Hs1 & _). cbn [shr_record_of_loc shr_m] in Hs1.
      assert (Hq : m2 / 2 = 2 ^ (prec - 1))
        by (rewrite Hhalf; apply Z.div_mul; lia).
      cbn [shr_record_of_loc]. rewrite Hs1, Hq.
      split; [reflexivity |]. split; [| split].
      + pose proof (Z.pow_pos_nonneg 2 (prec - 1)). lia.
      + rewrite Hhalf. change 2 with (2 ^ 1) at 3.
        rewrite F2R_shift by lia. reflexivity.
      + intros _. rewrite (Zdigits2_unique (2 ^ (prec - 1)) prec).
        * unfold SpecFloat.fexp. lia.
        * lia.
        * split; [lia |]. apply Z.pow_lt_mono_r; lia. }
  destruct Hfin as (mrs2 & e & Hshr & Hm & Hval & Hcanon).
  rewrite Hshr. set (m := shr_m mrs2) in *.
  exists m, e. split; [reflexivity |]. split; [exact Hm |].
  split; [exact Hcanon |]. rewrite Hval. clear Hshr Hval Hcanon.
  destruct Hin1 as [[Hlo Hhi] Hexact].
  split.
  - (* upper bounds *)
    intros K F HK HKp HF Hv.
    destruct (Z.eq_dec m2 m1) as [E | E].
    { rewrite E. lra. }
    assert (E2 : m2 = m1 + 1) by lia.
    assert (Hinexact : (F2R m1 e1 < v)%R).
    { destruct (Req_dec v (F2R m1 e1)) as [Ev | Ev]; [| lra].
      apply Hexact in Ev. apply Hr3 in Ev. lia. }
    assert (HK0 : 0 < K).
    { destruct (Z.eq_dec K 0) as [E0 | E0]; [exfalso | lia].
      rewrite E0 in Hv. unfold F2R in Hv, Hinexact, Hlo.
      apply IZR_le in Hm1. pose proof (bpow_pos e1). nra. }
    assert (HeF : e1 <= F).
    { rewrite He1. destruct Hf3 as [Hf3 | Hf3]; [| lia].
      destruct (Z.eq_dec mx 0) as [E0 | E0].
      - assert (Hd0 : d = 0) by (subst d; rewrite E0; reflexivity). lia.
      - destruct (Zdigits2_bounds mx ltac:(lia)) as (Hd & Hdlo & _).
        fold d in Hd, Hdlo.
        assert (Hb1 : (bpow (d - 1 + ex) <= F2R mx ex)%R)
          by (apply F2R_ge_bpow; lia).
        assert (Hb2 : (F2R K F < bpow (prec + F))%R)
          by (apply F2R_lt_bpow; exact HKp).
        assert (Hb3 : (F2R mx ex <= v)%R) by apply Hin.
        assert (d - 1 + ex < prec + F) by (apply bpow_lt_inv; lra).
        lia. }
    replace F with (e1 + (F - e1)) in Hv |- * by lia.
    rewrite <- F2R_shift in Hv |- * by lia.
    rewrite E2. apply F2R_le.
    assert (m1 < K * 2 ^ (F - e1)) by (apply (F2R_lt_inv _ _ e1); lra).
    lia.
  - (* lower bounds *)
    intros K F HK HKp HF Hv.
    apply Rle_trans with (F2R m1 e1); [| apply F2R_le; lia].
    destruct (Z_le_gt_dec e1 F) as [HeF | HeF].
    + replace F with (e1 + (F - e1)) in Hv |- * by lia.
      rewrite <- F2R_shift in Hv |- * by lia.
      apply F2R_le.
      assert (K * 2 ^ (F - e1) < m1 + 1) by (apply (F2R_lt_inv _ _ e1); lra).
      lia.
    + specialize (Hnorm ltac:(lia)).
      assert (Hb1 : (bpow (prec - 1 + e1) <= F2R m1 e1)%R)
        by (apply F2R_ge_bpow; lia).
      assert (Hb2 : (F2R K F < bpow (prec + F))%R)
        by (apply F2R_lt_bpow; exact HKp).
      assert (Hb3 : (bpow (prec + F) <= bpow (prec - 1 + e1))%R)
        by (apply bpow_le; lia).
      lra.
Qed.

End Rounding.

Section Format.

Variables prec emax : Z.
Hypothesis Hprec : 0 < prec.
Hypothesis Hemax : prec < emax.

Local Notation fexp := (SpecFloat.fexp prec emax).
Local Notation emin := (SpecFloat.emin prec emax).

Lemma canonical_inv (m e : Z) :
  0 < m -> fexp (Zdigits2 m + e) = e ->
  (IZR m < bpow prec)%R /\ emin <= e /\ (emin < e -> 2 ^ (prec - 1) <= m).
Proof.
  intros Hm Hc. destruct (Zdigits2_bounds m Hm) as (Hd & Hlo & Hhi).
  destruct (fexp_spec prec emax (Zdigits2 m + e)) as (H1 & H2 & H3).
  assert (Hdp : Zdigits2 m <= prec) by lia.
  split; [| split].
  - rewrite bpow_IZR by lia. apply IZR_lt.
    assert (2 ^ Zdigits2 m <= 2 ^ prec) by (apply Z.pow_le_mono_r; lia). lia.
  - lia.
  - intros He. assert (Zdigits2 m = prec) by lia. congruence.
Qed.

Lemma good_finite_inv (s : bool) (m : positive) (e : Z) :
  good prec emax (S754_finite s m e) ->
  (IZR (Zpos m) < bpow prec)%R /\ emin <= e /\ e <= emax - prec
  /\ (emin < e -> 2 ^ (prec - 1) <= Zpos m).
Proof.
  intros [Hv _]. unfold valid_binary, bounded, canonical_mantissa in Hv.
  apply andb_prop in Hv. destruct Hv as [Hc He].
  apply Z.eqb_eq in Hc. apply Z.leb_le in He.
  destruct (canonical_inv (Zpos m) e ltac:(lia) Hc) as (H1 & H2 & H3).
  auto.
Qed.

Lemma finish_valid (s : bool) (m e : Z) :
  0 <= m -> (0 < m -> fexp (Zdigits2 m + e) = e) ->
  valid_binary prec emax (finish prec emax s m e) = true
  /\ finish prec emax s m e <> S754_nan.
Proof.
  intros Hm Hc. unfold finish. destruct m as [| p | p]; try lia.
  - split; [reflexivity | discriminate].
  - destruct (Z.leb_spec e (emax - prec)) as [He | He].
    + split; [| discriminate]. cbn [valid_binary].
      unfold bounded, canonical_mantissa.
      specialize (Hc ltac:(lia)). cbn [Zdigits2] in Hc.
      rewrite Hc, Z.eqb_refl.
      apply Z.leb_le in He. rewrite He. reflexivity.
    + split; [reflexivity | discriminate].
Qed.

Lemma rounded_valid (s : bool) (v : R) (res : spec_float) :
  rounded prec emax s v res ->
  valid_binary prec emax res = true /\ res <> S754_nan.
Proof.
  intros (m & e & -> & Hm & Hc & _). apply finish_valid; assumption.
Qed.

(** A rounding bounded by a number of the format does not overflow. *)
Lemma rounded_good (s : bool) (v : R) (res : spec_float) (K F : Z) :
  rounded prec emax s v res ->
  0 <= K -> (IZR K < bpow prec)%R -> emin <= F -> F <= emax - prec ->
  (v <= F2R K F)%R ->
  good prec emax res
  /\ exists m e, res = finish prec emax s m e /\ 0 <= m
       /\ B2R res = F2R (cond_Zopp s m) e
       /\ (F2R m e <= F2R K F)%R.
Proof.
  intros (m & e & -> & Hm & Hc & Hup & Hlow) HK HKp HF HFmax Hv.
  specialize (Hup K F HK HKp HF Hv).
  destruct (finish_valid s m e Hm Hc) as [Hvalid _].
  destruct (Z.eq_dec m 0) as [E | E].
  - rewrite E in *. split; [split; [exact Hvalid | reflexivity] |].
    exists 0, e. repeat split; try lia; try assumption.
    simpl. unfold F2R. destruct s; simpl; lra.
  - assert (Hpos : 0 < m) by lia.
    destruct (canonical_inv m e Hpos (Hc Hpos)) as (H1 & H2 & H3).
    assert (He : e <= emax - prec).
    { destruct (Z_le_gt_dec e emin) as [Hsub | Hnor].
      - unfold SpecFloat.emin in *. lia.
      - specialize (H3 ltac:(lia)).
        assert (Hb1 : (bpow (prec - 1 + e) <= F2R m e)%R)
          by (apply F2R_ge_bpow; lia).
        assert (Hb2 : (F2R K F < bpow (prec + F))%R)
          by (apply F2R_lt_bpow; exact HKp).
        assert (prec - 1 + e < prec + F) by (apply bpow_lt_inv; lra).
        lia. }
    assert (Efin : exists p, m = Zpos p
                    /\ finish prec emax s m e = S754_finite s p e).
    { destruct m as [| p | p]; try lia. exists p. split; [reflexivity |].
      unfold finish. apply Z.leb_le in He. rewrite He. reflexivity. }
    destruct Efin as (p & Ep & Efin).
    split.
    + split; [exact Hvalid |]. rewrite Efin. reflexivity.
    + exists m, e. repeat split; try assumption.
      rewrite Efin, Ep. reflexivity.
Qed.

Lemma finish_good_B2R (s : bool) (m e : Z) :
  0 <= m -> good prec emax (finish prec emax s m e) ->
  B2R (finish prec emax s m e) = F2R (cond_Zopp s m) e.
Proof.
  intros Hm [_ Hf]. unfold finish in *. destruct m as [| p | p]; try lia.
  - unfold F2R. destruct s; simpl; lra.
  - destruct (e <=? emax - prec); [reflexivity | discriminate Hf].
Qed.

Lemma F2R_cond_Zopp (s : bool) (m e : Z) :
  F2R (cond_Zopp s m) e = (if s then - F2R m e else F2R m e)%R.
Proof. unfold F2R. destruct s; simpl; [rewrite opp_IZR; ring | ring]. Qed.

Lemma F2R_nonneg (m e : Z) : 0 <= m -> (0 <= F2R m e)%R.
Proof.
  intros H. unfold F2R. apply IZR_le in H. pose proof (bpow_pos e). nra.
Qed.

Lemma F2R_pos (m e : Z) : 0 < m -> (0 < F2R m e)%R.
Proof.
  intros H. unfold F2R. apply IZR_lt in H. pose proof (bpow_pos e). nra.
Qed.

(** The value of a number of the format, by sign and magnitude. *)
Lemma good_B2R (b : spec_float) :
  good prec emax b ->
  exists (s : bool) (K F : Z),
    B2R b = (if s then - F2R K F else F2R K F)%R
    /\ 0 <= K /\ (IZR K < bpow prec)%R /\ emin <= F /\ F <= emax - prec
    /\ (0 < K -> fexp (Zdigits2 K + F) = F)
    /\ (K = 0 \/ b = S754_finite s (Z.to_pos K) F).
Proof.
  intros Hb. destruct b as [s | s | | s m e]; try (destruct Hb; discriminate).
  - exists s, 0, emin. cbn [B2R].
    split; [unfold F2R; destruct s; lra |].
    split; [lia |]. split; [apply bpow_pos |]. split; [lia |].
    split; [unfold SpecFloat.emin; lia |]. split; [lia |].
    left. reflexivity.
  - destruct (good_finite_inv s m e Hb) as (H1 & H2 & H3 & H4).
    exists s, (Zpos m), e. simpl. rewrite F2R_cond_Zopp.
    repeat split; try lia; try assumption.
    + intros _. destruct Hb as [Hv _].
      unfold valid_binary, bounded, canonical_mantissa in Hv.
      apply andb_prop in Hv. destruct Hv as [Hc _]. apply Z.eqb_eq in Hc.
      exact Hc.
    + right. reflexivity.
Qed.

Lemma rounds_valid (w : R) (res : spec_float) :
  rounds prec emax w res ->
  valid_binary prec emax res = true /\ res <> S754_nan.
Proof. intros (s & H & _). apply (rounded_valid s _ _ H). Qed.

(** A rounding of a real that a number of the format bounds in magnitude
    is a number of the format. *)
Lemma rounds_good (w : R) (res bmax : spec_float) :
  rounds prec emax w res -> good prec emax bmax ->
  (Rabs w <= Rabs (B2R bmax))%R ->
  good prec emax res.
Proof.
  intros (s & H & _) Hb Hw.
  destruct (good_B2R bmax Hb) as (sb & K & F & EB & HK & HKp & HF & HFm & _).
  assert (HB : Rabs (B2R bmax) = F2R K F).
  { rewrite EB. pose proof (F2R_nonneg K F HK).
    destruct sb; [rewrite Rabs_Ropp |]; apply Rabs_pos_eq; assumption. }
  rewrite HB in Hw.
  apply (rounded_good s _ res K F H HK HKp HF HFm Hw).
Qed.

Lemma rounds_le (w : R) (res b : spec_float) :
  rounds prec emax w res -> good prec emax res -> good prec emax b ->
  (w <= B2R b)%R -> (B2R res <= B2R b)%R.
Proof.
  intros (s & (m & e & -> & Hm & Hc & Hup & Hlow) & Hs1 & Hs2) Hres Hb Hw.
  rewrite (finish_good_B2R s m e Hm Hres), F2R_cond_Zopp.
  destruct (good_B2R b Hb) as (sb & K & F & EB & HK & HKp & HF & _).
  rewrite EB in *. clear EB.
  pose proof (F2R_nonneg m e Hm) as Hme.
  pose proof (F2R_nonneg K F HK) as HKF.
  destruct sb.
  - (* the bound is not positive *)
    assert (Hlow' : (F2R K F <= F2R m e)%R).
    { apply Hlow; try assumption. unfold Rabs. destruct (Rcase_abs w); lra. }
    destruct s; [lra |].
    destruct (Rlt_dec w 0) as [Hneg | Hnn]; [specialize (Hs2 Hneg); discriminate |].
    assert (Hz : (F2R m e <= F2R 0 emin)%R).
    { apply Hup; try lia.
      - apply bpow_pos.
      - unfold F2R. rewrite Rabs_pos_eq by lra. lra. }
    unfold F2R at 2 in Hz. lra.
  - destruct s; [lra |].
    destruct (Rlt_dec w 0) as [Hneg | Hnn]; [specialize (Hs2 Hneg); discriminate |].
    apply Hup; try assumption. rewrite Rabs_pos_eq by lra. exact Hw.
Qed.

Lemma rounds_ge (w : R) (res a : spec_float) :
  rounds prec emax w res -> good prec emax res -> good prec emax a ->
  (B2R a <= w)%R -> (B2R a <= B2R res)%R.
Proof.
  intros (s & (m & e & -> & Hm & Hc & Hup & Hlow) & Hs1 & Hs2) Hres Ha Hw.
  rewrite (finish_good_B2R s m e Hm Hres), F2R_cond_Zopp.
  destruct (good_B2R a Ha) as (sa & K & F & EB & HK & HKp & HF & _).
  rewrite EB in *. clear EB.
  pose proof (F2R_nonneg m e Hm) as Hme.
  pose proof (F2R_nonneg K F HK) as HKF.
  destruct sa.
  - destruct s; [| lra].
    destruct (Rlt_dec 0 w) as [Hpos | Hnp]; [specialize (Hs1 Hpos); discriminate |].
    assert (Hup' : (F2R m e <= F2R K F)%R).
    { apply Hup; try assumption. unfold Rabs. destruct (Rcase_abs w); lra. }
    lra.
  - assert (Hlow' : (F2R K F <= F2R m e)%R).
    { apply Hlow; try assumption. unfold Rabs. destruct (Rcase_abs w); lra. }
    destruct s; [| lra].
    destruct (Rlt_dec 0 w) as [Hpos | Hnp]; [specialize (Hs1 Hpos); discriminate |].
    assert (Hz : (F2R m e <= F2R 0 emin)%R).
    { apply Hup; try lia.
      - apply bpow_pos.
      - unfold F2R. unfold Rabs. destruct (Rcase_abs w); lra. }
    unfold F2R at 2 in Hz. lra.
Qed.

(** A number of the format is a rounding of its own value. *)
Lemma good_rounds_self (x : spec_float) :
  good prec emax x -> rounds prec emax (B2R x) x.
Proof.
  intros Hx. destruct x as [s | s | | s m e]; try (destruct Hx; discriminate).
  - exists s. split; [| simpl; split; intros; lra].
    exists 0, 0. simpl. rewrite Rabs_R0.
    repeat split; try lia; try reflexivity.
    + intros K F HK _ _ _. unfold F2R at 1. pose proof (F2R_nonneg K F HK). lra.
    + intros K F HK _ _ Hle. unfold F2R at 2. lra.
  - destruct (good_finite_inv s m e Hx) as (H1 & H2 & H3 & H4).
    pose proof (F2R_pos (Zpos m) e ltac:(lia)) as Hpos.
    exists s. cbn [B2R]. rewrite F2R_cond_Zopp. split.
    + exists (Zpos m), e.
      assert (Habs : Rabs (if s then (- F2R (Z.pos m) e)%R else F2R (Z.pos m) e)
                     = F2R (Zpos m) e).
      { destruct s; [rewrite Rabs_Ropp |]; apply Rabs_pos_eq; lra. }
      rewrite Habs. repeat split; try lia; try (intros; assumption).
      * unfold finish. apply Z.leb_le in H3. rewrite H3. reflexivity.
      * intros _. destruct Hx as [Hv _].
        unfold valid_binary, bounded, canonical_mantissa in Hv.
        apply andb_prop in Hv. destruct Hv as [Hc _]. apply Z.eqb_eq in Hc.
        exact Hc.
    + destruct s; split; intros; try reflexivity; lra.
Qed.

Lemma rounded_zero (s : bool) : rounded prec emax s 0 (S754_zero s).
Proof.
  exists 0, 0. repeat split; try lia; try reflexivity.
  - intros K F HK _ _ _. unfold F2R at 1. pose proof (F2R_nonneg K F HK). lra.
  - intros K F HK _ _ Hle. unfold F2R at 2. lra.
Qed.

Lemma rounds_zero (s : bool) : rounds prec emax 0 (S754_zero s).
Proof.
  exists s. rewrite Rabs_R0. split; [apply rounded_zero |].
  split; intros; lra.
Qed.

(** Alignment to a smaller exponent is exact. *)
Lemma shl_align_spec (mx : positive) (ex ex' : Z) :
  let '(mz, ez) := shl_align mx ex ex' in
  F2R (Zpos mz) ez = F2R (Zpos mx) ex
  /\ ez = Z.min ex ex'
  /\ Zdigits2 (Zpos mz) + ez = Zdigits2 (Zpos mx) + ex.
Proof.
  unfold shl_align. destruct (ex' - ex) as [| d | d] eqn:Ed.
  - repeat split. lia.
  - repeat split. lia.
  - assert (Hmz : Zpos (Pos.iter xO mx d) = Zpos mx * 2 ^ Zpos d).
    { change (Pos.iter xO mx d) with (shift_pos d mx).
      rewrite shift_pos_correct. change (Z.pow_pos 2 d) with (2 ^ Zpos d). lia. }
    split; [| split].
    + rewrite Hmz, F2R_shift by lia. f_equal. lia.
    + lia.
    + destruct (Zdigits2_bounds (Zpos mx) ltac:(lia)) as (Hd & Hlo & Hhi).
      rewrite (Zdigits2_unique (Zpos (Pos.iter xO mx d))
                 (Zdigits2 (Zpos mx) + Zpos d)).
      * lia.
      * lia.
      * rewrite Hmz.
        replace (Zdigits2 (Z.pos mx) + Z.pos d - 1)
          with (Zdigits2 (Z.pos mx) - 1 + Z.pos d) by lia.
        rewrite !Z.pow_add_r by lia.
        pose proof (Z.pow_pos_nonneg 2 (Zpos d)). nia.
Qed.

Lemma binary_round_correct (sx : bool) (mx : positive) (ex : Z) :
  rounded prec emax sx (F2R (Zpos mx) ex) (binary_round prec emax sx mx ex).
Proof.
  unfold binary_round.
  pose proof (shl_align_spec mx ex (fexp (Zpos (digits2_pos mx) + ex))) as H.
  destruct (shl_align mx ex (fexp (Zpos (digits2_pos mx) + ex))) as [mz ez].
  destruct H as (Hv & He & Hd).
  rewrite <- Hv. unfold rounded.
  apply (binary_round_aux_correct prec emax Hprec sx (Zpos mz) ez
           loc_Exact (F2R (Zpos mz) ez)).
  - lia.
  - split; [split; [lra |] | split; auto].
    apply Rlt_le_trans with (F2R (Zpos mz) ez + bpow ez)%R.
    + pose proof (bpow_pos ez). lra.
    + unfold F2R. rewrite plus_IZR. lra.
  - rewrite Hd. change (Zdigits2 (Zpos mx)) with (Zpos (digits2_pos mx)). lia.
Qed.

Lemma binary_normalize_correct (m e : Z) (sz : bool) :
  rounds prec emax (F2R m e) (binary_normalize prec emax m e sz).
Proof.
  destruct m as [| p | p]; cbn [binary_normalize].
  - replace (F2R 0 e) with 0%R by (unfold F2R; lra). apply rounds_zero.
  - pose proof (F2R_pos (Zpos p) e ltac:(lia)) as Hpos.
    exists false. rewrite Rabs_pos_eq by lra.
    split; [apply binary_round_correct |]. split; intros; [reflexivity | lra].
  - pose proof (F2R_pos (Zpos p) e ltac:(lia)) as Hpos.
    assert (Hneg : F2R (Zneg p) e = (- F2R (Zpos p) e)%R).
    { unfold F2R. change (Zneg p) with (- Zpos p). rewrite opp_IZR. ring. }
    exists true. rewrite Hneg, Rabs_Ropp, Rabs_pos_eq by lra.
    split; [apply binary_round_correct |]. split; intros; [lra | reflexivity].
Qed.

Lemma Zdigits2_mul (a b : Z) :
  0 < a -> 0 < b -> Zdigits2 a + Zdigits2 b - 1 <= Zdigits2 (a * b).
Proof.
  intros Ha Hb.
  destruct (Zdigits2_bounds a Ha) as (Hda & Hla & _).
  destruct (Zdigits2_bounds b Hb) as (Hdb & Hlb & _).
  destruct (Zdigits2_bounds (a * b) ltac:(nia)) as (Hd & _ & Hh).
  assert (Hp : 2 ^ (Zdigits2 a - 1 + (Zdigits2 b - 1)) <= a * b).
  { rewrite Z.pow_add_r by lia.
    pose proof (Z.pow_pos_nonneg 2 (Zdigits2 a - 1)).
    pose proof (Z.pow_pos_nonneg 2 (Zdigits2 b - 1)). nia. }
  destruct (Z_le_gt_dec (Zdigits2 a + Zdigits2 b - 1) (Zdigits2 (a * b)));
    [assumption | exfalso].
  assert (2 ^ Zdigits2 (a * b) <= 2 ^ (Zdigits2 a - 1 + (Zdigits2 b - 1)))
    by (apply Z.pow_le_mono_r; lia).
  lia.
Qed.

Lemma inbetween_exact (m e : Z) : inbetween m e loc_Exact (F2R m e).
Proof.
  split; [split; [lra |] | split; auto].
  unfold F2R. rewrite plus_IZR. pose proof (bpow_pos e). nra.
Qed.

Lemma good_valid_finite (s : bool) (m : positive) (e : Z) :
  good prec emax (S754_finite s m e) -> fexp (Zpos (digits2_pos m) + e) = e.
Proof.
  intros [Hv _]. unfold valid_binary, bounded, canonical_mantissa in Hv.
  apply andb_prop in Hv. destruct Hv as [Hc _]. apply Z.eqb_eq in Hc.
  exact Hc.
Qed.

Lemma B2R_finite (s : bool) (m : positive) (e : Z) :
  B2R (S754_finite s m e)
  = (if s then - F2R (Zpos m) e else F2R (Zpos m) e)%R.
Proof. cbn [B2R]. apply F2R_cond_Zopp. Qed.

Lemma SFmul_rounds (x y : spec_float) :
  good prec emax x -> good prec emax y ->
  rounds prec emax (B2R x * B2R y) (SFmul prec emax x y).
Proof.
  intros Hx Hy.
  destruct x as [sx | sx | | sx mx ex]; try (destruct Hx; discriminate);
    destruct y as [sy | sy | | sy my ey]; try (destruct Hy; discriminate);
    cbn [SFmul].
  - cbn [B2R]. rewrite Rmult_0_l. apply rounds_zero.
  - cbn [B2R]. rewrite Rmult_0_l. apply rounds_zero.
  - cbn [B2R]. rewrite Rmult_0_r. apply rounds_zero.
  - pose proof (good_valid_finite _ _ _ Hx) as Hcx.
    pose proof (good_valid_finite _ _ _ Hy) as Hcy.
    pose proof (F2R_pos (Zpos mx) ex ltac:(lia)) as Hpx.
    pose proof (F2R_pos (Zpos my) ey ltac:(lia)) as Hpy.
    assert (Hv : F2R (Zpos (mx * my)) (ex + ey)
                 = (F2R (Zpos mx) ex * F2R (Zpos my) ey)%R).
    { unfold F2R. rewrite Pos2Z.inj_mul, mult_IZR, bpow_add. ring. }
    rewrite !B2R_finite.
    exists (xorb sx sy). split.
    + assert (Habs : Rabs ((if sx then - F2R (Zpos mx) ex else F2R (Zpos mx) ex)
                           * (if sy then - F2R (Zpos my) ey
                              else F2R (Zpos my) ey))
                     = F2R (Zpos (mx * my)) (ex + ey)).
      { rewrite Hv, Rabs_mult.
        destruct sx, sy; rewrite ?Rabs_Ropp, !Rabs_pos_eq by lra; reflexivity. }
      rewrite Habs. unfold rounded.
      apply (binary_round_aux_correct prec emax Hprec).
      * lia.
      * apply inbetween_exact.
      * pose proof (Zdigits2_mul (Zpos mx) (Zpos my) ltac:(lia) ltac:(lia)) as Hd.
        rewrite <- Pos2Z.inj_mul in Hd.
        destruct (Zdigits2_bounds (Zpos mx) ltac:(lia)) as (Hdx & _).
        destruct (Zdigits2_bounds (Zpos my) ltac:(lia)) as (Hdy & _).
        cbn [Zdigits2] in Hd, Hdx, Hdy.
        unfold SpecFloat.fexp, SpecFloat.emin in *. cbn [Zdigits2]. lia.
    + destruct sx, sy; simpl; split; intros; try reflexivity; nra.
Qed.

(** The aligned mantissa of [SFadd] and [SFsub] carries the value. *)
Lemma aligned_value (s : bool) (m : positive) (e ez : Z) :
  ez <= e ->
  F2R (cond_Zopp s (Zpos (fst (shl_align m e ez)))) ez
  = B2R (S754_finite s m e).
Proof.
  intros He. pose proof (shl_align_spec m e ez) as H.
  destruct (shl_align m e ez) as [mz e']. destruct H as (Hv & He' & _).
  cbn [fst B2R]. rewrite !F2R_cond_Zopp.
  replace ez with e' by lia. rewrite Hv. reflexivity.
Qed.

Lemma F2R_add (a b e : Z) : F2R (a + b) e = (F2R a e + F2R b e)%R.
Proof. unfold F2R. rewrite plus_IZR. ring. Qed.

Lemma F2R_sub (a b e : Z) : F2R (a - b) e = (F2R a e - F2R b e)%R.
Proof. unfold F2R. rewrite minus_IZR. ring. Qed.

Lemma SFadd_rounds (x y : spec_float) :
  good prec emax x -> good prec emax y ->
  rounds prec emax (B2R x + B2R y) (SFadd prec emax x y).
Proof.
  intros Hx Hy.
  destruct x as [sx | sx | | sx mx ex]; try (destruct Hx; discriminate);
    destruct y as [sy | sy | | sy my ey]; try (destruct Hy; discriminate);
    cbn [SFadd].
  - replace (B2R (S754_zero sx) + B2R (S754_zero sy))%R with 0%R
      by (simpl; lra).
    destruct sx, sy; apply rounds_zero.
  - replace (B2R (S754_zero sx) + B2R (S754_finite sy my ey))%R
      with (B2R (S754_finite sy my ey)) by (cbn [B2R]; lra).
    apply good_rounds_self, Hy.
  - replace (B2R (S754_finite sx mx ex) + B2R (S754_zero sy))%R
      with (B2R (S754_finite sx mx ex)) by (cbn [B2R]; lra).
    apply good_rounds_self, Hx.
  - rewrite <- (aligned_value sx mx ex (Z.min ex ey)) by lia.
    rewrite <- (aligned_value sy my ey (Z.min ex ey)) by lia.
    rewrite <- F2R_add. apply binary_normalize_correct.
Qed.

Lemma SFsub_rounds (x y : spec_float) :
  good prec emax x -> good prec emax y ->
  rounds prec emax (B2R x - B2R y) (SFsub prec emax x y).
Proof.
  intros Hx Hy.
  destruct x as [sx | sx | | sx mx ex]; try (destruct Hx; discriminate);
    destruct y as [sy | sy | | sy my ey]; try (destruct Hy; discriminate);
    cbn [SFsub].
  - replace (B2R (S754_zero sx) - B2R (S754_zero sy))%R with 0%R
      by (simpl; lra).
    destruct sx, sy; apply rounds_zero.
  - replace (B2R (S754_zero sx) - B2R (S754_finite sy my ey))%R
      with (B2R (S754_finite (negb sy) my ey)).
    + apply good_rounds_self. exact Hy.
    + rewrite !B2R_finite. cbn [B2R]. destruct sy; simpl; lra.
  - replace (B2R (S754_finite sx mx ex) - B2R (S754_zero sy))%R
      with (B2R (S754_finite sx mx ex)) by (cbn [B2R]; lra).
    apply good_rounds_self, Hx.
  - rewrite <- (aligned_value sx mx ex (Z.min ex ey)) by lia.
    rewrite <- (aligned_value sy my ey (Z.min ex ey)) by lia.
    rewrite <- F2R_sub. apply binary_normalize_correct.
Qed.

Lemma new_location_exact (n k : Z) :
  new_location n k = loc_Exact <-> k = 0.
Proof.
  unfold new_location, new_location_even, new_location_odd.
  destruct (Z.even n); destruct (Z.eqb_spec k 0); split; intros H;
    try reflexivity; try assumption; try discriminate; try contradiction.
Qed.

(** The quotient, exponent and location that [SFdiv] hands to the
    rounding locate the exact quotient, with digits to spare. *)
Lemma SFdiv_core_binary_correct (m1 m2 : positive) (e1 e2 : Z) :
  let '(q, e, l) := SFdiv_core_binary prec emax (Zpos m1) e1 (Zpos m2) e2 in
  0 <= q
  /\ inbetween q e l (F2R (Zpos m1) e1 / F2R (Zpos m2) e2)
  /\ e <= fexp (Zdigits2 q + e).
Proof.
  unfold SFdiv_core_binary.
  set (d1 := Zdigits2 (Zpos m1)). set (d2 := Zdigits2 (Zpos m2)).
  set (e := Z.min (fexp (d1 + e1 - (d2 + e2))) (e1 - e2)).
  set (s := e1 - e2 - e).
  assert (Hs : 0 <= s) by (subst s e; lia).
  assert (Hm' : forall k, 0 <= k ->
                match k with
                | 0 => Zpos m1
                | Zpos _ => Z.shiftl (Zpos m1) k
                | Zneg _ => 0
                end = Zpos m1 * 2 ^ k).
  { intros [| p | p] Hk; try lia.
    apply Z.shiftl_mul_pow2. lia. }
  rewrite (Hm' s Hs). clear Hm'.
  pose proof (Z_div_mod (Zpos m1 * 2 ^ s) (Zpos m2) ltac:(lia)) as Hdiv.
  destruct (Z.div_eucl (Zpos m1 * 2 ^ s) (Zpos m2)) as [q r].
  destruct Hdiv as [Hqr Hr].
  assert (H2s : 0 < 2 ^ s) by (apply Z.pow_pos_nonneg; lia).
  assert (Hq : 0 <= q) by nia.
  pose proof (F2R_pos (Zpos m2) e2 ltac:(lia)) as Hy.
  assert (Hv : (F2R (Zpos m1) e1 / F2R (Zpos m2) e2
                = (IZR q + IZR r / IZR (Zpos m2)) * bpow e)%R).
  { assert (E1 : F2R (Zpos m1) e1 = (IZR (Zpos m1 * 2 ^ s) * bpow (e2 + e))%R).
    { change (IZR (Zpos m1 * 2 ^ s) * bpow (e2 + e))%R
        with (F2R (Zpos m1 * 2 ^ s) (e2 + e)).
      rewrite F2R_shift by lia. f_equal. subst s. lia. }
    rewrite E1, Hqr, plus_IZR, mult_IZR, bpow_add. unfold F2R.
    pose proof (bpow_pos e2). assert (IZR (Zpos m2) <> 0)%R.
    { apply (eq_IZR_contrapositive _ 0). lia. }
    field. split; lra. }
  assert (Hm2 : (0 < IZR (Zpos m2))%R) by (apply (IZR_lt 0); lia).
  assert (Hfrac : (0 <= IZR r / IZR (Zpos m2) < 1)%R).
  { destruct Hr as [Hr0 Hr1]. apply IZR_le in Hr0. apply IZR_lt in Hr1.
    split.
    - apply Rmult_le_pos; [exact Hr0 |]. apply Rlt_le, Rinv_0_lt_compat, Hm2.
    - apply (Rmult_lt_reg_r (IZR (Zpos m2))); [exact Hm2 |].
      unfold Rdiv. rewrite Rmult_assoc, Rinv_l by lra. lra. }
  split; [exact Hq |]. split.
  - rewrite Hv. pose proof (bpow_pos e) as Hb. unfold inbetween, F2R.
    rewrite plus_IZR. split; [split; nra |].
    rewrite new_location_exact. split.
    + intros ->. unfold Rdiv. rewrite Rmult_0_l. ring.
    + intros E. assert (Hz : (IZR r / IZR (Zpos m2) = 0)%R) by nra.
      apply eq_IZR.
      apply (Rmult_eq_reg_r (/ IZR (Zpos m2))); [| apply Rinv_neq_0_compat; lra].
      rewrite Rmult_0_l. exact Hz.
  - (* enough digits *)
    destruct (Zdigits2_bounds (Zpos m1) ltac:(lia)) as (Hd1 & Hl1 & Hh1).
    destruct (Zdigits2_bounds (Zpos m2) ltac:(lia)) as (Hd2 & Hl2 & Hh2).
    fold d1 in Hd1, Hl1, Hh1. fold d2 in Hd2, Hl2, Hh2.
    assert (He : e <= fexp (d1 + e1 - (d2 + e2))) by (subst e; lia).
    destruct (Z.eq_dec q 0) as [E0 | E0].
    + (* the quotient underflows *)
      rewrite E0 in *. change (Zdigits2 0) with 0.
      assert (Hlt : Zpos m1 * 2 ^ s < Zpos m2) by lia.
      assert (Hk : d1 - 1 + s < d2).
      { apply (Z.pow_lt_mono_r_iff 2); [lia | lia |].
        rewrite Z.pow_add_r by lia. nia. }
      unfold SpecFloat.fexp in *. lia.
    + assert (Hdq : d1 + s - d2 <= Zdigits2 q).
      { destruct (Zdigits2_bounds q ltac:(lia)) as (Hdq & _ & Hhq).
        destruct (Z_le_gt_dec (d1 + s - d2) (Zdigits2 q)) as [| Hgt];
          [assumption | exfalso].
        assert (Hq1 : q + 1 <= 2 ^ (d1 + s - d2 - 1)).
        { assert (2 ^ Zdigits2 q <= 2 ^ (d1 + s - d2 - 1))
            by (apply Z.pow_le_mono_r; lia). lia. }
        assert (Hpow : 2 ^ (d1 - 1 + s) = 2 ^ (d1 + s - d2 - 1) * 2 ^ d2).
        { rewrite <- Z.pow_add_r by lia. f_equal. lia. }
        assert (Hlow : 2 ^ (d1 - 1 + s) <= Zpos m1 * 2 ^ s).
        { rewrite Z.pow_add_r by lia. nia. }
        assert (0 < 2 ^ (d1 + s - d2 - 1)) by (apply Z.pow_pos_nonneg; lia).
        nia. }
      assert (Hmono : fexp (d1 + e1 - (d2 + e2)) <= fexp (Zdigits2 q + e)).
      { unfold SpecFloat.fexp. subst s. lia. }
      lia.
Qed.

Lemma SFdiv_rounds (x y : spec_float) :
  good prec emax x -> good prec emax y -> B2R y <> 0%R ->
  rounds prec emax (B2R x / B2R y) (SFdiv prec emax x y).
Proof.
  intros Hx Hy Hnz.
  destruct y as [sy | sy | | sy my ey]; try (destruct Hy; discriminate).
  { contradiction Hnz. reflexivity. }
  destruct x as [sx | sx | | sx mx ex]; try (destruct Hx; discriminate);
    cbn [SFdiv].
  - cbn [B2R]. unfold Rdiv. rewrite Rmult_0_l. apply rounds_zero.
  - pose proof (SFdiv_core_binary_correct mx my ex ey) as Hcore.
    destruct (SFdiv_core_binary prec emax (Zpos mx) ex (Zpos my) ey)
      as [[q e] l].
    destruct Hcore as (Hq & Hin & He).
    pose proof (F2R_pos (Zpos mx) ex ltac:(lia)) as Hpx.
    pose proof (F2R_pos (Zpos my) ey ltac:(lia)) as Hpy.
    assert (Hquot : (0 < F2R (Zpos mx) ex / F2R (Zpos my) ey)%R)
      by (apply Rdiv_lt_0_compat; assumption).
    rewrite !B2R_finite. exists (xorb sx sy). split.
    + replace (Rabs ((if sx then - F2R (Zpos mx) ex else F2R (Zpos mx) ex)
                     / (if sy then - F2R (Zpos my) ey else F2R (Zpos my) ey)))
        with (F2R (Zpos mx) ex / F2R (Zpos my) ey)%R.
      * unfold rounded.
        apply (binary_round_aux_correct prec emax Hprec); assumption.
      * symmetry. unfold Rdiv. rewrite Rabs_mult, Rabs_inv.
        destruct sx, sy; rewrite ?Rabs_Ropp, !Rabs_pos_eq by lra; reflexivity.
    + set (a := F2R (Zpos mx) ex) in *. set (b := F2R (Zpos my) ey) in *.
      destruct sx, sy; cbn [xorb].
      * replace (- a / - b)%R with (a / b)%R by (field; lra).
        split; intros; [reflexivity | lra].
      * replace (- a / b)%R with (- (a / b))%R by (field; lra).
        split; intros; [lra | reflexivity].
      * replace (a / - b)%R with (- (a / b))%R by (field; lra).
        split; intros; [lra | reflexivity].
      * split; intros; [reflexivity | lra].
Qed.

(** Canonical mantissas and exponents are ordered like the values. *)
Lemma canonical_lt (m1 e1 m2 e2 : Z) :
  0 < m1 -> 0 < m2 ->
  fexp (Zdigits2 m1 + e1) = e1 -> fexp (Zdigits2 m2 + e2) = e2 ->
  e1 < e2 -> (F2R m1 e1 < F2R m2 e2)%R.
Proof.
  intros H1 H2 Hc1 Hc2 He.
  destruct (canonical_inv m1 e1 H1 Hc1) as (Hu1 & Hmin1 & _).
  destruct (canonical_inv m2 e2 H2 Hc2) as (_ & _ & Hn2).
  specialize (Hn2 ltac:(lia)).
  assert (Hb1 : (F2R m1 e1 < bpow (prec + e1))%R)
    by (apply F2R_lt_bpow; exact Hu1).
  assert (Hb2 : (bpow (prec - 1 + e2) <= F2R m2 e2)%R)
    by (apply F2R_ge_bpow; lia).
  assert (Hb3 : (bpow (prec + e1) <= bpow (prec - 1 + e2))%R)
    by (apply bpow_le; lia).
  lra.
Qed.

Lemma magnitude_compare (m1 m2 : positive) (e1 e2 : Z) :
  fexp (Zdigits2 (Zpos m1) + e1) = e1 ->
  fexp (Zdigits2 (Zpos m2) + e2) = e2 ->
  match (match Z.compare e1 e2 with
         | Lt => Lt
         | Gt => Gt
         | Eq => Pos.compare_cont Eq m1 m2
         end) with
  | Lt => (F2R (Zpos m1) e1 < F2R (Zpos m2) e2)%R
  | Eq => F2R (Zpos m1) e1 = F2R (Zpos m2) e2
  | Gt => (F2R (Zpos m2) e2 < F2R (Zpos m1) e1)%R
  end.
Proof.
  intros Hc1 Hc2. destruct (Z.compare_spec e1 e2) as [E | Hlt | Hgt].
  - subst e2. change (Pos.compare_cont Eq m1 m2) with (Pos.compare m1 m2).
    pose proof (bpow_pos e1) as Hb. unfold F2R.
    destruct (Pos.compare_spec m1 m2) as [E | Hlt | Hgt].
    + subst. reflexivity.
    + assert (IZR (Zpos m1) < IZR (Zpos m2))%R by (apply IZR_lt; lia). nra.
    + assert (IZR (Zpos m2) < IZR (Zpos m1))%R by (apply IZR_lt; lia). nra.
  - apply canonical_lt; try lia; assumption.
  - apply canonical_lt; try lia; assumption.
Qed.

Lemma SFltb_spec (x y : spec_float) :
  good prec emax x -> good prec emax y ->
  (SFltb x y = true <-> (B2R x < B2R y)%R).
Proof.
  intros Hx Hy. unfold SFltb.
  destruct x as [sx | sx | | sx mx ex]; try (destruct Hx; discriminate);
    destruct y as [sy | sy | | sy my ey]; try (destruct Hy; discriminate);
    cbn [SFcompare].
  - simpl. split; [discriminate | lra].
  - pose proof (F2R_pos (Zpos my) ey ltac:(lia)).
    rewrite B2R_finite. cbn [B2R].
    destruct sy; split; intros; try discriminate; try reflexivity; lra.
  - pose proof (F2R_pos (Zpos mx) ex ltac:(lia)).
    rewrite B2R_finite. cbn [B2R].
    destruct sx; split; intros; try discriminate; try reflexivity; lra.
  - pose proof (F2R_pos (Zpos mx) ex ltac:(lia)).
    pose proof (F2R_pos (Zpos my) ey ltac:(lia)).
    pose proof (good_valid_finite _ _ _ Hx) as Hcx.
    pose proof (good_valid_finite _ _ _ Hy) as Hcy.
    rewrite !B2R_finite.
    destruct sx, sy.
    + pose proof (magnitude_compare mx my ex ey Hcx Hcy) as Hc.
      destruct (ex ?= ey); [destruct (Pos.compare_cont Eq mx my) | |];
        cbn in Hc |- *;
        split; intros; try discriminate; try reflexivity; lra.
    + split; intros; [lra | reflexivity].
    + split; intros; [discriminate | lra].
    + pose proof (magnitude_compare mx my ex ey Hcx Hcy) as Hc.
      destruct (ex ?= ey); [destruct (Pos.compare_cont Eq mx my) | |];
        cbn in Hc |- *;
        split; intros; try discriminate; try reflexivity; lra.
Qed.

Lemma SFltb_false (x y : spec_float) :
  good prec emax x -> good prec emax y ->
  SFltb x y = false -> (B2R y <= B2R x)%R.
Proof.
  intros Hx Hy H. destruct (Rle_dec (B2R y) (B2R x)) as [Hle | Hgt];
    [exact Hle |].
  assert (Hlt : (B2R x < B2R y)%R) by lra.
  apply (SFltb_spec x y Hx Hy) in Hlt. congruence.
Qed.

(** A rounding of a number of the format is that number. *)
Lemma rounded_exact (s : bool) (res : spec_float) (K F : Z) :
  rounded prec emax s (F2R K F) res ->
  0 <= K -> (IZR K < bpow prec)%R -> emin <= F -> F <= emax - prec ->
  good prec emax res /\ B2R res = F2R (cond_Zopp s K) F.
Proof.
  intros H HK HKp HF HFm.
  destruct (rounded_good s _ res K F H HK HKp HF HFm (Rle_refl _))
    as (Hg & _).
  split; [exact Hg |].
  destruct H as (m & e & -> & Hm & Hc & Hup & Hlow).
  rewrite (finish_good_B2R s m e Hm Hg), !F2R_cond_Zopp.
  assert (E : F2R m e = F2R K F).
  { apply Rle_antisym; [apply Hup | apply Hlow]; try assumption; lra. }
  rewrite E. reflexivity.
Qed.

Lemma of_Z_exact (z : Z) :
  Z.abs z < 2 ^ prec ->
  good prec emax (binary_normalize prec emax z 0 false)
  /\ B2R (binary_normalize prec emax z 0 false) = IZR z.
Proof.
  intros Hz.
  assert (Hmin : emin <= 0) by (unfold SpecFloat.emin; lia).
  assert (Hmax : 0 <= emax - prec) by lia.
  destruct z as [| p | p]; cbn [binary_normalize].
  - split; [split; reflexivity | reflexivity].
  - destruct (rounded_exact false _ (Zpos p) 0 (binary_round_correct false p 0))
      as [Hg Hv]; try lia.
    + rewrite bpow_IZR by lia. apply IZR_lt. lia.
    + split; [exact Hg |]. rewrite Hv. cbn [cond_Zopp]. unfold F2R.
      rewrite bpow_0. ring.
  - destruct (rounded_exact true _ (Zpos p) 0 (binary_round_correct true p 0))
      as [Hg Hv]; try lia.
    + rewrite bpow_IZR by lia. apply IZR_lt. lia.
    + split; [exact Hg |]. rewrite Hv. cbn [cond_Zopp]. unfold F2R.
      rewrite bpow_0. change (Zneg p) with (- Zpos p). ring.
Qed.

Lemma SFadd_valid (x y : spec_float) :
  good prec emax x -> valid_binary prec emax y = true -> y <> S754_nan ->
  valid_binary prec emax (SFadd prec emax x y) = true
  /\ SFadd prec emax x y <> S754_nan.
Proof.
  intros Hx Hy Hn. destruct y as [sy | sy | | sy my ey].
  - apply rounds_valid with (w := (B2R x + B2R (S754_zero sy))%R).
    apply SFadd_rounds; [exact Hx | split; auto].
  - destruct x as [sx | sx | | sx mx ex]; try (destruct Hx; discriminate);
      cbn [SFadd]; split; [reflexivity | discriminate | reflexivity | discriminate].
  - contradiction Hn. reflexivity.
  - apply rounds_valid with (w := (B2R x + B2R (S754_finite sy my ey))%R).
    apply SFadd_rounds; [exact Hx | split; auto].
Qed.

End Format.

(** [std::clamp] of anything but a NaN between two numbers of the format
    is a number of the format between them. *)
Lemma clamp_bounds (prec emax : Z) (v lo hi : spec_float) :
  0 < prec -> prec < emax ->
  valid_binary prec emax v = true -> v <> S754_nan ->
  good prec emax lo -> good prec emax hi -> (B2R lo <= B2R hi)%R ->
  good prec emax (clamp v lo hi)
  /\ (B2R lo <= B2R (clamp v lo hi) <= B2R hi)%R.
Proof.
  intros Hprec Hemax Hvalid Hnan Hlo Hhi Hle. unfold clamp, flt.
  destruct v as [s | s | | s m e].
  - assert (Hv : good prec emax (S754_zero s)) by (split; auto).
    destruct (SFltb (S754_zero s) lo) eqn:E1; [split; [assumption | lra] |].
    apply SFltb_false with (prec := prec) (emax := emax) in E1;
      try assumption.
    destruct (SFltb hi (S754_zero s)) eqn:E2; [split; [assumption | lra] |].
    apply SFltb_false with (prec := prec) (emax := emax) in E2;
      try assumption.
    split; [assumption | lra].
  - destruct lo as [sl | sl | | sl ml el]; try (destruct Hlo; discriminate);
      destruct hi as [sh | sh | | sh mh eh]; try (destruct Hhi; discriminate);
      destruct s; unfold SFltb; cbn [SFcompare];
      (split; [assumption | lra]).
  - contradiction Hnan. reflexivity.
  - assert (Hv : good prec emax (S754_finite s m e)) by (split; auto).
    destruct (SFltb (S754_finite s m e) lo) eqn:E1;
      [split; [assumption | lra] |].
    apply SFltb_false with (prec := prec) (emax := emax) in E1;
      try assumption.
    destruct (SFltb hi (S754_finite s m e)) eqn:E2;
      [split; [assumption | lra] |].
    apply SFltb_false with (prec := prec) (emax := emax) in E2;
      try assumption.
    split; [assumption | lra].
Qed.

(** A finite value between the [int16_t] bounds converts, to a sample
    between them. *)
Lemma to_int16_bounds (x : spec_float) :
  finite_or_zero x = true ->
  (IZR SHRT_MIN <= B2R x <= IZR SHRT_MAX)%R ->
  exists z, to_int16 x = Some z /\ in_int16 z.
Proof.
  intros Hf Hb. unfold to_int16, in_int16.
  destruct x as [s | s | | s m e]; try discriminate Hf; cbn [truncate bind].
  - exists 0. unfold SHRT_MIN, SHRT_MAX. simpl. split; [reflexivity | lia].
  - set (t := match e with
              | Z.neg p => Z.pos m / 2 ^ Z.pos p
              | _ => Z.pos m * 2 ^ e
              end).
    assert (Ht : 0 <= t /\ (IZR t <= F2R (Zpos m) e)%R).
    { subst t. destruct e as [| p | p].
      - split; [lia |]. unfold F2R. rewrite bpow_0, mult_IZR. simpl. lra.
      - split; [pose proof (Z.pow_pos_nonneg 2 (Zpos p)); lia |].
        replace (Zpos m * 2 ^ Zpos p) with (Zpos m * 2 ^ Zpos p * 2 ^ 0)
          by (rewrite Z.pow_0_r; lia).
        change (IZR (Zpos m * 2 ^ Zpos p * 2 ^ 0))
          with (IZR (Zpos m * 2 ^ Zpos p * 1)).
        rewrite Z.mul_1_r.
        rewrite <- (Z.add_0_l (Zpos p)) at 2.
        rewrite <- F2R_shift by lia. unfold F2R. rewrite bpow_0. lra.
      - assert (Hp : 0 < 2 ^ Zpos p) by (apply Z.pow_pos_nonneg; lia).
        split; [apply Z.div_pos; lia |].
        assert (Hq : Zpos m / 2 ^ Zpos p * 2 ^ Zpos p <= Zpos m).
        { rewrite Z.mul_comm. apply Z.mul_div_le. lia. }
        apply IZR_le in Hq. rewrite mult_IZR, <- bpow_IZR in Hq by lia.
        unfold F2R. change (Z.neg p) with (- Zpos p). rewrite bpow_opp.
        pose proof (bpow_pos (Zpos p)) as Hbp.
        apply (Rmult_le_reg_r (bpow (Zpos p))); [exact Hbp |].
        rewrite Rmult_assoc, Rinv_l by lra. lra. }
    destruct Ht as [Ht0 Ht1].
    rewrite B2R_finite in Hb.
    assert (Hz : SHRT_MIN <= cond_Zopp s t <= SHRT_MAX).
    { destruct s; cbn [cond_Zopp].
      - assert (IZR t <= IZR 32768)%R by (unfold SHRT_MIN in Hb; lra).
        apply le_IZR in H. unfold SHRT_MIN, SHRT_MAX. lia.
      - assert (IZR t <= IZR SHRT_MAX)%R by lra.
        apply le_IZR in H. unfold SHRT_MIN, SHRT_MAX in *. lia. }
    exists (cond_Zopp s t). split; [| exact Hz].
    destruct (Z.leb_spec SHRT_MIN (cond_Zopp s t)); [| lia].
    destruct (Z.leb_spec (cond_Zopp s t) SHRT_MAX); [| lia].
    reflexivity.
Qed.

(** ** The two formats of the program *)

Lemma prec32_pos : 0 < F32.prec.
Proof. reflexivity. Qed.
Lemma emax32_big : F32.prec < F32.emax.
Proof. reflexivity. Qed.
Lemma prec64_pos : 0 < F64.prec.
Proof. reflexivity. Qed.
Lemma emax64_big : F64.prec < F64.emax.
Proof. reflexivity. Qed.

Ltac fmt :=
  first [ exact prec32_pos | exact emax32_big
        | exact prec64_pos | exact emax64_big ].

(** Widening is exact. *)
Lemma of_float_exact (x : spec_float) :
  good F32.prec F32.emax x ->
  good F64.prec F64.emax (F64.of_float x) /\ B2R (F64.of_float x) = B2R x.
Proof.
  intros Hx. destruct x as [s | s | | s m e]; try (destruct Hx; discriminate).
  - split; [split; reflexivity | reflexivity].
  - destruct (good_finite_inv F32.prec F32.emax prec32_pos s m e Hx)
      as (H1 & H2 & H3 & _).
    cbn [F64.of_float B2R].
    apply rounded_exact with (prec := F64.prec) (emax := F64.emax) (s := s)
                             (K := Zpos m) (F := e); try fmt.
    + apply binary_round_correct; fmt.
    + lia.
    + eapply Rlt_le_trans; [exact H1 |]. apply bpow_le.
      unfold F32.prec, F64.prec. lia.
    + unfold SpecFloat.emin, F32.prec, F32.emax, F64.prec, F64.emax in *. lia.
    + unfold F32.prec, F32.emax, F64.prec, F64.emax in *. lia.
Qed.

(** Narrowing rounds. *)
Lemma of_double_rounds (x : spec_float) :
  good F64.prec F64.emax x ->
  rounds F32.prec F32.emax (B2R x) (F32.of_double x).
Proof.
  intros Hx. destruct x as [s | s | | s m e]; try (destruct Hx; discriminate).
  - apply rounds_zero.
  - cbn [F32.of_double]. rewrite B2R_finite.
    pose proof (F2R_pos (Zpos m) e ltac:(lia)) as Hpos.
    exists s. split.
    + replace (Rabs (if s then (- F2R (Z.pos m) e)%R else F2R (Z.pos m) e))
        with (F2R (Zpos m) e)
        by (destruct s; [rewrite Rabs_Ropp |]; rewrite Rabs_pos_eq; lra).
      apply binary_round_correct; fmt.
    + destruct s; split; intros; try reflexivity; lra.
Qed.

Lemma F32_of_Z_exact (z : Z) :
  Z.abs z < 2 ^ 24 ->
  good F32.prec F32.emax (F32.of_Z z) /\ B2R (F32.of_Z z) = IZR z.
Proof. apply of_Z_exact; fmt. Qed.

Lemma F64_of_Z_exact (z : Z) :
  Z.abs z < 2 ^ 53 ->
  good F64.prec F64.emax (F64.of_Z z) /\ B2R (F64.of_Z z) = IZR z.
Proof. apply of_Z_exact; fmt. Qed.

Lemma is_float_good (x : spec_float) :
  is_float x = true <-> good F32.prec F32.emax x.
Proof. unfold is_float, good. rewrite andb_true_iff. reflexivity. Qed.

Lemma between_spec (lo hi x : spec_float) :
  good F32.prec F32.emax lo -> good F32.prec F32.emax hi ->
  between lo hi x = true <->
  good F32.prec F32.emax x /\ (B2R lo <= B2R x <= B2R hi)%R.
Proof.
  intros Hlo Hhi. unfold between. rewrite !andb_true_iff, !negb_true_iff, is_float_good.
  unfold flt. split.
  - intros [[Hx H1] H2]. split; [exact Hx |]. split.
    + apply SFltb_false with (prec := F32.prec) (emax := F32.emax);
        try assumption; fmt.
    + apply SFltb_false with (prec := F32.prec) (emax := F32.emax);
        try assumption; fmt.
  - intros [Hx [H1 H2]]. split; [split; [exact Hx |] |].
    + destruct (SFltb x lo) eqn:E; [| reflexivity].
      apply SFltb_spec with (prec := F32.prec) (emax := F32.emax) in E;
        try assumption; try fmt. lra.
    + destruct (SFltb hi x) eqn:E; [| reflexivity].
      apply SFltb_spec with (prec := F32.prec) (emax := F32.emax) in E;
        try assumption; try fmt. lra.
Qed.

Lemma in_sample_range_spec (x : spec_float) :
  in_sample_range x = true <->
  good F32.prec F32.emax x /\ (IZR SHRT_MIN <= B2R x <= IZR SHRT_MAX)%R.
Proof.
  unfold in_sample_range.
  destruct (F32_of_Z_exact SHRT_MIN ltac:(reflexivity)) as [Hg1 Hv1].
  destruct (F32_of_Z_exact SHRT_MAX ltac:(reflexivity)) as [Hg2 Hv2].
  rewrite (between_spec _ _ x Hg1 Hg2), Hv1, Hv2. reflexivity.
Qed.

Lemma in_unit_spec (x : spec_float) :
  in_unit x = true <->
  good F32.prec F32.emax x /\ (0 <= B2R x <= 1)%R.
Proof.
  unfold in_unit.
  destruct (F32_of_Z_exact 0 ltac:(reflexivity)) as [Hg1 Hv1].
  destruct (F32_of_Z_exact 1 ltac:(reflexivity)) as [Hg2 Hv2].
  change (F32.of_Z 0) with fzero in *.
  rewrite (between_spec _ _ x Hg1 Hg2), Hv1, Hv2. reflexivity.
Qed.

Module LowPassFacts.
Import LowPass.

Lemma smooth_in_range (rc acc : spec_float) (x : Z) :
  in_unit rc = true -> is_float acc = true -> in_int16 x ->
  in_sample_range (smooth rc acc x) = true.
Proof.
  intros Hrc Hacc Hx. apply in_unit_spec in Hrc. destruct Hrc as [Hrc Hrcv].
  apply is_float_good in Hacc. unfold in_int16, SHRT_MIN, SHRT_MAX in Hx.
  unfold smooth.
  (* the float product data[i] * rc *)
  destruct (F32_of_Z_exact x ltac:(lia)) as [Hxf Hxv].
  destruct (F32_of_Z_exact 32768 ltac:(reflexivity)) as [Hbg Hbv].
  assert (HP : good F32.prec F32.emax (F32.mul (F32.of_Z x) rc)).
  { apply rounds_good with (w := (B2R (F32.of_Z x) * B2R rc)%R)
                           (bmax := F32.of_Z 32768); try fmt.
    - apply SFmul_rounds; try assumption; fmt.
    - exact Hbg.
    - rewrite Hxv, Hbv, Rabs_mult, (Rabs_pos_eq 32768) by lra.
      assert (Rabs (IZR x) <= 32768)%R.
      { apply Rabs_le. split; [apply (IZR_le (-32768)) | apply (IZR_le _ 32768)];
          lia. }
      assert (Rabs (B2R rc) <= 1)%R by (apply Rabs_le; lra).
      pose proof (Rabs_pos (IZR x)). pose proof (Rabs_pos (B2R rc)). nra. }
  destruct (of_float_exact _ HP) as [HA _].
  (* 1.0 - rc *)
  destruct (of_float_exact _ Hrc) as [Hrcd Hrcdv].
  destruct (F64_of_Z_exact 1 ltac:(reflexivity)) as [H1g H1v].
  assert (Ht : good F64.prec F64.emax
                 (F64.sub (F64.of_Z 1) (F64.of_float rc))).
  { apply rounds_good with (w := (B2R (F64.of_Z 1) - B2R (F64.of_float rc))%R)
                           (bmax := F64.of_Z 1); try fmt.
    - apply SFsub_rounds; try assumption; fmt.
    - exact H1g.
    - rewrite H1v, Hrcdv. rewrite (Rabs_pos_eq 1) by lra. apply Rabs_le. lra. }
  (* value[j] * (1.0 - rc) *)
  destruct (of_float_exact _ Hacc) as [Haccd _].
  assert (HB : valid_binary F64.prec F64.emax
                 (F64.mul (F64.of_float acc)
                          (F64.sub (F64.of_Z 1) (F64.of_float rc))) = true
               /\ F64.mul (F64.of_float acc)
                          (F64.sub (F64.of_Z 1) (F64.of_float rc))
                  <> S754_nan).
  { apply rounds_valid
      with (w := (B2R (F64.of_float acc)
                  * B2R (F64.sub (F64.of_Z 1) (F64.of_float rc)))%R);
      try fmt.
    apply SFmul_rounds; try assumption; fmt. }
  destruct HB as [HBv HBn].
  (* the sum and the clamp *)
  assert (HS : valid_binary F64.prec F64.emax
                 (F64.add (F64.of_float (F32.mul (F32.of_Z x) rc))
                    (F64.mul (F64.of_float acc)
                       (F64.sub (F64.of_Z 1) (F64.of_float rc)))) = true
               /\ F64.add (F64.of_float (F32.mul (F32.of_Z x) rc))
                    (F64.mul (F64.of_float acc)
                       (F64.sub (F64.of_Z 1) (F64.of_float rc)))
                  <> S754_nan)
    by (apply SFadd_valid; try assumption; fmt).
  destruct HS as [HSv HSn].
  destruct (F64_of_Z_exact SHRT_MIN ltac:(reflexivity)) as [Hlog Hlov].
  destruct (F64_of_Z_exact SHRT_MAX ltac:(reflexivity)) as [Hhig Hhiv].
  destruct (clamp_bounds F64.prec F64.emax _ _ _ prec64_pos emax64_big
              HSv HSn Hlog Hhig) as [Hcg Hcv].
  { rewrite Hlov, Hhiv. unfold SHRT_MIN, SHRT_MAX. lra. }
  rewrite Hlov, Hhiv in Hcv. unfold SHRT_MIN, SHRT_MAX in Hcv.
  (* the narrowing *)
  set (c := clamp _ _ _) in *.
  pose proof (of_double_rounds c Hcg) as Hr.
  destruct (F32_of_Z_exact SHRT_MIN ltac:(reflexivity)) as [Hmin Hminv].
  destruct (F32_of_Z_exact SHRT_MAX ltac:(reflexivity)) as [Hmaxg Hmaxv].
  assert (Hres : good F32.prec F32.emax (F32.of_double c)).
  { apply rounds_good with (w := B2R c) (bmax := F32.of_Z 32768); try fmt.
    - exact Hr.
    - exact Hbg.
    - rewrite Hbv, (Rabs_pos_eq 32768) by lra. apply Rabs_le. lra. }
  apply in_sample_range_spec. split; [exact Hres |]. split.
  - rewrite <- Hminv.
    apply rounds_ge with (prec := F32.prec) (emax := F32.emax) (w := B2R c);
      try assumption; try fmt.
    rewrite Hminv. unfold SHRT_MIN. lra.
  - rewrite <- Hmaxv.
    apply rounds_le with (prec := F32.prec) (emax := F32.emax) (w := B2R c);
      try assumption; try fmt.
    rewrite Hmaxv. unfold SHRT_MAX. lra.
Qed.

Lemma in_sample_range_float (x : spec_float) :
  in_sample_range x = true -> is_float x = true.
Proof.
  unfold in_sample_range, between. rewrite !andb_true_iff. intros [[H _] _]. exact H.
Qed.

Lemma Forall_firstn {A : Type} (P : A -> Prop) (n : nat) (l : list A) :
  Forall P l -> Forall P (firstn n l).
Proof.
  revert l. induction n as [| n IH]; intros l H; [constructor |].
  destruct H as [| x l Hx Hl]; simpl; constructor; auto.
Qed.

Lemma Forall_skipn {A : Type} (P : A -> Prop) (n : nat) (l : list A) :
  Forall P l -> Forall P (skipn n l).
Proof.
  revert l. induction n as [| n IH]; intros l H; [exact H |].
  destruct H as [| x l Hx Hl]; simpl; [constructor | auto].
Qed.

Lemma Forall_store (data data' : list Z) (i v : Z) :
  Forall in_int16 data -> in_int16 v -> store data i v = Some data' ->
  Forall in_int16 data' /\ len data' = len data.
Proof.
  intros Hd Hv H. unfold store in H.
  destruct (blit_len _ _ _ _ H) as (Hl & Hi & Hb).
  rewrite blit_some in H by assumption. injection H as <-.
  split; [| exact Hl].
  apply Forall_app. split; [apply Forall_firstn, Hd |].
  constructor; [exact Hv |]. apply Forall_skipn, Hd.
Qed.

(** One stage over the block keeps the accumulator and every sample in
    range. *)
Lemma stage_in_range (rc : spec_float) (n : nat) :
  forall (i : Z) (acc : spec_float) (data : list Z),
    in_unit rc = true -> in_sample_range acc = true ->
    Forall in_int16 data -> 0 <= i -> i + Z.of_nat n <= len data ->
    exists acc' data',
      stage rc n i acc data = Some (acc', data')
      /\ in_sample_range acc' = true
      /\ Forall in_int16 data' /\ len data' = len data.
Proof.
  induction n as [| n IH]; intros i acc data Hrc Hacc Hd Hi Hn.
  - exists acc, data. simpl. auto.
  - cbn [stage].
    destruct (nth_error data (Z.to_nat i)) as [x |] eqn:Ex.
    2:{ apply nth_error_None in Ex. unfold len in Hn. lia. }
    assert (Hx : in_int16 x).
    { rewrite Forall_forall in Hd. apply Hd. eapply nth_error_In, Ex. }
    cbn [bind].
    pose proof (smooth_in_range rc acc x Hrc
                  (in_sample_range_float _ Hacc) Hx) as Hacc1.
    pose proof Hacc1 as Hacc1'. apply in_sample_range_spec in Hacc1'.
    destruct Hacc1' as [[_ Hfin] Hb].
    destruct (to_int16_bounds _ Hfin Hb) as (v & Ev & Hv).
    rewrite Ev. cbn [bind].
    rewrite SawToothFacts.store_some by lia. cbn [bind].
    destruct (Forall_store data _ i v Hd Hv
                (SawToothFacts.store_some data i v ltac:(lia)))
      as [Hd1 Hl1].
    destruct (IH (i + 1) (smooth rc acc x) _ Hrc Hacc1 Hd1 ltac:(lia))
      as (acc' & data' & E & Ha' & Hd' & Hl').
    { rewrite Hl1. lia. }
    exists acc', data'. rewrite E. repeat split; try assumption. congruence.
Qed.

Lemma smoothed_rc_in_unit (rc rc_v : spec_float) :
  is_float rc = true -> is_float rc_v = true ->
  in_unit (clamp (F32.mul rc rc_v) fzero (F32.of_Z 1)) = true.
Proof.
  intros Hrc Hrv. apply is_float_good in Hrc, Hrv.
  assert (Hp : valid_binary F32.prec F32.emax (F32.mul rc rc_v) = true
               /\ F32.mul rc rc_v <> S754_nan).
  { apply rounds_valid with (w := (B2R rc * B2R rc_v)%R); try fmt.
    apply SFmul_rounds; try assumption; fmt. }
  destruct Hp as [Hpv Hpn].
  destruct (F32_of_Z_exact 0 ltac:(reflexivity)) as [Hg0 Hv0].
  destruct (F32_of_Z_exact 1 ltac:(reflexivity)) as [Hg1 Hv1].
  change (F32.of_Z 0) with fzero in *.
  destruct (clamp_bounds F32.prec F32.emax _ _ _ prec32_pos emax32_big
              Hpv Hpn Hg0 Hg1) as [Hcg Hcv].
  { rewrite Hv0, Hv1. lra. }
  apply in_unit_spec. split; [exact Hcg |]. rewrite Hv0, Hv1 in Hcv. exact Hcv.
Qed.

(** C7.  From a filter state whose coefficient and target are finite and
    whose four accumulators are within the [int16_t] range, [tick] on a
    block of [int16_t] samples is defined, every sample of the block
    afterwards is within the [int16_t] range, each of the four accumulators
    is again within that range, and the smoothed coefficient is in
    [0, 1]. *)
Theorem tick_stays_in_sample_range (s : t) (data : list Z) (count : Z) :
  is_float (rc s) = true -> is_float (rc_v s) = true ->
  in_sample_range (value0 s) = true -> in_sample_range (value1 s) = true ->
  in_sample_range (value2 s) = true -> in_sample_range (value3 s) = true ->
  Forall in_int16 data -> 0 <= count <= len data ->
  exists s' data',
    tick s data count = Some (s', data')
    /\ Forall in_int16 data' /\ len data' = len data
    /\ in_sample_range (value0 s') = true
    /\ in_sample_range (value1 s') = true
    /\ in_sample_range (value2 s') = true
    /\ in_sample_range (value3 s') = true
    /\ in_unit (rc s') = true.
Proof.
  intros Hrc Hrv H0 H1 H2 H3 Hd Hc. unfold tick.
  pose proof (smoothed_rc_in_unit _ _ Hrc Hrv) as Hu.
  set (rc' := clamp (F32.mul (rc s) (rc_v s)) fzero (F32.of_Z 1)) in *.
  assert (Hn : 0 + Z.of_nat (Z.to_nat count) <= len data) by lia.
  destruct (stage_in_range rc' (Z.to_nat count) 0 _ data Hu H0 Hd
              ltac:(lia) Hn) as (v0 & d0 & -> & Hv0 & Hd0 & Hl0).
  cbn [bind]. rewrite <- Hl0 in Hn.
  destruct (stage_in_range rc' (Z.to_nat count) 0 _ d0 Hu H1 Hd0
              ltac:(lia) Hn) as (v1 & d1 & -> & Hv1 & Hd1 & Hl1).
  cbn [bind]. rewrite <- Hl1 in Hn.
  destruct (stage_in_range rc' (Z.to_nat count) 0 _ d1 Hu H2 Hd1
              ltac:(lia) Hn) as (v2 & d2 & -> & Hv2 & Hd2 & Hl2).
  cbn [bind]. rewrite <- Hl2 in Hn.
  destruct (stage_in_range rc' (Z.to_nat count) 0 _ d2 Hu H3 Hd2
              ltac:(lia) Hn) as (v3 & d3 & -> & Hv3 & Hd3 & Hl3).
  cbn [bind].
  eexists. eexists. split; [reflexivity |]. cbn [value0 value1 value2 value3 rc].
  repeat split; try assumption. congruence.
Qed.

Lemma tick_stays_in_sample_range_witness :
  exists s' data',
    tick init [32767; -32768; 12; 0] 4 = Some (s', data')
    /\ Forall in_int16 data'.
Proof.
  destruct (tick_stays_in_sample_range init [32767; -32768; 12; 0] 4)
    as (s' & data' & E & Hd & _); try reflexivity.
  - repeat constructor; unfold in_int16, SHRT_MIN, SHRT_MAX; lia.
  - unfold len. simpl. lia.
  - exists s', data'. split; assumption.
Defined.

End LowPassFacts.

Lemma between_Z_spec (a b : Z) (x : spec_float) :
  Z.abs a < 2 ^ 24 -> Z.abs b < 2 ^ 24 ->
  between (F32.of_Z a) (F32.of_Z b) x = true <->
  good F32.prec F32.emax x /\ (IZR a <= B2R x <= IZR b)%R.
Proof.
  intros Ha Hb.
  destruct (F32_of_Z_exact a Ha) as [Hg1 Hv1].
  destruct (F32_of_Z_exact b Hb) as [Hg2 Hv2].
  rewrite (between_spec _ _ x Hg1 Hg2), Hv1, Hv2. reflexivity.
Qed.

Module OscillatorFacts.
Import SawTooth.

Lemma in_phase_spec (x : spec_float) :
  in_phase x = true <->
  good F32.prec F32.emax x /\ (-1 <= B2R x <= 1)%R.
Proof. apply (between_Z_spec (-1) 1); reflexivity. Qed.

(** One step of the phase: adding an increment in [0, 1] and wrapping
    keeps the phase in [-1, 1]. *)
Lemma wrap_step (value delta : spec_float) :
  in_phase value = true -> in_unit delta = true ->
  in_phase (wrap_phase (F32.add value delta)) = true.
Proof.
  intros Hv Hd. apply in_phase_spec in Hv. apply in_unit_spec in Hd.
  destruct Hv as [Hvg Hvb]. destruct Hd as [Hdg Hdb].
  destruct (F32_of_Z_exact 2 ltac:(reflexivity)) as [H2g H2v].
  destruct (F32_of_Z_exact (-1) ltac:(reflexivity)) as [Hm1g Hm1v].
  destruct (F32_of_Z_exact 1 ltac:(reflexivity)) as [H1g H1v].
  destruct (F32_of_Z_exact 0 ltac:(reflexivity)) as [H0g H0v].
  (* value + delta *)
  pose proof (SFadd_rounds F32.prec F32.emax prec32_pos
                _ _ Hvg Hdg) as Hr.
  fold (F32.add value delta) in Hr. set (x := F32.add value delta) in *.
  assert (Hxg : good F32.prec F32.emax x).
  { apply rounds_good with (w := (B2R value + B2R delta)%R)
                           (bmax := F32.of_Z 2); try fmt; try assumption.
    rewrite H2v, (Rabs_pos_eq 2) by lra. apply Rabs_le. lra. }
  assert (Hxlo : (-1 <= B2R x)%R).
  { rewrite <- Hm1v.
    apply rounds_ge with (prec := F32.prec) (emax := F32.emax)
                         (w := (B2R value + B2R delta)%R);
      try assumption; try fmt; try (rewrite Hm1v; lra). }
  assert (Hxhi : (B2R x <= 2)%R).
  { rewrite <- H2v.
    apply rounds_le with (prec := F32.prec) (emax := F32.emax)
                         (w := (B2R value + B2R delta)%R);
      try assumption; try fmt; try (rewrite H2v; lra). }
  (* the test value > 1.0 *)
  destruct (of_float_exact x Hxg) as [Hxd Hxdv].
  destruct (F64_of_Z_exact 1 ltac:(reflexivity)) as [H1d H1dv].
  destruct (F64_of_Z_exact 2 ltac:(reflexivity)) as [H2d H2dv].
  unfold wrap_phase, flt.
  destruct (SFltb (F64.of_Z 1) (F64.of_float x)) eqn:Etest.
  - apply SFltb_spec with (prec := F64.prec) (emax := F64.emax) in Etest;
      try assumption; try fmt.
    rewrite H1dv, Hxdv in Etest.
    (* value -= 2.0 *)
    pose proof (SFsub_rounds F64.prec F64.emax prec64_pos
                  _ _ Hxd H2d) as Hs.
    fold (F64.sub (F64.of_float x) (F64.of_Z 2)) in Hs.
    rewrite Hxdv, H2dv in Hs.
    set (y := F64.sub (F64.of_float x) (F64.of_Z 2)) in *.
    assert (Hyg : good F64.prec F64.emax y).
    { apply rounds_good with (w := (B2R x - 2)%R) (bmax := F64.of_Z 1);
        try fmt; try assumption.
      rewrite H1dv, (Rabs_pos_eq 1) by lra. apply Rabs_le. lra. }
    destruct (F64_of_Z_exact (-1) ltac:(reflexivity)) as [Hm1d Hm1dv].
    destruct (F64_of_Z_exact 0 ltac:(reflexivity)) as [H0d H0dv].
    assert (Hylo : (-1 <= B2R y)%R).
    { rewrite <- Hm1dv.
      apply rounds_ge with (prec := F64.prec) (emax := F64.emax)
                           (w := (B2R x - 2)%R);
        try assumption; try fmt; try (rewrite Hm1dv; lra). }
    assert (Hyhi : (B2R y <= 0)%R).
    { rewrite <- H0dv.
      apply rounds_le with (prec := F64.prec) (emax := F64.emax)
                           (w := (B2R x - 2)%R);
        try assumption; try fmt; try (rewrite H0dv; lra). }
    pose proof (of_double_rounds y Hyg) as Hn.
    assert (Hzg : good F32.prec F32.emax (F32.of_double y)).
    { apply rounds_good with (w := B2R y) (bmax := F32.of_Z 1);
        try fmt; try assumption.
      rewrite H1v, (Rabs_pos_eq 1) by lra. apply Rabs_le. lra. }
    apply in_phase_spec. split; [exact Hzg |]. split.
    + rewrite <- Hm1v.
      apply rounds_ge with (prec := F32.prec) (emax := F32.emax) (w := B2R y);
        try assumption; try fmt; try (rewrite Hm1v; lra).
    + apply Rle_trans with 0%R; [| lra]. rewrite <- H0v.
      apply rounds_le with (prec := F32.prec) (emax := F32.emax) (w := B2R y);
        try assumption; try fmt; try (rewrite H0v; lra).
  - apply SFltb_false with (prec := F64.prec) (emax := F64.emax) in Etest;
      try assumption; try fmt.
    rewrite H1dv, Hxdv in Etest.
    apply in_phase_spec. split; [exact Hxg |]. lra.
Qed.

(** A phase in [-1, 1] scaled by a volume in [0, 1] and by [SHRT_MAX]
    converts to a sample. *)
Lemma sample_of_in_range (value volume : spec_float) :
  in_phase value = true -> in_unit volume = true ->
  exists v, sample_of value volume = Some v /\ in_int16 v.
Proof.
  intros Hv Hvol. apply in_phase_spec in Hv. apply in_unit_spec in Hvol.
  destruct Hv as [Hvg Hvb]. destruct Hvol as [Hog Hob].
  destruct (F32_of_Z_exact 1 ltac:(reflexivity)) as [H1g H1v].
  destruct (F32_of_Z_exact (-1) ltac:(reflexivity)) as [Hm1g Hm1v].
  destruct (F32_of_Z_exact SHRT_MAX ltac:(reflexivity)) as [Hsg Hsv].
  destruct (F32_of_Z_exact (- SHRT_MAX) ltac:(reflexivity)) as [Hng Hnv].
  unfold sample_of.
  pose proof (SFmul_rounds F32.prec F32.emax prec32_pos emax32_big
                _ _ Hvg Hog) as Hr1.
  fold (F32.mul value volume) in Hr1. set (p := F32.mul value volume) in *.
  assert (Hw1 : (-1 <= B2R value * B2R volume <= 1)%R) by nra.
  assert (Hpg : good F32.prec F32.emax p).
  { apply rounds_good with (w := (B2R value * B2R volume)%R)
                           (bmax := F32.of_Z 1); try fmt; try assumption.
    rewrite H1v, (Rabs_pos_eq 1) by lra. apply Rabs_le. lra. }
  assert (Hpb : (-1 <= B2R p <= 1)%R).
  { split.
    - rewrite <- Hm1v.
      apply rounds_ge with (prec := F32.prec) (emax := F32.emax)
                           (w := (B2R value * B2R volume)%R);
        try assumption; try fmt; try (rewrite Hm1v; lra).
    - rewrite <- H1v.
      apply rounds_le with (prec := F32.prec) (emax := F32.emax)
                           (w := (B2R value * B2R volume)%R);
        try assumption; try fmt; try (rewrite H1v; lra). }
  pose proof (SFmul_rounds F32.prec F32.emax prec32_pos emax32_big
                _ _ Hpg Hsg) as Hr2.
  fold (F32.mul p (F32.of_Z SHRT_MAX)) in Hr2.
  set (q := F32.mul p (F32.of_Z SHRT_MAX)) in *.
  rewrite Hsv in Hr2. unfold SHRT_MAX in Hr2, Hsv, Hnv. simpl Z.opp in Hnv.
  assert (Hw2 : (-32767 <= B2R p * 32767 <= 32767)%R) by lra.
  assert (Hqg : good F32.prec F32.emax q).
  { apply rounds_good with (w := (B2R p * 32767)%R)
                           (bmax := F32.of_Z 32767); try fmt; try assumption.
    rewrite Hsv, (Rabs_pos_eq 32767) by lra. apply Rabs_le. lra. }
  assert (Hqb : (-32767 <= B2R q <= 32767)%R).
  { split.
    - rewrite <- Hnv.
      apply rounds_ge with (prec := F32.prec) (emax := F32.emax)
                           (w := (B2R p * 32767)%R);
        try assumption; try fmt; try (rewrite Hnv; lra).
    - rewrite <- Hsv.
      apply rounds_le with (prec := F32.prec) (emax := F32.emax)
                           (w := (B2R p * 32767)%R);
        try assumption; try fmt; try (rewrite Hsv; lra). }
  apply to_int16_bounds; [apply Hqg |]. unfold SHRT_MIN, SHRT_MAX. lra.
Qed.

(** A phase in [-1, 1] is not above 1: the wrap test leaves it alone. *)
Lemma in_phase_no_wrap (x : spec_float) :
  in_phase x = true -> flt (F64.of_Z 1) (F64.of_float x) = false.
Proof.
  intros H. apply in_phase_spec in H. destruct H as [Hg Hb].
  destruct (of_float_exact x Hg) as [Hd Hv].
  destruct (F64_of_Z_exact 1 ltac:(reflexivity)) as [H1 Hv1].
  unfold flt. destruct (SFltb (F64.of_Z 1) (F64.of_float x)) eqn:E;
    [| reflexivity].
  apply SFltb_spec with (prec := F64.prec) (emax := F64.emax) in E;
    try assumption; try fmt.
  rewrite Hv1, Hv in E. lra.
Qed.

(** The hold of a silent block from any state with a phase in [-1, 1] and
    a volume in [0, 1]: the held sample exists, is an [int16_t], and fills
    the block. *)
Lemma tick_holds_in_phase (s : t) (note : spec_float)
    (data : list Z) (count : Z) :
  truthy note = false ->
  in_phase (last s) = true -> in_unit (volume s) = true ->
  0 <= count <= len data ->
  exists v s',
    sample_of (last s) (volume s) = Some v /\ in_int16 v
    /\ tick s note data count
       = Some (s', repeat v (Z.to_nat count) ++ skipn (Z.to_nat count) data)
    /\ (last s' = last s
        \/ last s = S754_zero true /\ last s' = S754_zero false).
Proof.
  intros Hnote Hlast Hvol Hcount.
  destruct (sample_of_in_range _ _ Hlast Hvol) as (v & Ev & Hv).
  destruct (SawToothFacts.hold_block s note data count v Hnote
              (in_phase_no_wrap _ Hlast) Ev Hcount) as (s' & E & Hl).
  exists v, s'. auto.
Qed.

Lemma tenth_good :
  good F32.prec F32.emax (F32.div (F32.of_Z 1) (F32.of_Z 10)).
Proof. split; vm_compute; reflexivity. Qed.

Lemma in_tuning_range_float (x : spec_float) :
  in_tuning_range x = true -> is_float x = true.
Proof.
  unfold in_tuning_range, between. intros H.
  apply andb_true_iff in H. destruct H as [H _].
  apply andb_true_iff in H. apply H.
Qed.

(** The glide of the tuning: [std::clamp(tuning * tuning_v, 0.1f, 1000.0f)]
    is in the range whatever finite values are multiplied. *)
Lemma glide_in_tuning_range (tuning tuning_v : spec_float) :
  is_float tuning = true -> is_float tuning_v = true ->
  in_tuning_range
    (clamp (F32.mul tuning tuning_v)
           (F32.div (F32.of_Z 1) (F32.of_Z 10)) (F32.of_Z 1000)) = true.
Proof.
  intros Ht Hv. apply is_float_good in Ht, Hv.
  assert (Hp : valid_binary F32.prec F32.emax (F32.mul tuning tuning_v) = true
               /\ F32.mul tuning tuning_v <> S754_nan).
  { apply rounds_valid with (w := (B2R tuning * B2R tuning_v)%R); try fmt.
    apply SFmul_rounds; try assumption; fmt. }
  destruct Hp as [Hpv Hpn].
  destruct (F32_of_Z_exact 1000 ltac:(reflexivity)) as [Hgk Hvk].
  pose proof tenth_good as Hgt.
  assert (Hlt : (B2R (F32.div (F32.of_Z 1) (F32.of_Z 10))
                 < B2R (F32.of_Z 1000))%R).
  { apply SFltb_spec with (prec := F32.prec) (emax := F32.emax);
      try assumption; try fmt. vm_compute. reflexivity. }
  destruct (clamp_bounds F32.prec F32.emax _ _ _ prec32_pos emax32_big
              Hpv Hpn Hgt Hgk) as [Hcg Hcv]; [lra |].
  unfold in_tuning_range.
  apply between_spec; try assumption. split; assumption.
Qed.

(** The phase increment: for a frequency clamped to [10, 10000] the period
    [samples_per_sec / freq] is between 4 and 4410 samples, and [2.0 / period]
    narrowed to [float] is in [0, 1]. *)
Lemma increment_in_unit (tuning' note : spec_float) :
  is_float tuning' = true -> is_float note = true ->
  in_unit
    (F32.of_double
       (F64.div (F64.of_Z 2)
          (F64.of_float
             (F32.div (F32.of_Z samples_per_sec)
                (clamp (F32.mul tuning' note)
                       (F32.of_Z 10) (F32.of_Z 10000)))))) = true.
Proof.
  intros Ht Hn. apply is_float_good in Ht, Hn.
  assert (Hp : valid_binary F32.prec F32.emax (F32.mul tuning' note) = true
               /\ F32.mul tuning' note <> S754_nan).
  { apply rounds_valid with (w := (B2R tuning' * B2R note)%R); try fmt.
    apply SFmul_rounds; try assumption; fmt. }
  destruct Hp as [Hpv Hpn].
  destruct (F32_of_Z_exact 10 ltac:(reflexivity)) as [Hg10 Hv10].
  destruct (F32_of_Z_exact 10000 ltac:(reflexivity)) as [Hg10k Hv10k].
  destruct (clamp_bounds F32.prec F32.emax _ _ _ prec32_pos emax32_big
              Hpv Hpn Hg10 Hg10k) as [Hfg Hfv].
  { rewrite Hv10, Hv10k. lra. }
  rewrite Hv10, Hv10k in Hfv.
  set (freq := clamp (F32.mul tuning' note) (F32.of_Z 10) (F32.of_Z 10000))
    in *.
  (* period = samples_per_sec / freq *)
  destruct (F32_of_Z_exact samples_per_sec ltac:(reflexivity)) as [Hgs Hvs].
  destruct (F32_of_Z_exact 4 ltac:(reflexivity)) as [Hg4 Hv4].
  destruct (F32_of_Z_exact 4410 ltac:(reflexivity)) as [Hg4410 Hv4410].
  assert (Hnz : B2R freq <> 0%R) by lra.
  pose proof (SFdiv_rounds F32.prec F32.emax prec32_pos _ _ Hgs Hfg Hnz)
    as Hr.
  fold (F32.div (F32.of_Z samples_per_sec) freq) in Hr.
  set (period := F32.div (F32.of_Z samples_per_sec) freq) in *.
  rewrite Hvs in Hr. unfold samples_per_sec in Hr.
  assert (Hinv : (/ 10000 <= / B2R freq <= / 10)%R).
  { split; apply Rinv_le_contravar; lra. }
  assert (Hw : (4 <= 44100 / B2R freq <= 4410)%R).
  { unfold Rdiv. lra. }
  assert (Hpg : good F32.prec F32.emax period).
  { apply rounds_good with (w := (44100 / B2R freq)%R)
                           (bmax := F32.of_Z 4410); try fmt; try assumption.
    rewrite Hv4410, (Rabs_pos_eq 4410) by lra. apply Rabs_le. lra. }
  assert (Hplo : (4 <= B2R period)%R).
  { rewrite <- Hv4.
    apply rounds_ge with (prec := F32.prec) (emax := F32.emax)
                         (w := (44100 / B2R freq)%R);
      try assumption; try fmt; try (rewrite Hv4; lra). }
  (* delta = 2.0 / period, in double *)
  destruct (of_float_exact period Hpg) as [Hpd Hpdv].
  destruct (F64_of_Z_exact 2 ltac:(reflexivity)) as [H2d H2dv].
  destruct (F64_of_Z_exact 1 ltac:(reflexivity)) as [H1d H1dv].
  destruct (F64_of_Z_exact 0 ltac:(reflexivity)) as [H0d H0dv].
  assert (Hnzd : B2R (F64.of_float period) <> 0%R) by lra.
  pose proof (SFdiv_rounds F64.prec F64.emax prec64_pos _ _ H2d Hpd Hnzd)
    as Hq.
  fold (F64.div (F64.of_Z 2) (F64.of_float period)) in Hq.
  set (d := F64.div (F64.of_Z 2) (F64.of_float period)) in *.
  rewrite H2dv, Hpdv in Hq.
  assert (Hinv2 : (0 < / B2R period <= / 4)%R).
  { split; [apply Rinv_0_lt_compat; lra | apply Rinv_le_contravar; lra]. }
  assert (Hw2 : (0 <= 2 / B2R period <= 1)%R).
  { unfold Rdiv. lra. }
  assert (Hdg : good F64.prec F64.emax d).
  { apply rounds_good with (w := (2 / B2R period)%R) (bmax := F64.of_Z 1);
      try fmt; try assumption.
    rewrite H1dv, (Rabs_pos_eq 1) by lra. apply Rabs_le. lra. }
  assert (Hdb : (0 <= B2R d <= 1)%R).
  { split.
    - rewrite <- H0dv.
      apply rounds_ge with (prec := F64.prec) (emax := F64.emax)
                           (w := (2 / B2R period)%R);
        try assumption; try fmt; try (rewrite H0dv; lra).
    - rewrite <- H1dv.
      apply rounds_le with (prec := F64.prec) (emax := F64.emax)
                           (w := (2 / B2R period)%R);
        try assumption; try fmt; try (rewrite H1dv; lra). }
  (* narrowed to float *)
  destruct (F32_of_Z_exact 1 ltac:(reflexivity)) as [H1g H1v].
  destruct (F32_of_Z_exact 0 ltac:(reflexivity)) as [H0g H0v].
  pose proof (of_double_rounds d Hdg) as Hn32.
  assert (Hzg : good F32.prec F32.emax (F32.of_double d)).
  { apply rounds_good with (w := B2R d) (bmax := F32.of_Z 1);
      try fmt; try assumption.
    rewrite H1v, (Rabs_pos_eq 1) by lra. apply Rabs_le. lra. }
  apply in_unit_spec. split; [exact Hzg |]. split.
  - rewrite <- H0v.
    apply rounds_ge with (prec := F32.prec) (emax := F32.emax) (w := B2R d);
      try assumption; try fmt; try (rewrite H0v; lra).
  - rewrite <- H1v.
    apply rounds_le with (prec := F32.prec) (emax := F32.emax) (w := B2R d);
      try assumption; try fmt; try (rewrite H1v; lra).
Qed.

(** The loop of [tick]: with a volume and an increment in [0, 1] and a phase
    in [-1, 1], every store is defined and within the [int16_t] range. *)
Lemma fill_in_range (volume delta : spec_float) (n : nat) :
  forall (i : Z) (value : spec_float) (data : list Z),
    in_unit volume = true -> in_unit delta = true ->
    in_phase value = true ->
    Forall in_int16 data -> 0 <= i -> i + Z.of_nat n <= len data ->
    exists value' data',
      fill volume delta n i value data = Some (value', data')
      /\ in_phase value' = true
      /\ Forall in_int16 data' /\ len data' = len data.
Proof.
  induction n as [| n IH]; intros i value data Hvol Hdel Hval Hd Hi Hn.
  - exists value, data. simpl. auto.
  - cbn [fill].
    destruct (sample_of_in_range value volume Hval Hvol) as (v & Ev & Hv).
    rewrite Ev. cbn [bind].
    rewrite SawToothFacts.store_some by lia. cbn [bind].
    destruct (LowPassFacts.Forall_store data _ i v Hd Hv
                (SawToothFacts.store_some data i v ltac:(lia)))
      as [Hd1 Hl1].
    destruct (IH (i + 1) _ _ Hvol Hdel (wrap_step value delta Hval Hdel)
                Hd1 ltac:(lia))
      as (value' & data' & E & Hv' & Hd' & Hl').
    { rewrite Hl1. lia. }
    exists value', data'. rewrite E. repeat split; try assumption. congruence.
Qed.

Lemma fzero_in_unit : in_unit fzero = true.
Proof. vm_compute. reflexivity. Qed.

Lemma pattern_is_float (note : spec_float) :
  In note Sequencer.default_pattern -> is_float note = true.
Proof.
  intros H. unfold Sequencer.default_pattern in H. simpl In in H.
  repeat (destruct H as [<- | H]; [vm_compute; reflexivity |]).
  destruct H.
Qed.

(** [tick] from any state with finite tuning values, a volume in [0, 1] and
    a phase in [-1, 1], for any finite note. *)
Lemma tick_in_range (s : t) (note : spec_float) (data : list Z) (count : Z) :
  is_float (tuning_v s) = true -> is_float (tuning s) = true ->
  in_unit (volume s) = true -> in_phase (last s) = true ->
  is_float note = true ->
  Forall in_int16 data -> 0 <= count <= len data ->
  exists s' data',
    tick s note data count = Some (s', data')
    /\ Forall in_int16 data' /\ len data' = len data
    /\ in_phase (last s') = true
    /\ is_float (tuning s') = true
    /\ (truthy note = true -> in_tuning_range (tuning s') = true).
Proof.
  intros Htv Ht Hvol Hlast Hnote Hd Hc. unfold tick.
  assert (Hn : 0 + Z.of_nat (Z.to_nat count) <= len data) by lia.
  destruct (truthy note) eqn:En.
  - pose proof (glide_in_tuning_range _ _ Ht Htv) as Hg.
    set (tuning' := clamp (F32.mul (tuning s) (tuning_v s))
                          (F32.div (F32.of_Z 1) (F32.of_Z 10))
                          (F32.of_Z 1000)) in *.
    pose proof (increment_in_unit tuning' note
                  (in_tuning_range_float _ Hg) Hnote) as Hdel.
    cbv zeta.
    set (delta := F32.of_double _) in *.
    destruct (fill_in_range (volume s) delta (Z.to_nat count) 0 _ data
                Hvol Hdel (wrap_step _ _ Hlast Hdel) Hd ltac:(lia) Hn)
      as (value' & data' & E & Hv' & Hd' & Hl').
    rewrite E. cbn [bind].
    eexists. eexists. split; [reflexivity |]. cbn [last tuning].
    split; [assumption |]. split; [assumption |]. split; [assumption |].
    split; [apply in_tuning_range_float; assumption |]. intros _. assumption.
  - destruct (fill_in_range (volume s) fzero (Z.to_nat count) 0 _ data
                Hvol fzero_in_unit Hlast Hd ltac:(lia) Hn)
      as (value' & data' & E & Hv' & Hd' & Hl').
    rewrite E. cbn [bind].
    eexists. eexists. split; [reflexivity |]. cbn [last tuning].
    split; [assumption |]. split; [assumption |]. split; [assumption |].
    split; [assumption |]. intros H. discriminate H.
Qed.

(** C8.  For a tuning target in [0.1, 1000], a note of the pattern, a phase
    [last] in [-1, 1], a finite smoothed tuning and a volume in [0, 1],
    [tick] is defined and every sample of the block afterwards is within the
    [int16_t] range; the phase is again in [-1, 1] and the smoothed tuning is
    again finite. *)
Theorem tick_samples_in_int16
  (s : t) (note : spec_float) (data : list Z) (count : Z) :
  in_tuning_range (tuning_v s) = true ->
  In note Sequencer.default_pattern ->
  in_phase (last s) = true ->
  is_float (tuning s) = true -> in_unit (volume s) = true ->
  Forall in_int16 data -> 0 <= count <= len data ->
  exists s' data',
    tick s note data count = Some (s', data')
    /\ Forall in_int16 data' /\ len data' = len data
    /\ in_phase (last s') = true
    /\ is_float (tuning s') = true.
Proof.
  intros Htv Hnote Hlast Ht Hvol Hd Hc.
  destruct (tick_in_range s note data count
              (in_tuning_range_float _ Htv) Ht Hvol Hlast
              (pattern_is_float _ Hnote) Hd Hc)
    as (s' & data' & E & Hd' & Hl' & Hp' & Ht' & _).
  exists s', data'. repeat split; assumption.
Qed.

Lemma tick_samples_in_int16_witness :
  exists s' data',
    tick init (F32.of_Z 440) [0; 0; 0; 0] 4 = Some (s', data')
    /\ Forall in_int16 data'.
Proof.
  destruct (tick_samples_in_int16 init (F32.of_Z 440) [0; 0; 0; 0] 4)
    as (s' & data' & E & Hd & _); try (vm_compute; reflexivity).
  - left. reflexivity.
  - repeat constructor; unfold in_int16, SHRT_MIN, SHRT_MAX; lia.
  - unfold len. simpl. lia.
  - exists s', data'. split; assumption.
Defined.

End OscillatorFacts.

(** * What the rest of the program keeps to *)

(** ** CircularBuffer: what a caller can rely on *)

Module CircularBufferLaws.
Import CircularBuffer.
Import CircularBufferFacts.

Lemma copy_out_len (b b' : t) (dest dest' : list Z) (count short : Z) :
  copy_out b dest count = Some (b', dest', short) -> len dest' = len dest.
Proof.
  unfold copy_out. intros H.
  destruct (read_a b <? write_a b); copies;
    destruct (size b =? 0); try discriminate;
    injection H as <- <- <-; lia.
Qed.

Lemma run_total_witness :
  exists st,
    run (start 4) [CopyOut [0; 0] 2; CopyIn [1; 2; 3] 3; CopyOut [0; 0] 2]
    = Some st.
Proof.
  apply (run_total 4).
  - lia.
  - unfold size_max. lia.
  - repeat constructor; unfold size_max; lia.
Defined.

Lemma producer_never_laps_witness :
  produced (mkTally 3 2) - consumed (mkTally 3 2) <= Z.of_nat 4.
Proof.
  refine (proj1 (producer_never_laps 4
            [CopyOut [0; 0] 2; CopyIn [1; 2; 3] 3]
            (mk [1; 2; 3; 0] 3 2 false) (mkTally 3 2) _ _ _ _)).
  - lia.
  - unfold size_max. lia.
  - repeat constructor; unfold size_max; lia.
  - vm_compute. reflexivity.
Defined.

(** X3.  A read is defined whenever the caller's array holds [count]
    places.  It takes [min count occupied] samples, returns the rest of
    [count] as the shortfall, moves only the read cursor, and leaves the
    stored samples, the write cursor and the first-write flag as they were;
    the caller's array keeps its length. *)
Theorem copy_out_only_moves_the_reader (b : t) (dest : list Z) (count : Z) :
  wf b -> 0 <= count < size_max -> count <= len dest ->
  exists b' dest',
    copy_out b dest count
    = Some (b', dest', count - Z.min count (occupied b))
    /\ len dest' = len dest
    /\ read_a b' = (read_a b + Z.min count (occupied b)) mod size b
    /\ samples b' = samples b
    /\ write_a b' = write_a b
    /\ first b' = first b
    /\ wf b'.
Proof.
  intros Hwf Hc Hd.
  destruct (copy_out_total b dest count Hwf Hc Hd) as (b' & dest' & short & E).
  destruct (copy_out_cursors b b' dest dest' count short Hwf Hc E)
    as (Hs & Hr & Hw & Hf & Hsam).
  exists b', dest'. subst short.
  split; [exact E |].
  split; [exact (copy_out_len _ _ _ _ _ _ E) |].
  split; [exact Hr |]. split; [exact Hsam |]. split; [exact Hw |].
  split; [exact Hf |]. exact (copy_out_wf _ _ _ _ _ _ Hwf Hc E).
Qed.

Lemma copy_out_only_moves_the_reader_witness :
  exists b' dest',
    copy_out (mk [1; 2; 3; 4] 1 3 false) [0; 0; 0] 3 = Some (b', dest', 1)
    /\ samples b' = [1; 2; 3; 4] /\ write_a b' = 1.
Proof.
  destruct (copy_out_only_moves_the_reader (mk [1; 2; 3; 4] 1 3 false)
              [0; 0; 0] 3)
    as (b' & dest' & E & _ & _ & Hs & Hw & _).
  - constructor; cbn; unfold size_max; first [lia | discriminate].
  - unfold size_max. lia.
  - vm_compute. discriminate.
  - exists b', dest'. repeat split; assumption.
Defined.

(** X4.  The samples a read hands over are the stored ones in cursor
    order, round the end of the array: place [i] of the caller's array
    receives the sample [i] places on from the read cursor, for every
    sample taken; the places beyond keep what they held. *)
Theorem copy_out_takes_in_order (b b' : t) (dest dest' : list Z)
    (count short : Z) :
  wf b -> 0 <= count < size_max ->
  copy_out b dest count = Some (b', dest', short) ->
  (forall i, 0 <= i < count - short ->
     get dest' i = get (samples b) ((read_a b + i) mod size b))
  /\ (forall i, count - short <= i -> get dest' i = get dest i).
Proof.
  intros Hwf Hc E.
  destruct (copy_out_cursors b b' dest dest' count short Hwf Hc E)
    as (Hs & _).
  assert (Ho : 0 <= occupied b).
  { destruct Hwf as [Hsz Hr Hw _]. unfold occupied.
    destruct (read_a b <? write_a b) eqn:E1; to_prop; lia. }
  split; intros i Hi;
    rewrite (copy_out_data b b' dest dest' count short i Hwf Hc E) by lia.
  - destruct (Z.ltb_spec i (Z.min count (occupied b))); [reflexivity | lia].
  - destruct (Z.ltb_spec i (Z.min count (occupied b))); [lia | reflexivity].
Qed.

Lemma copy_out_takes_in_order_witness :
  get [4; 1; 0] 0 = get [1; 2; 3; 4] ((3 + 0) mod 4)
  /\ get [4; 1; 0] 1 = get [1; 2; 3; 4] ((3 + 1) mod 4).
Proof.
  destruct (copy_out_takes_in_order (mk [1; 2; 3; 4] 1 3 false)
              (mk [1; 2; 3; 4] 1 1 false) [0; 0; 0] [4; 1; 0] 3 1)
    as [H _].
  - constructor; cbn; unfold size_max; first [lia | discriminate].
  - unfold size_max. lia.
  - vm_compute. reflexivity.
  - split; apply H; lia.
Defined.

(** A short write ends with the cursors level. *)
Lemma short_write_levels (b b' : t) (src : list Z)
    (count short : Z) :
  wf b -> (first b = true -> read_a b = 0) -> 0 <= count < size_max ->
  copy_in b src count = Some (b', short) -> 0 < short ->
  write_a b' = read_a b'.
Proof.
  intros Hwf Hfirst Hc E Hshort.
  destruct (copy_in_cursors b b' src count short Hwf Hc E)
    as (Hs & Hw & Hr & _ & Hsz).
  pose proof Hwf as [Hsize Hrd Hwr Hf].
  rewrite Hw, Hr. unfold space in *.
  destruct (first b) eqn:Ef.
  - rewrite (Hf eq_refl), (Hfirst eq_refl).
    replace (0 + Z.min count (size b)) with (size b) by lia.
    apply Z_mod_same_full.
  - destruct (read_a b >? write_a b) eqn:E1; to_prop.
    + replace (write_a b + Z.min count (read_a b - write_a b))
        with (read_a b) by lia.
      apply Z.mod_small. lia.
    + destruct (read_a b <? write_a b) eqn:E2; to_prop.
      * replace (write_a b
                 + Z.min count (size b - write_a b + read_a b))
          with (read_a b + 1 * size b) by lia.
        rewrite Z.mod_add by lia. apply Z.mod_small. lia.
      * replace (write_a b + Z.min count 0) with (write_a b) by lia.
        rewrite Z.mod_small by lia. lia.
Qed.

(** X5.  After a write that comes back short the cursors are level and
    [has_space] answers [false]: the write has stored exactly [space]
    samples, which is all the room the code reckons, and the producer has
    to wait for the consumer.  This holds on every call after the first,
    and on the first call when the read cursor is at the origin.  (Level
    cursors are also what a drained buffer looks like: there [space] is
    zero and the short write has stored nothing.) *)
Theorem short_write_leaves_no_space (b b' : t) (src : list Z)
    (count short : Z) :
  wf b -> (first b = true -> read_a b = 0) -> 0 <= count < size_max ->
  copy_in b src count = Some (b', short) -> 0 < short ->
  count - short = space b
  /\ write_a b' = read_a b' /\ has_space b' = false
  /\ (first b = false -> read_a b = write_a b -> samples b' = samples b).
Proof.
  intros Hwf Hfirst Hc E Hshort.
  pose proof (short_write_levels b b' src count short Hwf Hfirst Hc E Hshort)
    as Hlevel.
  destruct (copy_in_cursors b b' src count short Hwf Hc E) as (Hs & _).
  split; [lia |]. split; [exact Hlevel |]. split.
  - unfold has_space. rewrite Hlevel, Z.eqb_refl. reflexivity.
  - intros Ef Elev. unfold copy_in in E.
    rewrite Ef, Elev, Z.gtb_ltb, Z.ltb_irrefl in E. cbn [bind] in E.
    destruct (size b =? 0); [discriminate |].
    injection E as <- _. reflexivity.
Qed.

Lemma short_write_leaves_no_space_witness :
  3 - 1 = space (mk [1; 2; 3; 4] 0 2 false)
  /\ has_space (mk [7; 8; 3; 4] 2 2 false) = false.
Proof.
  destruct (short_write_leaves_no_space
              (mk [1; 2; 3; 4] 0 2 false) (mk [7; 8; 3; 4] 2 2 false)
              [7; 8; 9] 3 1) as (H1 & _ & H2 & _).
  - constructor; cbn; unfold size_max; first [lia | discriminate].
  - discriminate.
  - unfold size_max. lia.
  - vm_compute. reflexivity.
  - lia.
  - split; [exact H1 | exact H2].
Defined.

(** X6.  Once a read has taken everything that was stored, the cursors are
    level, and on every call after the first that is what a full buffer
    looks like: [has_space] answers [false] and a write stores nothing and
    returns its whole count, until the consumer reads again. *)
Theorem drained_buffer_refuses_writes (b b1 : t) (dest dest' : list Z)
    (count short : Z) :
  wf b -> first b = false -> 0 <= count < size_max ->
  occupied b <= count ->
  copy_out b dest count = Some (b1, dest', short) ->
  has_space b1 = false
  /\ forall src n, 0 <= n < size_max -> n <= len src ->
       copy_in b1 src n = Some (b1, n).
Proof.
  intros Hwf Ef Hc Hocc E.
  destruct (copy_out_cursors b b1 dest dest' count short Hwf Hc E)
    as (Hs & Hr & Hw & Hf & Hsam).
  pose proof Hwf as [Hsize Hrd Hwr _].
  assert (Hlevel : read_a b1 = write_a b1).
  { rewrite Hr, Hw. replace (Z.min count (occupied b)) with (occupied b) by lia.
    unfold occupied. destruct (read_a b <? write_a b) eqn:E1; to_prop.
    - replace (read_a b + (write_a b - read_a b)) with (write_a b) by lia.
      apply Z.mod_small. lia.
    - replace (read_a b + (size b - read_a b + write_a b))
        with (write_a b + 1 * size b) by lia.
      rewrite Z.mod_add by lia. apply Z.mod_small. lia. }
  split.
  - unfold has_space. rewrite Hlevel, Z.eqb_refl. reflexivity.
  - intros src n Hn Hsrc. unfold copy_in.
    assert (Hsz1 : size b1 = size b) by (unfold size; rewrite Hsam; reflexivity).
    rewrite Hf, Ef, Hlevel, Z.ltb_irrefl.
    rewrite Z.gtb_ltb, Z.ltb_irrefl. cbn [bind].
    rewrite Hsz1.
    destruct (Z.eqb_spec (size b) 0) as [| _]; [lia |].
    rewrite uadd_small, usub_small by lia.
    rewrite Z.add_0_r, Z.sub_0_r, Z.mod_small by lia.
    destruct b1 as [s1 w1 r1 f1].
    cbn [samples write_a read_a first] in Hlevel, Hf |- *. congruence.
Qed.

Lemma drained_buffer_refuses_writes_witness :
  copy_in (mk [1; 2; 3; 4] 3 3 false) [9; 9] 2
  = Some (mk [1; 2; 3; 4] 3 3 false, 2).
Proof.
  refine (proj2 (drained_buffer_refuses_writes
            (mk [1; 2; 3; 4] 3 1 false) (mk [1; 2; 3; 4] 3 3 false)
            [0; 0] [2; 3] 2 0 _ _ _ _ _) [9; 9] 2 _ _).
  - constructor; cbn; unfold size_max; first [lia | discriminate].
  - reflexivity.
  - unfold size_max. lia.
  - vm_compute. discriminate.
  - vm_compute. reflexivity.
  - unfold size_max. lia.
  - vm_compute. discriminate.
Defined.

Lemma mod_by_laps (x c k : Z) : 0 <= x - k * c < c -> x mod c = x - k * c.
Proof.
  intros H. replace x with (x - k * c + k * c) at 1 by lia.
  rewrite Z.mod_add by lia. apply Z.mod_small. exact H.
Qed.

Lemma occupied_after_write (b b1 : t) (src : list Z) (count : Z) :
  wf b -> first b = false -> read_a b <> write_a b ->
  0 <= count <= space b -> count < size_max ->
  copy_in b src count = Some (b1, 0) ->
  occupied b1 = occupied b + count.
Proof.
  intros Hwf Ef Hne Hc Hmax E.
  destruct (copy_in_cursors b b1 src count 0 Hwf ltac:(lia) E)
    as (_ & Hw & Hr & _ & Hsz).
  pose proof Hwf as [Hsize Hrd Hwr _].
  rewrite (Z.min_l count (space b)) in Hw by lia.
  unfold occupied. rewrite Hw, Hr, Hsz.
  unfold space in Hc. rewrite Ef in Hc.
  destruct (read_a b >? write_a b) eqn:E1; to_prop.
  - rewrite (Z.mod_small (write_a b + count)) by lia.
    destruct (Z.ltb_spec (read_a b) (write_a b)); [lia |].
    destruct (Z.ltb_spec (read_a b) (write_a b + count)); lia.
  - destruct (read_a b <? write_a b) eqn:E2; to_prop; [| lia].
    destruct (Z.lt_ge_cases (write_a b + count) (size b)) as [Hlt | Hge].
    + rewrite (Z.mod_small (write_a b + count)) by lia.
      destruct (Z.ltb_spec (read_a b) (write_a b + count)); lia.
    + rewrite (mod_by_laps (write_a b + count) (size b) 1) by lia.
      destruct (Z.ltb_spec (read_a b) (write_a b + count - 1 * size b)); lia.
Qed.

(** X7.  First in, first out.  On a buffer that has been written to and
    whose cursors are not level, a write of [count] samples that fit is
    stored whole, and a read of everything then hands over the samples that
    were already stored, in order, followed by the [count] new samples, in
    order; neither call comes back short. *)
Theorem first_in_first_out (b : t) (src dest : list Z) (count : Z) :
  wf b -> first b = false -> read_a b <> write_a b ->
  0 <= count <= space b -> count <= len src ->
  len dest = occupied b + count ->
  exists b1 b2 dest',
    copy_in b src count = Some (b1, 0)
    /\ copy_out b1 dest (occupied b + count) = Some (b2, dest', 0)
    /\ (forall i, 0 <= i < occupied b ->
          get dest' i = get (samples b) ((read_a b + i) mod size b))
    /\ (forall i, 0 <= i < count -> get dest' (occupied b + i) = get src i).
Proof.
  intros Hwf Ef Hne Hc Hsrc Hdest.
  pose proof Hwf as [Hsize Hrd Hwr _].
  assert (Hsp : space b < size b /\ occupied b + space b = size b
                /\ 0 < occupied b).
  { unfold space, occupied. rewrite Ef.
    destruct (read_a b >? write_a b) eqn:E1; to_prop.
    - destruct (Z.ltb_spec (read_a b) (write_a b)); lia.
    - destruct (Z.ltb_spec (read_a b) (write_a b)); lia. }
  destruct Hsp as (Hsp1 & Hsp2 & Hsp3).
  assert (Hcm : 0 <= count < size_max) by lia.
  destruct (copy_in_total b src count Hwf Hcm Hsrc) as (b1 & short & E1).
  destruct (copy_in_cursors b b1 src count short Hwf Hcm E1)
    as (Hs1 & Hw1 & Hr1 & _ & Hsz1).
  replace (Z.min count (space b)) with count in * by lia.
  assert (Hs0 : short = 0) by lia. clear Hs1. subst short.
  pose proof (copy_in_wf _ _ _ _ _ Hwf Hcm E1) as Hwf1.
  pose proof (occupied_after_write b b1 src count Hwf Ef Hne Hc
                ltac:(lia) E1) as Hocc1.
  assert (Hn : 0 <= occupied b + count < size_max) by lia.
  destruct (copy_out_total b1 dest (occupied b + count) Hwf1 Hn ltac:(lia))
    as (b2 & dest' & short & E2).
  destruct (copy_out_cursors b1 b2 dest dest' _ short Hwf1 Hn E2)
    as (Hs2 & _).
  rewrite Hocc1, Z.min_id in Hs2.
  assert (Hs0 : short = 0) by lia. clear Hs2. subst short.
  exists b1, b2, dest'. split; [exact E1 |]. split; [exact E2 |].
  assert (Hget : forall i, 0 <= i < occupied b + count ->
            get dest' i
            = if (read_a b + i - write_a b) mod size b <? count
              then get src ((read_a b + i - write_a b) mod size b)
              else get (samples b) ((read_a b + i) mod size b)).
  { intros i Hi.
    rewrite (copy_out_data b1 b2 dest dest' _ 0 i Hwf1 Hn E2) by lia.
    rewrite Hocc1, Z.min_id.
    destruct (Z.ltb_spec i (occupied b + count)) as [_ |]; [| lia].
    rewrite Hr1, Hsz1.
    rewrite (copy_in_data b b1 src count 0 _ Hwf Hcm E1)
      by (apply Z.mod_pos_bound; lia).
    replace (Z.min count (space b)) with count by lia.
    rewrite Zminus_mod_idemp_l. reflexivity. }
  unfold occupied, space in *. rewrite Ef in *.
  split.
  - intros i Hi. rewrite Hget by lia.
    destruct (read_a b >? write_a b) eqn:E3; to_prop.
    + destruct (Z.ltb_spec (read_a b) (write_a b)); [lia |].
      rewrite (Z.mod_small (read_a b + i - write_a b)) by lia.
      destruct (Z.ltb_spec (read_a b + i - write_a b) count);
        [lia | reflexivity].
    + destruct (Z.ltb_spec (read_a b) (write_a b)); [| lia].
      rewrite (mod_by_laps (read_a b + i - write_a b) (size b) (-1)) by lia.
      destruct (Z.ltb_spec (read_a b + i - write_a b - -1 * size b) count);
        [lia | reflexivity].
  - intros i Hi. rewrite Hget by lia.
    destruct (read_a b >? write_a b) eqn:E3; to_prop.
    + destruct (Z.ltb_spec (read_a b) (write_a b)); [lia |].
      rewrite (mod_by_laps
                 (read_a b + (size b - read_a b + write_a b + i) - write_a b)
                 (size b) 1) by lia.
      match goal with |- (if ?c <? _ then _ else _) = _ =>
        replace c with i by lia end.
      destruct (Z.ltb_spec i count); [reflexivity | lia].
    + destruct (Z.ltb_spec (read_a b) (write_a b)); [| lia].
      rewrite (Z.mod_small
                 (read_a b + (write_a b - read_a b + i) - write_a b)) by lia.
      match goal with |- (if ?c <? _ then _ else _) = _ =>
        replace c with i by lia end.
      destruct (Z.ltb_spec i count); [reflexivity | lia].
Qed.

Lemma first_in_first_out_witness :
  exists b1 b2 dest',
    copy_in (mk [1; 2; 3; 4] 0 3 false) [7; 8] 2 = Some (b1, 0)
    /\ copy_out b1 [0; 0; 0] 3 = Some (b2, dest', 0)
    /\ get dest' 0 = 4 /\ get dest' 1 = 7 /\ get dest' 2 = 8.
Proof.
  destruct (first_in_first_out (mk [1; 2; 3; 4] 0 3 false) [7; 8] [0; 0; 0] 2)
    as (b1 & b2 & dest' & E1 & E2 & Hold & Hnew).
  - constructor; cbn; unfold size_max; first [lia | discriminate].
  - reflexivity.
  - cbn. lia.
  - vm_compute. split; discriminate.
  - vm_compute. discriminate.
  - reflexivity.
  - exists b1, b2, dest'. split; [exact E1 |]. split; [exact E2 |].
    split; [exact (Hold 0 ltac:(vm_compute; split; [discriminate | reflexivity])) |].
    split.
    + exact (Hnew 0 ltac:(lia)).
    + exact (Hnew 1 ltac:(lia)).
Defined.

End CircularBufferLaws.

(** ** Sequencer: any tempo *)

Module SequencerLaws.
Import Sequencer.

Lemma lengths_of_ok (s : t) :
  sequencer_ok s ->
  let bl := 60 * samples_per_sec / bpm s in
  beat_length s = Some bl /\ pattern_length s = Some (8 * bl)
  /\ 1 <= bl <= 60 * samples_per_sec.
Proof.
  intros (Hb & _). cbv zeta. unfold samples_per_sec in *.
  assert (Hbl : 1 <= 60 * 44100 / bpm s <= 60 * 44100).
  { split.
    - apply Z.div_le_lower_bound; lia.
    - apply Z.div_le_upper_bound; nia. }
  assert (E : beat_length s = Some (60 * 44100 / bpm s)).
  { unfold beat_length, wrap32, samples_per_sec.
    rewrite (Z.mod_small (bpm s)) by lia.
    destruct (Z.eqb_spec (bpm s) 0); [lia |].
    rewrite (Z.mod_small (60 * 44100)) by lia. reflexivity. }
  split; [exact E |]. split; [| exact Hbl].
  unfold pattern_length. rewrite E. cbn [bind]. unfold wrap32.
  rewrite Z.mod_small by lia. f_equal. lia.
Qed.

Lemma tick_of_ok (s : t) (count : Z) :
  sequencer_ok s ->
  let bl := 60 * samples_per_sec / bpm s in
  exists note,
    nth_error (pattern s) (Z.to_nat (sample s / bl)) = Some note
    /\ is_float note = true
    /\ tick s count
       = Some (note, mk (bpm s) (pattern s)
                        (uadd (sample s) count mod (8 * bl)))
    /\ sequencer_ok (mk (bpm s) (pattern s)
                        (uadd (sample s) count mod (8 * bl))).
Proof.
  intros Hok. destruct (lengths_of_ok s Hok) as (Ebl & Epl & Hbl).
  destruct Hok as (Hb & Hlen & Hfl & Hs). cbv zeta in *.
  set (bl := 60 * samples_per_sec / bpm s) in *.
  assert (Hidx : 0 <= sample s / bl < 8).
  { split; [apply Z.div_pos; lia |].
    apply Z.div_lt_upper_bound; lia. }
  destruct (nth_error (pattern s) (Z.to_nat (sample s / bl))) as [note |] eqn:En.
  2:{ apply nth_error_None in En. lia. }
  exists note. split; [reflexivity |]. split.
  { rewrite Forall_forall in Hfl. apply Hfl. eapply nth_error_In, En. }
  split.
  - unfold tick. rewrite Ebl, Epl. cbn [bind].
    destruct (Z.eqb_spec bl 0); [lia |]. rewrite En. cbn [bind].
    destruct (Z.eqb_spec (8 * bl) 0); [lia |]. reflexivity.
  - unfold sequencer_ok. cbn [bpm pattern sample]. fold bl.
    repeat split; try assumption; try lia;
      apply Z.mod_pos_bound; lia.
Qed.

(** X8.  For every tempo from 1 to 2646000 beats per minute, [tick] is
    defined: the beat is at least one sample long, the counter indexes one
    of the eight notes, and the counter afterwards is again inside the
    pattern, whatever the block length. *)
Theorem tick_keeps_the_counter_in_the_pattern (s : t) (count : Z) :
  sequencer_ok s ->
  exists note s',
    tick s count = Some (note, s')
    /\ nth_error (pattern s)
         (Z.to_nat (sample s / (60 * samples_per_sec / bpm s))) = Some note
    /\ bpm s' = bpm s /\ pattern s' = pattern s
    /\ sample s'
       = uadd (sample s) count mod (8 * (60 * samples_per_sec / bpm s))
    /\ sequencer_ok s'.
Proof.
  intros Hok. destruct (tick_of_ok s count Hok) as (note & En & _ & E & Hok').
  eexists. eexists. split; [exact E |]. split; [exact En |].
  cbn [bpm pattern sample]. repeat split; try reflexivity; apply Hok'.
Qed.

Lemma tick_keeps_the_counter_in_the_pattern_witness :
  exists note s',
    tick (mk 120 default_pattern 176399) 1024 = Some (note, s')
    /\ sample s' = 1023.
Proof.
  destruct (tick_keeps_the_counter_in_the_pattern
              (mk 120 default_pattern 176399) 1024)
    as (note & s' & E & _ & _ & _ & Hs & _).
  - unfold sequencer_ok. cbn [bpm pattern sample]. unfold samples_per_sec.
    split; [lia |]. split; [reflexivity |]. split.
    + repeat constructor.
    + change (60 * 44100 / 120) with 22050. lia.
  - exists note, s'. split; [exact E |]. rewrite Hs. reflexivity.
Defined.

(** X9.  Outside that range [tick] has no defined result: a tempo of zero
    divides by zero, and a negative tempo or one above 2646000 gives a beat
    of zero samples, by which the counter is then divided. *)
Theorem tick_undefined_outside_the_tempo_range (s : t) (count : Z) :
  - 2 ^ 31 <= bpm s < 2 ^ 31 ->
  bpm s <= 0 \/ 60 * samples_per_sec < bpm s ->
  tick s count = None.
Proof.
  intros Hint Hout. unfold tick, pattern_length, beat_length, wrap32,
    samples_per_sec in *.
  destruct (Z.eqb_spec (bpm s mod 2 ^ 32) 0) as [| Hnz]; [reflexivity |].
  cbn [bind].
  assert (Hd : 60 * 44100 < bpm s mod 2 ^ 32).
  { destruct Hout as [Hneg | Hbig].
    - assert (bpm s <> 0) by (intros E0; rewrite E0 in Hnz; apply Hnz; reflexivity).
      assert (E : bpm s + 2 ^ 32 = bpm s mod 2 ^ 32)
        by (apply Z.mod_unique with (q := -1); lia).
      lia.
    - rewrite Z.mod_small; lia. }
  rewrite (Z.mod_small (60 * 44100)) by lia.
  rewrite (Z.div_small (60 * 44100)) by lia.
  reflexivity.
Qed.

Lemma tick_undefined_outside_the_tempo_range_witness :
  tick (mk (-4) default_pattern 0) 1024 = None.
Proof.
  apply tick_undefined_outside_the_tempo_range; cbn [bpm]; lia.
Defined.

(** X10.  The counter only depends on how many samples went by, not on how
    they were cut into blocks: two ticks of [c1] and [c2] samples leave the
    counter where one tick of [c1 + c2] samples leaves it.  The note of the
    single tick is that of the first of the two. *)
Theorem blocks_add_up (s : t) (c1 c2 : Z) :
  sequencer_ok s -> 0 <= c1 -> 0 <= c2 ->
  sample s + c1 + c2 < size_max ->
  exists n1 n2 s1 s2,
    tick s c1 = Some (n1, s1)
    /\ tick s1 c2 = Some (n2, s2)
    /\ tick s (c1 + c2) = Some (n1, s2).
Proof.
  intros Hok H1 H2 Hmax.
  destruct (lengths_of_ok s Hok) as (_ & _ & Hbl).
  destruct (tick_of_ok s c1 Hok) as (n1 & En1 & _ & E1 & Hok1).
  destruct (tick_of_ok _ c2 Hok1) as (n2 & _ & _ & E2 & _).
  destruct (tick_of_ok s (c1 + c2) Hok) as (n & En & _ & E & _).
  cbv zeta in *. cbn [bpm pattern sample] in *.
  set (bl := 60 * samples_per_sec / bpm s) in *.
  destruct Hok as (_ & _ & _ & Hs). fold bl in Hs.
  exists n1, n2. eexists. eexists.
  split; [exact E1 |]. split; [exact E2 |].
  rewrite E. rewrite En1 in En. injection En as <-.
  do 3 f_equal.
  assert (Hm : 0 <= (sample s + c1) mod (8 * bl) < 8 * bl)
    by (apply Z.mod_pos_bound; lia).
  unfold size_max in *.
  rewrite (uadd_small (sample s) c1) by (unfold size_max; lia).
  rewrite (uadd_small (sample s) (c1 + c2)) by (unfold size_max; lia).
  rewrite uadd_small.
  - rewrite Zplus_mod_idemp_l. f_equal. lia.
  - pose proof (Z.mod_le (sample s + c1) (8 * bl) ltac:(lia) ltac:(lia)).
    unfold size_max in *. lia.
Qed.

Lemma blocks_add_up_witness :
  exists n1 n2 s1 s2,
    tick init 4000 = Some (n1, s1)
    /\ tick s1 1000 = Some (n2, s2)
    /\ tick init 5000 = Some (n1, s2).
Proof.
  apply (blocks_add_up init 4000 1000).
  - unfold sequencer_ok, init. cbn [bpm pattern sample].
    unfold samples_per_sec.
    split; [lia |]. split; [reflexivity |]. split.
    + repeat constructor.
    + change (60 * 44100 / (138 * 4)) with 4793. lia.
  - lia.
  - lia.
  - unfold size_max. cbn. lia.
Defined.

End SequencerLaws.

(** ** Exact results *)

(** Two numbers of a format with the same non-zero value are the same
    float. *)
Lemma good_B2R_inj (prec emax : Z) (x y : spec_float) :
  0 < prec -> prec < emax ->
  good prec emax x -> good prec emax y ->
  B2R x = B2R y -> B2R x <> 0%R -> x = y.
Proof.
  intros Hprec Hemax Hx Hy E Hnz.
  destruct x as [sx | sx | | sx mx ex]; try (destruct Hx; discriminate);
    [exfalso; apply Hnz; reflexivity |].
  destruct y as [sy | sy | | sy my ey]; try (destruct Hy; discriminate);
    [exfalso; apply Hnz; rewrite E; reflexivity |].
  pose proof (good_valid_finite prec emax sx mx ex Hx) as Cx.
  pose proof (good_valid_finite prec emax sy my ey Hy) as Cy.
  rewrite !B2R_finite in E.
  pose proof (F2R_pos (Zpos mx) ex ltac:(lia)) as Px.
  pose proof (F2R_pos (Zpos my) ey ltac:(lia)) as Py.
  assert (Es : sx = sy) by (destruct sx, sy; try reflexivity; lra).
  subst sy.
  assert (Em : F2R (Zpos mx) ex = F2R (Zpos my) ey) by (destruct sx; lra).
  pose proof (magnitude_compare prec emax Hprec mx my ex ey Cx Cy) as Hc.
  destruct (ex ?= ey) eqn:Ee; try lra.
  apply Z.compare_eq in Ee. subst ey.
  destruct (Pos.compare_cont Eq mx my) eqn:Ep; try lra.
  apply Pos.compare_eq in Ep. subst my. reflexivity.
Qed.

(** A rounding of a value that some number of the format has is that
    value. *)
Lemma rounds_exact (prec emax : Z) (w : R) (res a : spec_float) :
  0 < prec -> prec < emax ->
  rounds prec emax w res -> good prec emax a -> B2R a = w ->
  good prec emax res /\ B2R res = w.
Proof.
  intros Hprec Hemax Hr Ha Ea.
  assert (Hg : good prec emax res).
  { apply rounds_good with (w := w) (bmax := a); try assumption.
    rewrite Ea. lra. }
  split; [exact Hg |].
  pose proof (rounds_le prec emax Hprec Hemax w res a Hr Hg Ha ltac:(lra)).
  pose proof (rounds_ge prec emax Hprec Hemax w res a Hr Hg Ha ltac:(lra)).
  lra.
Qed.

Lemma clamp_inside (v lo hi : spec_float) :
  flt v lo = false -> flt hi v = false -> clamp v lo hi = v.
Proof. intros H1 H2. unfold clamp. rewrite H1, H2. reflexivity. Qed.

Lemma between_inside (lo hi x : spec_float) :
  between lo hi x = true ->
  is_float x = true /\ flt x lo = false /\ flt hi x = false.
Proof.
  unfold between. rewrite !andb_true_iff, !negb_true_iff. tauto.
Qed.

(** Multiplying by [1.0f] changes nothing. *)
Lemma mul_one (x : spec_float) :
  good F32.prec F32.emax x -> F32.mul x (F32.of_Z 1) = x.
Proof.
  intros Hx.
  destruct x as [s | s | | s m e]; try (destruct Hx; discriminate);
    [destruct s; reflexivity |].
  set (x := S754_finite s m e) in *.
  assert (Hnz : B2R x <> 0%R).
  { unfold x. rewrite B2R_finite.
    pose proof (F2R_pos (Zpos m) e ltac:(lia)). destruct s; lra. }
  destruct (F32_of_Z_exact 1 ltac:(reflexivity)) as [H1 Hv1].
  pose proof (SFmul_rounds F32.prec F32.emax prec32_pos emax32_big _ _ Hx H1)
    as Hr.
  rewrite Hv1, Rmult_1_r in Hr. fold (F32.mul x (F32.of_Z 1)) in Hr.
  destruct (rounds_exact _ _ _ _ x prec32_pos emax32_big Hr Hx eq_refl)
    as [Hg Hv].
  apply (good_B2R_inj F32.prec F32.emax); try assumption; try fmt.
  rewrite Hv. exact Hnz.
Qed.

(** ** The glides of the two controls *)

(** A value inside its range, multiplied by a target and clamped to the
    range, does not move against the target. *)
Lemma glide_direction (x v lo hi top : spec_float) :
  good F32.prec F32.emax x -> good F32.prec F32.emax v ->
  good F32.prec F32.emax lo -> good F32.prec F32.emax hi ->
  good F32.prec F32.emax top ->
  (0 <= B2R lo)%R -> (B2R lo <= B2R x <= B2R hi)%R ->
  (0 <= B2R v)%R -> (B2R hi * B2R v <= B2R top)%R ->
  let x' := clamp (F32.mul x v) lo hi in
  good F32.prec F32.emax x'
  /\ ((1 <= B2R v)%R -> (B2R x <= B2R x')%R)
  /\ ((B2R v <= 1)%R -> (B2R x' <= B2R x)%R).
Proof.
  intros Hx Hv Hlo Hhi Htop Hlo0 Hin Hv0 Hmax. cbv zeta.
  pose proof (SFmul_rounds F32.prec F32.emax prec32_pos emax32_big _ _ Hx Hv)
    as Hr.
  fold (F32.mul x v) in Hr. set (p := F32.mul x v) in *.
  assert (Hw : (0 <= B2R x * B2R v <= B2R top)%R) by nra.
  assert (Hp : good F32.prec F32.emax p).
  { apply rounds_good with (w := (B2R x * B2R v)%R) (bmax := top);
      try assumption; try fmt.
    rewrite !Rabs_pos_eq by lra. lra. }
  assert (Hc : clamp p lo hi = lo /\ (B2R p < B2R lo)%R
               \/ clamp p lo hi = hi /\ (B2R hi < B2R p)%R
               \/ clamp p lo hi = p /\ (B2R lo <= B2R p <= B2R hi)%R).
  { unfold clamp, flt. destruct (SFltb p lo) eqn:E1.
    - left. split; [reflexivity |].
      apply (SFltb_spec F32.prec F32.emax prec32_pos p lo Hp Hlo). exact E1.
    - apply (SFltb_false F32.prec F32.emax prec32_pos p lo Hp Hlo) in E1.
      destruct (SFltb hi p) eqn:E2.
      + right. left. split; [reflexivity |].
        apply (SFltb_spec F32.prec F32.emax prec32_pos hi p Hhi Hp). exact E2.
      + apply (SFltb_false F32.prec F32.emax prec32_pos hi p Hhi Hp) in E2.
        right. right. split; [reflexivity | lra]. }
  split; [| split].
  - destruct Hc as [[-> _] | [[-> _] | [-> _]]]; assumption.
  - intros H1.
    assert (B2R x <= B2R p)%R.
    { apply rounds_ge with (prec := F32.prec) (emax := F32.emax)
                           (w := (B2R x * B2R v)%R);
        try assumption; try fmt. nra. }
    destruct Hc as [[-> Hc] | [[-> Hc] | [-> Hc]]]; lra.
  - intros H1.
    assert (B2R p <= B2R x)%R.
    { apply rounds_le with (prec := F32.prec) (emax := F32.emax)
                           (w := (B2R x * B2R v)%R);
        try assumption; try fmt. nra. }
    destruct Hc as [[-> Hc] | [[-> Hc] | [-> Hc]]]; lra.
Qed.

Lemma not_less (x y : spec_float) :
  good F32.prec F32.emax x -> good F32.prec F32.emax y ->
  (B2R y <= B2R x)%R -> flt x y = false.
Proof.
  intros Hx Hy H. unfold flt. destruct (SFltb x y) eqn:E; [| reflexivity].
  apply (SFltb_spec F32.prec F32.emax prec32_pos x y Hx Hy) in E. lra.
Qed.

Module GlideFacts.

(** The three targets [main] sets: [1.0 + 0.01 * a] for [a] in 1, 0, -1,
    narrowed to [float]. *)
Lemma target_up :
  let v := SawTooth.tuning_v (SawTooth.set_tuning SawTooth.init 1) in
  good F32.prec F32.emax v /\ (1 <= B2R v <= 2)%R.
Proof.
  cbv zeta.
  set (v := SawTooth.tuning_v (SawTooth.set_tuning SawTooth.init 1)).
  assert (Hg : good F32.prec F32.emax v) by (split; vm_compute; reflexivity).
  destruct (F32_of_Z_exact 1 ltac:(reflexivity)) as [H1 Hv1].
  destruct (F32_of_Z_exact 2 ltac:(reflexivity)) as [H2 Hv2].
  split; [exact Hg |]. split.
  - rewrite <- Hv1. apply Rlt_le.
    apply (SFltb_spec F32.prec F32.emax prec32_pos _ _ H1 Hg).
    vm_compute. reflexivity.
  - rewrite <- Hv2. apply Rlt_le.
    apply (SFltb_spec F32.prec F32.emax prec32_pos _ _ Hg H2).
    vm_compute. reflexivity.
Qed.

Lemma target_down :
  let v := SawTooth.tuning_v (SawTooth.set_tuning SawTooth.init (-1)) in
  good F32.prec F32.emax v /\ (0 <= B2R v <= 1)%R.
Proof.
  cbv zeta.
  set (v := SawTooth.tuning_v (SawTooth.set_tuning SawTooth.init (-1))).
  assert (Hg : good F32.prec F32.emax v) by (split; vm_compute; reflexivity).
  destruct (F32_of_Z_exact 1 ltac:(reflexivity)) as [H1 Hv1].
  destruct (F32_of_Z_exact 0 ltac:(reflexivity)) as [H0 Hv0].
  split; [exact Hg |]. split.
  - rewrite <- Hv0. apply Rlt_le.
    apply (SFltb_spec F32.prec F32.emax prec32_pos _ _ H0 Hg).
    vm_compute. reflexivity.
  - rewrite <- Hv1. apply Rlt_le.
    apply (SFltb_spec F32.prec F32.emax prec32_pos _ _ Hg H1).
    vm_compute. reflexivity.
Qed.

Lemma target_idle :
  SawTooth.tuning_v (SawTooth.set_tuning SawTooth.init 0) = F32.of_Z 1.
Proof. vm_compute. reflexivity. Qed.

Lemma tuning_range_spec (x : spec_float) :
  in_tuning_range x = true ->
  good F32.prec F32.emax x
  /\ (0 < B2R (F32.div (F32.of_Z 1) (F32.of_Z 10)) <= B2R x)%R
  /\ (B2R x <= 1000)%R.
Proof.
  intros H. unfold in_tuning_range in H.
  destruct (F32_of_Z_exact 1000 ltac:(reflexivity)) as [Hk Hvk].
  destruct (F32_of_Z_exact 0 ltac:(reflexivity)) as [H0 Hv0].
  apply (between_spec _ _ x OscillatorFacts.tenth_good Hk) in H.
  destruct H as [Hg [Hlo Hhi]]. rewrite Hvk in Hhi.
  split; [exact Hg |]. split; [| exact Hhi]. split; [| exact Hlo].
  rewrite <- Hv0.
  apply (SFltb_spec F32.prec F32.emax prec32_pos _ _ H0
           OscillatorFacts.tenth_good).
  vm_compute. reflexivity.
Qed.

Lemma tick_tuning (s s' : SawTooth.t) (note : spec_float)
    (data data' : list Z) (count : Z) :
  SawTooth.tick s note data count = Some (s', data') ->
  SawTooth.tuning s'
  = if truthy note
    then clamp (F32.mul (SawTooth.tuning s) (SawTooth.tuning_v s))
               (F32.div (F32.of_Z 1) (F32.of_Z 10)) (F32.of_Z 1000)
    else SawTooth.tuning s.
Proof.
  unfold SawTooth.tick. destruct (truthy note); cbv zeta;
    match goal with |- context [SawTooth.fill ?a ?b ?c ?d ?e ?f] =>
      destruct (SawTooth.fill a b c d e f) as [[v d'] |] end;
    cbn [bind]; intros H; try discriminate H;
    injection H as <- _; reflexivity.
Qed.

Lemma tick_rc (s s' : LowPass.t) (data data' : list Z) (count : Z) :
  LowPass.tick s data count = Some (s', data') ->
  LowPass.rc s'
  = clamp (F32.mul (LowPass.rc s) (LowPass.rc_v s)) fzero (F32.of_Z 1).
Proof.
  unfold LowPass.tick. cbv zeta.
  repeat match goal with |- context [LowPass.stage ?a ?b ?c ?d ?e] =>
    destruct (LowPass.stage a b c d e) as [[? ?] |]; cbn [bind];
    [| intros H; discriminate H] end.
  intros H. injection H as <- _. reflexivity.
Qed.

(** X11.  The tuning follows the keys.  From a tuning inside [0.1, 1000],
    a tick after [tuning(1)] (Up held) does not lower the tuning, a tick
    after [tuning(-1)] (Down held) does not raise it, and in both cases it
    stays inside the range; a tick after [tuning(0)] (neither key) leaves
    it exactly as it was. *)
Theorem tuning_follows_the_keys (s : SawTooth.t) (note : spec_float)
    (data : list Z) (count : Z) :
  in_tuning_range (SawTooth.tuning s) = true ->
  (forall s' data',
      SawTooth.tick (SawTooth.set_tuning s 1) note data count
      = Some (s', data') ->
      flt (SawTooth.tuning s') (SawTooth.tuning s) = false
      /\ in_tuning_range (SawTooth.tuning s') = true)
  /\ (forall s' data',
        SawTooth.tick (SawTooth.set_tuning s (-1)) note data count
        = Some (s', data') ->
        flt (SawTooth.tuning s) (SawTooth.tuning s') = false
        /\ in_tuning_range (SawTooth.tuning s') = true)
  /\ (forall s' data',
        SawTooth.tick (SawTooth.set_tuning s 0) note data count
        = Some (s', data') ->
        SawTooth.tuning s' = SawTooth.tuning s).
Proof.
  intros Hin.
  destruct (tuning_range_spec _ Hin) as (Hg & Hlo & Hhi).
  destruct (F32_of_Z_exact 1000 ltac:(reflexivity)) as [Hk Hvk].
  destruct (F32_of_Z_exact 2000 ltac:(reflexivity)) as [Hkk Hvkk].
  destruct target_up as [Hup Hupv]. destruct target_down as [Hdn Hdnv].
  pose proof OscillatorFacts.tenth_good as Hten.
  assert (Hself : flt (SawTooth.tuning s) (SawTooth.tuning s) = false)
    by (apply not_less; try assumption; lra).
  split; [| split]; intros s' data' E; apply tick_tuning in E;
    cbn [SawTooth.set_tuning SawTooth.tuning SawTooth.tuning_v] in E;
    destruct (truthy note); rewrite E; clear E.
  - destruct (glide_direction (SawTooth.tuning s) _ _ _ (F32.of_Z 2000)
                Hg Hup Hten Hk Hkk ltac:(lra) ltac:(rewrite Hvk; lra)
                ltac:(lra) ltac:(rewrite Hvk, Hvkk; lra)) as (Hg' & Hmove & _).
    split.
    + apply not_less; try assumption. apply Hmove. lra.
    + apply OscillatorFacts.glide_in_tuning_range;
        apply is_float_good; assumption.
  - split; assumption.
  - destruct (glide_direction (SawTooth.tuning s) _ _ _ (F32.of_Z 2000)
                Hg Hdn Hten Hk Hkk ltac:(lra) ltac:(rewrite Hvk; lra)
                ltac:(lra) ltac:(rewrite Hvk, Hvkk; lra)) as (Hg' & _ & Hmove).
    split.
    + apply not_less; try assumption. apply Hmove. lra.
    + apply OscillatorFacts.glide_in_tuning_range;
        apply is_float_good; assumption.
  - split; assumption.
  - change (F32.of_double _) with (F32.of_Z 1).
    rewrite (mul_one _ Hg).
    destruct (between_inside _ _ _ Hin) as (_ & H1 & H2).
    apply clamp_inside; assumption.
  - reflexivity.
Qed.

Lemma tuning_follows_the_keys_witness :
  exists s' data',
    SawTooth.tick (SawTooth.set_tuning SawTooth.init 1) (F32.of_Z 440)
      [0; 0; 0; 0] 4 = Some (s', data')
    /\ flt (SawTooth.tuning s') (SawTooth.tuning SawTooth.init) = false.
Proof.
  destruct (SawTooth.tick (SawTooth.set_tuning SawTooth.init 1) (F32.of_Z 440)
              [0; 0; 0; 0] 4) as [[s' data'] |] eqn:E.
  - exists s', data'. split; [reflexivity |].
    apply (proj1 (tuning_follows_the_keys SawTooth.init (F32.of_Z 440)
                    [0; 0; 0; 0] 4 ltac:(vm_compute; reflexivity))
             s' data' E).
  - vm_compute in E. discriminate E.
Defined.

(** X12.  The cutoff follows the keys.  From a coefficient inside [0, 1],
    a tick after [cutoff(1)] does not lower the coefficient, a tick after
    [cutoff(-1)] does not raise it, and in both cases it stays inside
    [0, 1]; a tick after [cutoff(0)] leaves it exactly as it was. *)
Theorem cutoff_follows_the_keys (s : LowPass.t) (data : list Z) (count : Z) :
  in_unit (LowPass.rc s) = true ->
  (forall s' data',
      LowPass.tick (LowPass.set_cutoff s 1) data count = Some (s', data') ->
      flt (LowPass.rc s') (LowPass.rc s) = false
      /\ in_unit (LowPass.rc s') = true)
  /\ (forall s' data',
        LowPass.tick (LowPass.set_cutoff s (-1)) data count
        = Some (s', data') ->
        flt (LowPass.rc s) (LowPass.rc s') = false
        /\ in_unit (LowPass.rc s') = true)
  /\ (forall s' data',
        LowPass.tick (LowPass.set_cutoff s 0) data count = Some (s', data') ->
        LowPass.rc s' = LowPass.rc s).
Proof.
  intros Hin.
  pose proof Hin as Hin'. apply in_unit_spec in Hin'.
  destruct Hin' as (Hg & Hb).
  destruct (F32_of_Z_exact 0 ltac:(reflexivity)) as [H0 Hv0].
  destruct (F32_of_Z_exact 1 ltac:(reflexivity)) as [H1 Hv1].
  destruct (F32_of_Z_exact 2 ltac:(reflexivity)) as [H2 Hv2].
  change (F32.of_Z 0) with fzero in *.
  destruct target_up as [Hup Hupv]. destruct target_down as [Hdn Hdnv].
  split; [| split]; intros s' data' E; apply tick_rc in E;
    cbn [LowPass.set_cutoff LowPass.rc LowPass.rc_v] in E;
    rewrite E; clear E.
  - destruct (glide_direction (LowPass.rc s) _ _ _ (F32.of_Z 2)
                Hg Hup H0 H1 H2 ltac:(rewrite Hv0; lra)
                ltac:(rewrite Hv0, Hv1; lra)
                ltac:(lra) ltac:(rewrite Hv1, Hv2; lra)) as (Hg' & Hmove & _).
    split.
    + apply not_less; try assumption. apply Hmove. lra.
    + apply LowPassFacts.smoothed_rc_in_unit;
        apply is_float_good; assumption.
  - destruct (glide_direction (LowPass.rc s) _ _ _ (F32.of_Z 2)
                Hg Hdn H0 H1 H2 ltac:(rewrite Hv0; lra)
                ltac:(rewrite Hv0, Hv1; lra)
                ltac:(lra) ltac:(rewrite Hv1, Hv2; lra)) as (Hg' & _ & Hmove).
    split.
    + apply not_less; try assumption. apply Hmove. lra.
    + apply LowPassFacts.smoothed_rc_in_unit;
        apply is_float_good; assumption.
  - change (F32.of_double _) with (F32.of_Z 1).
    rewrite (mul_one _ Hg).
    destruct (between_inside _ _ _ Hin) as (_ & Hlo & Hhi).
    apply clamp_inside; assumption.
Qed.

Lemma cutoff_follows_the_keys_witness :
  exists s' data',
    LowPass.tick (LowPass.set_cutoff LowPass.init (-1)) [100; 200] 2
    = Some (s', data')
    /\ flt (LowPass.rc LowPass.init) (LowPass.rc s') = false.
Proof.
  destruct (LowPass.tick (LowPass.set_cutoff LowPass.init (-1)) [100; 200] 2)
    as [[s' data'] |] eqn:E.
  - exists s', data'. split; [reflexivity |].
    apply (proj1 (proj2 (cutoff_follows_the_keys LowPass.init
                           [100; 200] 2 ltac:(vm_compute; reflexivity)))
             s' data' E).
  - vm_compute in E. discriminate E.
Defined.

End GlideFacts.

(** ** The filter fully open *)

Lemma not_less_in (prec emax : Z) (x y : spec_float) :
  0 < prec -> good prec emax x -> good prec emax y ->
  (B2R y <= B2R x)%R -> SFltb x y = false.
Proof.
  intros Hp Hx Hy H. destruct (SFltb x y) eqn:E; [| reflexivity].
  apply (SFltb_spec prec emax Hp x y Hx Hy) in E. lra.
Qed.

(** A finite float whose value is an integer converts to that integer. *)
Lemma truncate_exact (y : spec_float) (z : Z) :
  finite_or_zero y = true -> B2R y = IZR z -> truncate y = Some z.
Proof.
  intros Hf E. destruct y as [s | s | | s m e]; try discriminate Hf;
    cbn [truncate].
  - cbn [B2R] in E. apply eq_IZR in E. congruence.
  - rewrite B2R_finite in E.
    assert (Ea : F2R (Zpos m) e = IZR (cond_Zopp s z)).
    { destruct s; cbn [cond_Zopp]; [rewrite opp_IZR |]; lra. }
    assert (Et : match e with
                 | Z.neg p => Z.pos m / 2 ^ Z.pos p
                 | _ => Z.pos m * 2 ^ e
                 end = cond_Zopp s z).
    { destruct e as [| p | p].
      - apply eq_IZR. rewrite <- Ea. unfold F2R. rewrite bpow_0.
        rewrite Z.pow_0_r, Z.mul_1_r. lra.
      - apply eq_IZR. rewrite <- Ea.
        rewrite <- (Z.add_0_l (Zpos p)) at 2.
        rewrite <- F2R_shift by lia. unfold F2R. rewrite bpow_0. lra.
      - assert (Hp : 0 < 2 ^ Zpos p) by (apply Z.pow_pos_nonneg; lia).
        assert (Em : Zpos m = cond_Zopp s z * 2 ^ Zpos p).
        { apply eq_IZR. rewrite mult_IZR, <- Ea, <- bpow_IZR by lia.
          unfold F2R. change (Z.neg p) with (- Zpos p). rewrite bpow_opp.
          pose proof (bpow_pos (Zpos p)). field. lra. }
        rewrite Em. apply Z.div_mul. lia. }
    rewrite Et. f_equal. destruct s; cbn [cond_Zopp]; lia.
Qed.

Lemma store_same (data : list Z) (i x : Z) :
  0 <= i -> nth_error data (Z.to_nat i) = Some x ->
  store data i x = Some data.
Proof.
  intros Hi E. apply nth_error_split in E.
  destruct E as (l1 & l2 & -> & Hl).
  replace i with (len l1) by (unfold len; lia).
  rewrite SawToothFacts.store_prefix. rewrite <- app_assoc. reflexivity.
Qed.

Module OpenFilterFacts.
Import LowPass.

(** With the coefficient at 1 the sample goes through: the new
    accumulator is the sample itself. *)
Lemma smooth_open (acc : spec_float) (x : Z) :
  is_float acc = true -> in_int16 x ->
  good F32.prec F32.emax (smooth (F32.of_Z 1) acc x)
  /\ B2R (smooth (F32.of_Z 1) acc x) = IZR x.
Proof.
  intros Hacc Hx. apply is_float_good in Hacc.
  unfold in_int16, SHRT_MIN, SHRT_MAX in Hx. unfold smooth.
  destruct (F32_of_Z_exact x ltac:(lia)) as [Hxf Hxv].
  destruct (F32_of_Z_exact 1 ltac:(reflexivity)) as [H1f H1v].
  destruct (F64_of_Z_exact 1 ltac:(reflexivity)) as [H1d H1dv].
  destruct (F64_of_Z_exact 0 ltac:(reflexivity)) as [H0d H0dv].
  destruct (F64_of_Z_exact SHRT_MIN ltac:(reflexivity)) as [Hlo Hlov].
  destruct (F64_of_Z_exact SHRT_MAX ltac:(reflexivity)) as [Hhi Hhiv].
  unfold SHRT_MIN, SHRT_MAX in *.
  (* data[i] * rc *)
  pose proof (SFmul_rounds F32.prec F32.emax prec32_pos emax32_big _ _
                Hxf H1f) as Hr1.
  fold (F32.mul (F32.of_Z x) (F32.of_Z 1)) in Hr1.
  rewrite H1v, Rmult_1_r in Hr1.
  destruct (rounds_exact _ _ _ _ _ prec32_pos emax32_big Hr1 Hxf eq_refl)
    as [Hp Hpv].
  set (p := F32.mul (F32.of_Z x) (F32.of_Z 1)) in *.
  destruct (of_float_exact p Hp) as [Hpd Hpdv].
  (* 1.0 - rc *)
  destruct (of_float_exact _ H1f) as [Hrcd Hrcdv].
  pose proof (SFsub_rounds F64.prec F64.emax prec64_pos _ _ H1d Hrcd) as Hr2.
  fold (F64.sub (F64.of_Z 1) (F64.of_float (F32.of_Z 1))) in Hr2.
  rewrite H1dv, Hrcdv, H1v in Hr2.
  replace (1 - 1)%R with 0%R in Hr2 by lra.
  destruct (rounds_exact _ _ _ _ _ prec64_pos emax64_big Hr2 H0d H0dv)
    as [Ht Htv].
  set (t := F64.sub (F64.of_Z 1) (F64.of_float (F32.of_Z 1))) in *.
  (* value[j] * (1.0 - rc) *)
  destruct (of_float_exact acc Hacc) as [Haccd _].
  pose proof (SFmul_rounds F64.prec F64.emax prec64_pos emax64_big _ _
                Haccd Ht) as Hr3.
  fold (F64.mul (F64.of_float acc) t) in Hr3.
  rewrite Htv, Rmult_0_r in Hr3.
  destruct (rounds_exact _ _ _ _ _ prec64_pos emax64_big Hr3 H0d H0dv)
    as [Hq Hqv].
  set (q := F64.mul (F64.of_float acc) t) in *.
  (* the sum *)
  pose proof (SFadd_rounds F64.prec F64.emax prec64_pos _ _ Hpd Hq) as Hr4.
  fold (F64.add (F64.of_float p) q) in Hr4.
  rewrite Hqv, Rplus_0_r in Hr4.
  destruct (rounds_exact _ _ _ _ _ prec64_pos emax64_big Hr4 Hpd eq_refl)
    as [Hs Hsv].
  set (sm := F64.add (F64.of_float p) q) in *.
  rewrite Hpdv, Hpv, Hxv in Hsv.
  (* the clamp leaves it alone *)
  assert (Hxr : (-32768 <= IZR x <= 32767)%R).
  { split; [apply (IZR_le (-32768)) | apply (IZR_le _ 32767)]; lia. }
  rewrite clamp_inside.
  2:{ apply (not_less_in F64.prec F64.emax); try assumption; try fmt.
      rewrite Hlov, Hsv. lra. }
  2:{ apply (not_less_in F64.prec F64.emax); try assumption; try fmt.
      rewrite Hhiv, Hsv. lra. }
  (* the narrowing *)
  pose proof (of_double_rounds sm Hs) as Hr5. rewrite Hsv in Hr5.
  exact (rounds_exact _ _ _ _ _ prec32_pos emax32_big Hr5 Hxf Hxv).
Qed.

Lemma stage_open (n : nat) :
  forall (i : Z) (acc : spec_float) (data : list Z),
    is_float acc = true -> Forall in_int16 data ->
    0 <= i -> i + Z.of_nat n <= len data ->
    exists acc',
      stage (F32.of_Z 1) n i acc data = Some (acc', data)
      /\ is_float acc' = true.
Proof.
  induction n as [| n IH]; intros i acc data Hacc Hd Hi Hn.
  - exists acc. split; [reflexivity | exact Hacc].
  - cbn [stage].
    destruct (nth_error data (Z.to_nat i)) as [x |] eqn:Ex.
    2:{ apply nth_error_None in Ex. unfold len in Hn. lia. }
    assert (Hx : in_int16 x).
    { rewrite Forall_forall in Hd. apply Hd. eapply nth_error_In, Ex. }
    cbn [bind].
    destruct (smooth_open acc x Hacc Hx) as [Hg Hv].
    assert (Et : to_int16 (smooth (F32.of_Z 1) acc x) = Some x).
    { unfold to_int16. rewrite (truncate_exact _ x (proj2 Hg) Hv).
      cbn [bind]. unfold in_int16 in Hx.
      destruct (Z.leb_spec SHRT_MIN x); [| lia].
      destruct (Z.leb_spec x SHRT_MAX); [| lia]. reflexivity. }
    rewrite Et. cbn [bind]. rewrite (store_same data i x Hi Ex). cbn [bind].
    apply IH; try assumption; try lia. apply is_float_good. exact Hg.
Qed.

Lemma rc_stays_open (rc_v : spec_float) :
  is_float rc_v = true -> flt rc_v (F32.of_Z 1) = false ->
  clamp (F32.mul (F32.of_Z 1) rc_v) fzero (F32.of_Z 1) = F32.of_Z 1.
Proof.
  intros Hv Hge. apply is_float_good in Hv.
  destruct (F32_of_Z_exact 1 ltac:(reflexivity)) as [H1 Hv1].
  destruct (F32_of_Z_exact 0 ltac:(reflexivity)) as [H0 Hv0].
  change (F32.of_Z 0) with fzero in *.
  apply (SFltb_false F32.prec F32.emax prec32_pos _ _ Hv H1) in Hge.
  rewrite Hv1 in Hge.
  pose proof (SFmul_rounds F32.prec F32.emax prec32_pos emax32_big _ _ H1 Hv)
    as Hr.
  fold (F32.mul (F32.of_Z 1) rc_v) in Hr. rewrite Hv1, Rmult_1_l in Hr.
  destruct (rounds_exact _ _ _ _ _ prec32_pos emax32_big Hr Hv eq_refl)
    as [Hp Hpv].
  set (p := F32.mul (F32.of_Z 1) rc_v) in *.
  unfold clamp, flt.
  rewrite (not_less_in F32.prec F32.emax p fzero prec32_pos Hp H0)
    by (rewrite Hv0; lra).
  destruct (SFltb (F32.of_Z 1) p) eqn:E; [reflexivity |].
  apply (SFltb_false F32.prec F32.emax prec32_pos _ _ H1 Hp) in E.
  apply (good_B2R_inj F32.prec F32.emax); try assumption; try fmt; lra.
Qed.

(** X13.  The filter fully open is the identity on the block.  With the
    coefficient at 1 and a target that does not pull it down, [tick]
    leaves every sample of the block as it was, and the coefficient stays
    at 1. *)
Theorem open_filter_passes_the_block (s : t) (data : list Z) (count : Z) :
  rc s = F32.of_Z 1 ->
  is_float (rc_v s) = true -> flt (rc_v s) (F32.of_Z 1) = false ->
  is_float (value0 s) = true -> is_float (value1 s) = true ->
  is_float (value2 s) = true -> is_float (value3 s) = true ->
  Forall in_int16 data -> 0 <= count <= len data ->
  exists s', tick s data count = Some (s', data) /\ rc s' = F32.of_Z 1.
Proof.
  intros Hrc Hv Hge H0 H1 H2 H3 Hd Hc. unfold tick.
  rewrite Hrc, (rc_stays_open _ Hv Hge).
  assert (Hn : 0 + Z.of_nat (Z.to_nat count) <= len data) by lia.
  destruct (stage_open (Z.to_nat count) 0 _ data H0 Hd ltac:(lia) Hn)
    as (v0 & -> & _). cbn [bind].
  destruct (stage_open (Z.to_nat count) 0 _ data H1 Hd ltac:(lia) Hn)
    as (v1 & -> & _). cbn [bind].
  destruct (stage_open (Z.to_nat count) 0 _ data H2 Hd ltac:(lia) Hn)
    as (v2 & -> & _). cbn [bind].
  destruct (stage_open (Z.to_nat count) 0 _ data H3 Hd ltac:(lia) Hn)
    as (v3 & -> & _). cbn [bind].
  eexists. split; reflexivity.
Qed.

Lemma open_filter_passes_the_block_witness :
  exists s',
    tick (mk (F32.of_Z 1) (F32.of_Z 1) fzero fzero fzero fzero)
         [120; -7; 32767] 3
    = Some (s', [120; -7; 32767]).
Proof.
  destruct (open_filter_passes_the_block
              (mk (F32.of_Z 1) (F32.of_Z 1) fzero fzero fzero fzero)
              [120; -7; 32767] 3) as (s' & E & _);
    try reflexivity.
  - repeat constructor; unfold SHRT_MIN, SHRT_MAX; lia.
  - unfold len. simpl. lia.
  - exists s'. exact E.
Defined.

End OpenFilterFacts.

(** ** Synth: blocks and controls *)

Module SynthFacts.

(** The loop of the oscillator stores into every place of the block before
    anything reads it: what the places held does not matter. *)
Lemma fill_overwrites (volume delta : spec_float) (n : nat) :
  forall (pre old1 old2 rest : list Z) (value : spec_float),
    length old1 = n -> length old2 = n ->
    SawTooth.fill volume delta n (len pre) value (pre ++ old1 ++ rest)
    = SawTooth.fill volume delta n (len pre) value (pre ++ old2 ++ rest).
Proof.
  induction n as [| n IH]; intros pre old1 old2 rest value H1 H2.
  - destruct old1; [| discriminate]. destruct old2; [| discriminate].
    reflexivity.
  - destruct old1 as [| a o1]; [discriminate |].
    destruct old2 as [| b o2]; [discriminate |].
    cbn [SawTooth.fill app].
    destruct (SawTooth.sample_of value volume) as [v |]; [| reflexivity].
    cbn [bind]. rewrite !SawToothFacts.store_prefix. cbn [bind].
    replace (len pre + 1) with (len (pre ++ [v]))
      by (rewrite len_app; reflexivity).
    apply IH; simpl in *; lia.
Qed.

Lemma sawtooth_overwrites (s : SawTooth.t) (note : spec_float)
    (old1 old2 rest : list Z) (count : Z) :
  length old1 = Z.to_nat count -> length old2 = Z.to_nat count ->
  SawTooth.tick s note (old1 ++ rest) count
  = SawTooth.tick s note (old2 ++ rest) count.
Proof.
  intros H1 H2. unfold SawTooth.tick.
  destruct (truthy note); cbv zeta;
    change 0 with (len (@nil Z));
    rewrite (fill_overwrites _ _ _ [] old1 old2 rest _ H1 H2);
    reflexivity.
Qed.

(** X14.  The block that [make_sound] produces, and the state it leaves,
    do not depend on what the first [count] places of the array held
    before: the oscillator stores into each of them before the filter reads
    any.  (The array that [play] passes is not initialised.) *)
Theorem make_sound_ignores_the_old_block (s : Synth.t)
    (old1 old2 rest : list Z) (count : Z) :
  length old1 = Z.to_nat count -> length old2 = Z.to_nat count ->
  Synth.make_sound s (old1 ++ rest) count
  = Synth.make_sound s (old2 ++ rest) count.
Proof.
  intros H1 H2. unfold Synth.make_sound.
  destruct (Sequencer.tick (Synth.sequencer s) count) as [[note sq] |];
    [| reflexivity].
  cbn [bind]. rewrite (sawtooth_overwrites _ _ old1 old2 rest count H1 H2).
  reflexivity.
Qed.

Lemma make_sound_ignores_the_old_block_witness :
  Synth.make_sound Synth.init ([1; 2; 3] ++ [9]) 3
  = Synth.make_sound Synth.init ([-5; 0; 77] ++ [9]) 3.
Proof.
  apply make_sound_ignores_the_old_block; reflexivity.
Defined.

Lemma sawtooth_frame (s s' : SawTooth.t) (note : spec_float)
    (data data' : list Z) (count : Z) :
  SawTooth.tick s note data count = Some (s', data') ->
  SawTooth.tuning_v s' = SawTooth.tuning_v s
  /\ SawTooth.volume s' = SawTooth.volume s.
Proof.
  unfold SawTooth.tick. destruct (truthy note); cbv zeta;
    match goal with |- context [SawTooth.fill ?a ?b ?c ?d ?e ?f] =>
      destruct (SawTooth.fill a b c d e f) as [[v d'] |] end;
    cbn [bind]; intros H; try discriminate H;
    injection H as <- _; split; reflexivity.
Qed.

Lemma sawtooth_tick_ok (s : SawTooth.t) (note : spec_float)
    (data : list Z) (count : Z) :
  sawtooth_ok s -> is_float note = true ->
  Forall in_int16 data -> 0 <= count <= len data ->
  exists s' data',
    SawTooth.tick s note data count = Some (s', data')
    /\ sawtooth_ok s' /\ Forall in_int16 data' /\ len data' = len data.
Proof.
  intros (Htv & Ht & Hvol & Hlast) Hnote Hd Hc.
  destruct (OscillatorFacts.tick_in_range s note data count
              Htv Ht Hvol Hlast Hnote Hd Hc)
    as (s' & data' & E & Hd' & Hl' & Hp' & Ht' & _).
  destruct (sawtooth_frame _ _ _ _ _ _ E) as [Ev Evol].
  exists s', data'. split; [exact E |]. split; [| split; assumption].
  unfold sawtooth_ok. rewrite Ev, Evol. auto.
Qed.

Lemma lowpass_tick_ok (s : LowPass.t) (data : list Z) (count : Z) :
  lowpass_ok s -> Forall in_int16 data -> 0 <= count <= len data ->
  exists s' data',
    LowPass.tick s data count = Some (s', data')
    /\ lowpass_ok s' /\ Forall in_int16 data' /\ len data' = len data.
Proof.
  intros (Hrv & Hrc & H0 & H1 & H2 & H3) Hd Hc. unfold LowPass.tick.
  pose proof (LowPassFacts.smoothed_rc_in_unit _ _ Hrc Hrv) as Hu.
  set (rc' := clamp (F32.mul (LowPass.rc s) (LowPass.rc_v s))
                    fzero (F32.of_Z 1)) in *.
  assert (Hn : 0 + Z.of_nat (Z.to_nat count) <= len data) by lia.
  destruct (LowPassFacts.stage_in_range rc' (Z.to_nat count) 0 _ data
              Hu H0 Hd ltac:(lia) Hn) as (v0 & d0 & -> & Hv0 & Hd0 & Hl0).
  cbn [bind]. rewrite <- Hl0 in Hn.
  destruct (LowPassFacts.stage_in_range rc' (Z.to_nat count) 0 _ d0
              Hu H1 Hd0 ltac:(lia) Hn) as (v1 & d1 & -> & Hv1 & Hd1 & Hl1).
  cbn [bind]. rewrite <- Hl1 in Hn.
  destruct (LowPassFacts.stage_in_range rc' (Z.to_nat count) 0 _ d1
              Hu H2 Hd1 ltac:(lia) Hn) as (v2 & d2 & -> & Hv2 & Hd2 & Hl2).
  cbn [bind]. rewrite <- Hl2 in Hn.
  destruct (LowPassFacts.stage_in_range rc' (Z.to_nat count) 0 _ d2
              Hu H3 Hd2 ltac:(lia) Hn) as (v3 & d3 & -> & Hv3 & Hd3 & Hl3).
  cbn [bind]. eexists. eexists. split; [reflexivity |].
  split; [| split; [assumption | congruence]].
  unfold lowpass_ok.
  cbn [LowPass.rc_v LowPass.rc LowPass.value0 LowPass.value1
       LowPass.value2 LowPass.value3].
  repeat split; try assumption.
  apply in_unit_spec in Hu. apply is_float_good. apply Hu.
Qed.

Lemma init_ok : synth_ok Synth.init.
Proof.
  unfold synth_ok, Synth.init. cbn [Synth.sequencer Synth.sawtooth Synth.lowpass].
  split; [| split].
  - unfold sequencer_ok, Sequencer.init.
    cbn [Sequencer.bpm Sequencer.pattern Sequencer.sample].
    unfold samples_per_sec.
    split; [lia |]. split; [reflexivity |]. split; [repeat constructor |].
    change (60 * 44100 / (138 * 4)) with 4793. lia.
  - repeat split; vm_compute; reflexivity.
  - repeat split; vm_compute; reflexivity.
Qed.

(** One block from a sound state. *)
Lemma make_sound_in_range (s : Synth.t) (data : list Z)
    (count : Z) :
  synth_ok s -> Forall in_int16 data -> 0 <= count <= len data ->
  exists s' data',
    Synth.make_sound s data count = Some (s', data')
    /\ synth_ok s' /\ Forall in_int16 data' /\ len data' = len data.
Proof.
  intros (Hsq & Hsw & Hlp) Hd Hc.
  unfold Synth.make_sound.
  destruct (SequencerLaws.tick_of_ok (Synth.sequencer s) count Hsq)
    as (note & _ & Hnote & -> & Hsq').
  cbn [bind].
  destruct (sawtooth_tick_ok _ note data count Hsw Hnote Hd Hc)
    as (sw & d1 & -> & Hsw' & Hd1 & Hl1).
  cbn [bind]. rewrite <- Hl1 in Hc.
  destruct (lowpass_tick_ok _ d1 count Hlp Hd1 Hc)
    as (lp & d2 & -> & Hlp' & Hd2 & Hl2).
  cbn [bind]. eexists. eexists. split; [reflexivity |].
  split; [| split; [assumption | congruence]].
  unfold synth_ok. cbn [Synth.sequencer Synth.sawtooth Synth.lowpass].
  auto.
Qed.

(** X15.  [make_sound] never leaves the states the program keeps to.  From
    any such state a block of any length within the array is produced
    without undefined behaviour, every sample of it is an [int16_t], and
    the state afterwards is again such a state. *)
Theorem make_sound_keeps_the_state_sound (s : Synth.t) (data : list Z)
    (count : Z) :
  synth_ok s -> Forall in_int16 data -> 0 <= count <= len data ->
  exists s' data',
    Synth.make_sound s data count = Some (s', data')
    /\ synth_ok s' /\ Forall in_int16 data' /\ len data' = len data.
Proof.
  intros (Hsq & Hsw & Hlp) Hd Hc.
  unfold Synth.make_sound.
  destruct (SequencerLaws.tick_of_ok (Synth.sequencer s) count Hsq)
    as (note & _ & Hnote & -> & Hsq').
  cbn [bind].
  destruct (sawtooth_tick_ok _ note data count Hsw Hnote Hd Hc)
    as (sw & d1 & -> & Hsw' & Hd1 & Hl1).
  cbn [bind]. rewrite <- Hl1 in Hc.
  destruct (lowpass_tick_ok _ d1 count Hlp Hd1 Hc)
    as (lp & d2 & -> & Hlp' & Hd2 & Hl2).
  cbn [bind]. eexists. eexists. split; [reflexivity |].
  split; [| split; [assumption | congruence]].
  unfold synth_ok. cbn [Synth.sequencer Synth.sawtooth Synth.lowpass].
  auto.
Qed.

(** The initial state is one of them. *)
Lemma make_sound_keeps_the_state_sound_witness :
  synth_ok Synth.init
  /\ exists s' data',
       Synth.make_sound Synth.init [0; 0; 0; 0] 4 = Some (s', data')
       /\ synth_ok s'.
Proof.
  split; [exact init_ok |].
  destruct (make_sound_keeps_the_state_sound Synth.init [0; 0; 0; 0] 4)
    as (s' & data' & E & Hok & _).
  - exact init_ok.
  - repeat constructor; unfold SHRT_MIN, SHRT_MAX; lia.
  - unfold len. simpl. lia.
  - exists s', data'. split; assumption.
Defined.

(** The target [1.0 + 0.01 * a], narrowed to [float], is finite for every
    [int]. *)
Lemma target_is_float (a : Z) :
  - 2 ^ 31 <= a < 2 ^ 31 ->
  is_float
    (F32.of_double
       (F64.add (F64.of_Z 1) (F64.mul (F64.literal 1 2) (F64.of_Z a))))
  = true.
Proof.
  intros Ha.
  assert (Hc : good F64.prec F64.emax (F64.literal 1 2))
    by (split; vm_compute; reflexivity).
  destruct (F64_of_Z_exact 0 ltac:(reflexivity)) as [H0 Hv0].
  destruct (F64_of_Z_exact 1 ltac:(reflexivity)) as [H1 Hv1].
  destruct (F64_of_Z_exact 2147483648 ltac:(reflexivity)) as [Hb Hvb].
  destruct (F64_of_Z_exact (-2147483648) ltac:(reflexivity)) as [Hnb Hvnb].
  destruct (F64_of_Z_exact 2147483649 ltac:(reflexivity)) as [Hb1 Hvb1].
  destruct (F64_of_Z_exact a ltac:(lia)) as [Had Hav].
  change (2 ^ 31) with 2147483648 in Ha.
  assert (Hcv : (0 <= B2R (F64.literal 1 2) <= 1)%R).
  { split.
    - rewrite <- Hv0. apply Rlt_le.
      apply (SFltb_spec F64.prec F64.emax prec64_pos _ _ H0 Hc).
      vm_compute. reflexivity.
    - rewrite <- Hv1. apply Rlt_le.
      apply (SFltb_spec F64.prec F64.emax prec64_pos _ _ Hc H1).
      vm_compute. reflexivity. }
  assert (HA : (-2147483648 <= IZR a <= 2147483648)%R).
  { split; [apply (IZR_le (-2147483648)) | apply (IZR_le _ 2147483648)]; lia. }
  (* 0.01 * a *)
  pose proof (SFmul_rounds F64.prec F64.emax prec64_pos emax64_big _ _
                Hc Had) as Hr1.
  fold (F64.mul (F64.literal 1 2) (F64.of_Z a)) in Hr1. rewrite Hav in Hr1.
  set (m := F64.mul (F64.literal 1 2) (F64.of_Z a)) in *.
  assert (Hw1 : (-2147483648 <= B2R (F64.literal 1 2) * IZR a
                 <= 2147483648)%R) by nra.
  assert (Hm : good F64.prec F64.emax m).
  { apply rounds_good with (w := (B2R (F64.literal 1 2) * IZR a)%R)
                           (bmax := F64.of_Z 2147483648);
      try assumption; try fmt.
    rewrite Hvb, (Rabs_pos_eq 2147483648) by lra. apply Rabs_le. lra. }
  assert (Hmv : (-2147483648 <= B2R m <= 2147483648)%R).
  { split.
    - rewrite <- Hvnb.
      apply rounds_ge with (prec := F64.prec) (emax := F64.emax)
                           (w := (B2R (F64.literal 1 2) * IZR a)%R);
        try assumption; try fmt; try (rewrite Hvnb; lra).
    - rewrite <- Hvb.
      apply rounds_le with (prec := F64.prec) (emax := F64.emax)
                           (w := (B2R (F64.literal 1 2) * IZR a)%R);
        try assumption; try fmt; try (rewrite Hvb; lra). }
  (* 1.0 + 0.01 * a *)
  pose proof (SFadd_rounds F64.prec F64.emax prec64_pos _ _ H1 Hm) as Hr2.
  fold (F64.add (F64.of_Z 1) m) in Hr2. rewrite Hv1 in Hr2.
  set (sm := F64.add (F64.of_Z 1) m) in *.
  assert (Hs : good F64.prec F64.emax sm).
  { apply rounds_good with (w := (1 + B2R m)%R)
                           (bmax := F64.of_Z 2147483649);
      try assumption; try fmt.
    rewrite Hvb1, (Rabs_pos_eq 2147483649) by lra. apply Rabs_le. lra. }
  assert (Hsv : (Rabs (B2R sm) <= 2147483649)%R).
  { apply Rabs_le. split.
    - apply Rle_trans with (-2147483648)%R; [lra |]. rewrite <- Hvnb.
      apply rounds_ge with (prec := F64.prec) (emax := F64.emax)
                           (w := (1 + B2R m)%R);
        try assumption; try fmt; try (rewrite Hvnb; lra).
    - rewrite <- Hvb1.
      apply rounds_le with (prec := F64.prec) (emax := F64.emax)
                           (w := (1 + B2R m)%R);
        try assumption; try fmt; try (rewrite Hvb1; lra). }
  (* the narrowing *)
  pose proof (of_double_rounds sm Hs) as Hr3.
  apply is_float_good.
  assert (Hbig : good F32.prec F32.emax (S754_finite false 8388608 9))
    by (split; vm_compute; reflexivity).
  apply rounds_good with (w := B2R sm)
                         (bmax := S754_finite false 8388608 9);
    try assumption; try fmt.
  rewrite B2R_finite. unfold F2R. rewrite bpow_IZR by lia.
  change (2 ^ 9) with 512.
  rewrite (Rabs_pos_eq (8388608 * 512)) by lra. lra.
Qed.

(** X16.  The two controls.  For every [int] [x], [tuning(x)] replaces
    the tuning target of the oscillator by [1.0 + 0.01 * x] narrowed to
    [float], and [cutoff(x)] replaces the target of the filter by the same
    value; that value is a finite [float]; every other member of the
    [Audio] object (the sequencer, the smoothed tuning, the volume and the
    phase, the coefficient and the accumulators, the buffer and [quit])
    is as before; and a sound state stays sound. *)
Theorem controls_keep_the_state_sound (a : Audio.t) (x : Z) :
  synth_ok (Audio.synth a) -> - 2 ^ 31 <= x < 2 ^ 31 ->
  let target :=
    F32.of_double
      (F64.add (F64.of_Z 1) (F64.mul (F64.literal 1 2) (F64.of_Z x))) in
  let sy := Audio.synth a in
  let sw := Synth.sawtooth sy in
  let lp := Synth.lowpass sy in
  is_float target = true
  /\ Audio.tuning a x
     = Audio.mk
         (Synth.mk (Synth.sequencer sy)
            (SawTooth.mk target (SawTooth.tuning sw) (SawTooth.volume sw)
               (SawTooth.last sw))
            lp)
         (Audio.buffer a) (Audio.quit a)
  /\ Audio.cutoff a x
     = Audio.mk
         (Synth.mk (Synth.sequencer sy) sw
            (LowPass.mk target (LowPass.rc lp) (LowPass.value0 lp)
               (LowPass.value1 lp) (LowPass.value2 lp) (LowPass.value3 lp)))
         (Audio.buffer a) (Audio.quit a)
  /\ synth_ok (Audio.synth (Audio.tuning a x))
  /\ synth_ok (Audio.synth (Audio.cutoff a x)).
Proof.
  intros Hok Hx. cbv zeta.
  pose proof (target_is_float x Hx) as Hf.
  split; [exact Hf |]. split; [reflexivity |]. split; [reflexivity |].
  revert Hok.
  unfold Audio.tuning, Audio.cutoff, synth_ok, sawtooth_ok, lowpass_ok.
  cbn [Audio.synth Audio.buffer Synth.sequencer Synth.sawtooth Synth.lowpass
       SawTooth.set_tuning SawTooth.tuning_v SawTooth.tuning SawTooth.volume
       SawTooth.last LowPass.set_cutoff LowPass.rc_v LowPass.rc
       LowPass.value0 LowPass.value1 LowPass.value2 LowPass.value3].
  generalize (sequencer_ok (Synth.sequencer (Audio.synth a))).
  intros P. tauto.
Qed.

Lemma controls_keep_the_state_sound_witness :
  SawTooth.tuning_v (Synth.sawtooth (Audio.synth (Audio.tuning Audio.make (-1))))
  = F32.of_double
      (F64.add (F64.of_Z 1) (F64.mul (F64.literal 1 2) (F64.of_Z (-1))))
  /\ synth_ok (Audio.synth (Audio.tuning Audio.make (-1)))
  /\ synth_ok (Audio.synth (Audio.cutoff Audio.make 1)).
Proof.
  destruct (controls_keep_the_state_sound Audio.make (-1))
    as (_ & E1 & _ & H1 & _); [exact init_ok | lia |].
  destruct (controls_keep_the_state_sound Audio.make 1)
    as (_ & _ & _ & _ & H2); [exact init_ok | lia |].
  split; [rewrite E1; reflexivity |]. split; assumption.
Defined.

End SynthFacts.

(** ** The callback and the producer loop *)

Lemma blit_as_copy {A : Type} (data dest : list A) (at_ : Z) :
  std_copy data 0 (len data) dest at_ = blit data dest at_.
Proof.
  unfold std_copy. pose proof (len_nonneg data).
  rewrite slice_some by lia. cbn [bind].
  rewrite Z.sub_0_r. change (Z.to_nat 0) with 0%nat. cbn [skipn].
  rewrite firstn_len_all by lia. reflexivity.
Qed.

Lemma get_repeat_zero (n : nat) (i : Z) :
  CircularBuffer.get (repeat 0 n) i = 0.
Proof. unfold CircularBuffer.get. apply nth_repeat. Qed.

Lemma get_fill_zero (buffer d : list Z) (from to p : Z) :
  fill_zero buffer from to = Some d -> 0 <= p ->
  len d = len buffer
  /\ CircularBuffer.get d p
     = if (from <=? p) && (p <? to) then 0 else CircularBuffer.get buffer p.
Proof.
  unfold fill_zero. destruct (Z.leb_spec from to) as [Hle |]; [| discriminate].
  intros E Hp. rewrite <- blit_as_copy in E.
  assert (Hl : len (repeat 0 (Z.to_nat (to - from))) = to - from)
    by (unfold len; rewrite repeat_length; lia).
  split; [apply (std_copy_len _ _ _ _ _ _ E) |].
  rewrite (get_std_copy _ _ _ _ _ _ p E Hp), Hl, get_repeat_zero.
  replace (from + (to - from - 0)) with to by lia. reflexivity.
Qed.

Lemma fill_zero_some (buffer : list Z) (from to : Z) :
  0 <= from <= to -> to <= len buffer ->
  exists d, fill_zero buffer from to = Some d.
Proof.
  intros H1 H2. unfold fill_zero.
  destruct (Z.leb_spec from to); [| lia].
  rewrite blit_some; [eauto | lia |].
  unfold len at 1. rewrite repeat_length. lia.
Qed.

Lemma get_slice (data rest : list Z) (from to j : Z) :
  slice data from to = Some rest -> 0 <= j < to - from ->
  CircularBuffer.get rest j = CircularBuffer.get data (from + j).
Proof.
  intros E Hj. pose proof (slice_len _ _ _ _ E) as (Hl & Hf & Ht).
  rewrite slice_some in E by lia. injection E as <-.
  unfold CircularBuffer.get. rewrite nth_firstn, nth_skipn.
  destruct (Nat.ltb_spec (Z.to_nat j) (Z.to_nat (to - from))); [| lia].
  f_equal. lia.
Qed.

Module AudioFacts.
Import CircularBuffer.
Import CircularBufferFacts.

(** X17.  The callback fills the whole stream.  The first
    [taken = min count occupied] places receive the stored samples in
    cursor order, round the end of the array, and the places after them
    are set to zero; only the read cursor of the buffer moves.  [occupied]
    is what [copy_out] reckons: [write - read] when the read cursor is
    below the write cursor and [size - read + write] otherwise, so that
    level cursors are read as a full buffer, also when the buffer has just
    been drained: the stream then receives stale samples and no zeros. *)
Theorem callback_pads_with_silence (a : Audio.t) (stream : list Z)
    (bytes : Z) :
  wf (Audio.buffer a) -> 0 <= bytes < 2 ^ 31 -> len stream = bytes / 2 ->
  let b := Audio.buffer a in
  let count := bytes / 2 in
  let taken := Z.min count (occupied b) in
  exists b' stream',
    audioCallback (Some a) (Some stream) bytes
    = Some (Some (Audio.mk (Audio.synth a) b' (Audio.quit a)), Some stream')
    /\ len stream' = count
    /\ (forall i, 0 <= i < taken ->
          get stream' i = get (samples b) ((read_a b + i) mod size b))
    /\ (forall i, taken <= i < count -> get stream' i = 0)
    /\ read_a b' = (read_a b + taken) mod size b
    /\ write_a b' = write_a b /\ samples b' = samples b
    /\ first b' = first b
    /\ (read_a b < write_a b -> taken = Z.min count (write_a b - read_a b))
    /\ (read_a b = write_a b -> taken = Z.min count (size b)).
Proof.
  intros Hwf Hb Hlen. cbv zeta.
  set (b := Audio.buffer a). set (count := bytes / 2).
  assert (Hcount : 0 <= count < size_max).
  { unfold count, size_max. split; [apply Z.div_pos; lia |].
    apply Z.div_lt_upper_bound; lia. }
  assert (Ho : 0 <= occupied b).
  { destruct Hwf as [Hsz Hr Hw _]. fold b in Hsz, Hr, Hw. unfold occupied.
    destruct (read_a b <? write_a b) eqn:E1; to_prop; lia. }
  unfold audioCallback. rewrite wrap64_small by (unfold size_max; lia).
  fold count. fold b.
  destruct (copy_out_total b stream count Hwf Hcount ltac:(lia))
    as (b' & d1 & short & E).
  destruct (copy_out_cursors b b' stream d1 count short Hwf Hcount E)
    as (Hs & Hr & Hw & Hf & Hsam).
  pose proof (CircularBufferLaws.copy_out_len _ _ _ _ _ _ E) as Hl1.
  rewrite E. cbn [bind].
  assert (Hdata : forall i, 0 <= i ->
            get d1 i = if i <? Z.min count (occupied b)
                       then get (samples b) ((read_a b + i) mod size b)
                       else get stream i).
  { intros i Hi. apply (copy_out_data b b' stream d1 count short i Hwf Hcount E Hi). }
  assert (Hocc : (read_a b < write_a b ->
                  Z.min count (occupied b)
                  = Z.min count (write_a b - read_a b))
                 /\ (read_a b = write_a b ->
                     Z.min count (occupied b) = Z.min count (size b))).
  { unfold occupied. split; intros Hrw.
    - destruct (Z.ltb_spec (read_a b) (write_a b)); [reflexivity | lia].
    - rewrite Hrw, Z.ltb_irrefl. f_equal. lia. }
  destruct (Z.eqb_spec short 0) as [H0 | Hn0].
  - cbn [bind]. exists b', d1. split; [reflexivity |].
    split; [lia |]. split; [| split; [| tauto]].
    + intros i Hi. rewrite Hdata by lia.
      destruct (Z.ltb_spec i (Z.min count (occupied b))); [reflexivity | lia].
    + intros i Hi. lia.
  - destruct (fill_zero_some d1 (count - short) count ltac:(lia) ltac:(lia))
      as (d2 & E2).
    rewrite E2. cbn [bind]. exists b', d2. split; [reflexivity |].
    split; [| split; [| split; [| tauto]]].
    + destruct (get_fill_zero _ _ _ _ 0 E2 ltac:(lia)) as [Hl2 _]. lia.
    + intros i Hi.
      destruct (get_fill_zero _ _ _ _ i E2 ltac:(lia)) as [_ ->].
      destruct (Z.leb_spec (count - short) i); [lia |]. cbn [andb].
      rewrite Hdata by lia.
      destruct (Z.ltb_spec i (Z.min count (occupied b))); [reflexivity | lia].
    + intros i Hi.
      destruct (get_fill_zero _ _ _ _ i E2 ltac:(lia)) as [_ ->].
      destruct (Z.leb_spec (count - short) i); [| lia].
      destruct (Z.ltb_spec i count); [reflexivity | lia].
Qed.

Lemma callback_pads_with_silence_witness :
  (exists b' stream',
     audioCallback
       (Some (Audio.mk Synth.init (mk [1; 2; 3; 4] 3 1 false) false))
       (Some [9; 9; 9]) 6
     = Some (Some (Audio.mk Synth.init b' false), Some stream')
     /\ get stream' 0 = 2 /\ get stream' 1 = 3 /\ get stream' 2 = 0)
  /\ (exists b' stream',
        audioCallback
          (Some (Audio.mk Synth.init (mk [5; 6; 7; 0] 3 3 false) false))
          (Some [9; 9; 9]) 6
        = Some (Some (Audio.mk Synth.init b' false), Some stream')
        /\ get stream' 0 = 0 /\ get stream' 1 = 5 /\ get stream' 2 = 6).
Proof.
  split.
  - destruct (callback_pads_with_silence
                (Audio.mk Synth.init (mk [1; 2; 3; 4] 3 1 false) false)
                [9; 9; 9] 6)
      as (b' & stream' & E & _ & Htaken & Hzero & _).
    + constructor; cbn; unfold size_max; first [lia | discriminate].
    + lia.
    + reflexivity.
    + exists b', stream'. split; [exact E |].
      split; [exact (Htaken 0 ltac:(vm_compute; split; [discriminate | reflexivity])) |].
      split; [exact (Htaken 1 ltac:(vm_compute; split; [discriminate | reflexivity])) |].
      exact (Hzero 2 ltac:(vm_compute; split; [discriminate | reflexivity])).
  - destruct (callback_pads_with_silence
                (Audio.mk Synth.init (mk [5; 6; 7; 0] 3 3 false) false)
                [9; 9; 9] 6)
      as (b' & stream' & E & _ & Htaken & _).
    + constructor; cbn; unfold size_max; first [lia | discriminate].
    + lia.
    + reflexivity.
    + exists b', stream'. split; [exact E |].
      split; [exact (Htaken 0 ltac:(vm_compute; split; [discriminate | reflexivity])) |].
      split; [exact (Htaken 1 ltac:(vm_compute; split; [discriminate | reflexivity])) |].
      exact (Htaken 2 ltac:(vm_compute; split; [discriminate | reflexivity])).
Defined.

(** X18.  A turn of the producer loop, up to the wait.  From a sound
    state and a well-formed buffer, whatever the local array holds, the
    turn has no undefined behaviour: [block] is what [make_sound] makes of
    the array for [buffer_size] samples and [sy] the state it leaves,
    [copy_in] is then given that block, and the turn hands on [sy], the
    buffer after that [copy_in], the block and the shortfall [left].  The
    buffer has taken [stored = min buffer_size space] samples of the
    block, in order from its write cursor, and [left] is the rest; the
    state is sound again and the buffer well-formed.  When moreover the
    read cursor is at the origin if this is the first write, and [left]
    is not zero, the wait condition that follows is [quit]: the wait only
    ends on [quit] or once the consumer has moved. *)
Theorem produce_offers_the_block (a : Audio.t) (data : list Z) :
  synth_ok (Audio.synth a) -> wf (Audio.buffer a) ->
  Forall in_int16 data -> len data = buffer_size ->
  let b := Audio.buffer a in
  let stored := Z.min buffer_size (space b) in
  exists sy block b',
    Synth.make_sound (Audio.synth a) data buffer_size = Some (sy, block)
    /\ copy_in b block buffer_size = Some (b', buffer_size - stored)
    /\ Audio.produce a data
       = Some (Audio.mk sy b' (Audio.quit a), block, buffer_size - stored)
    /\ synth_ok sy /\ wf b'
    /\ Forall in_int16 block /\ len block = buffer_size
    /\ (forall i, 0 <= i < stored ->
          get (samples b') ((write_a b + i) mod size b) = get block i)
    /\ write_a b' = (write_a b + stored) mod size b
    /\ read_a b' = read_a b
    /\ ((first b = true -> read_a b = 0) -> stored < buffer_size ->
        Audio.wait_over (Audio.mk sy b' (Audio.quit a)) = Audio.quit a).
Proof.
  intros Hok Hwf Hd Hlen. cbv zeta.
  set (b := Audio.buffer a) in *.
  unfold Audio.produce.
  destruct (SynthFacts.make_sound_in_range (Audio.synth a) data buffer_size
              Hok Hd ltac:(unfold buffer_size in *; lia))
    as (sy & block & Em & Hok' & Hd' & Hl').
  rewrite Em. cbn [bind]. fold b.
  assert (Hc : 0 <= buffer_size < size_max)
    by (unfold buffer_size, size_max; lia).
  destruct (copy_in_total b block buffer_size Hwf Hc ltac:(lia))
    as (b' & short & E).
  destruct (copy_in_cursors b b' block buffer_size short Hwf Hc E)
    as (Hs & Hw & Hr & Hf & Hsz).
  rewrite E. cbn [bind]. subst short.
  exists sy, block, b'.
  split; [reflexivity |]. split; [exact E |]. split; [reflexivity |].
  split; [exact Hok' |].
  split; [exact (copy_in_wf _ _ _ _ _ Hwf Hc E) |].
  split; [exact Hd' |]. split; [lia |].
  pose proof Hwf as [Hsize Hrd Hwr Hfw].
  assert (Hsp : 0 <= space b <= size b).
  { unfold space. destruct (first b); [lia |].
    destruct (read_a b >? write_a b) eqn:E1; to_prop; [lia |].
    destruct (read_a b <? write_a b) eqn:E2; to_prop; lia. }
  split; [| split; [exact Hw | split; [exact Hr |]]].
  - intros i Hi.
    rewrite (copy_in_data b b' block buffer_size _ _ Hwf Hc E)
      by (apply Z.mod_pos_bound; lia).
    rewrite offset_of_target by lia.
    destruct (Z.ltb_spec i (Z.min buffer_size (space b)));
      [reflexivity | lia].
  - intros Hfirst Hshort. unfold Audio.wait_over.
    cbn [Audio.buffer Audio.quit].
    pose proof (CircularBufferLaws.short_write_levels b b' block buffer_size
                  _ Hwf Hfirst Hc E ltac:(lia)) as Hlevel.
    unfold has_space. rewrite Hlevel, Z.eqb_refl. apply orb_false_r.
Qed.

Lemma produce_offers_the_block_witness :
  exists sy block b',
    Synth.make_sound Synth.init (repeat 0 1024) 1024 = Some (sy, block)
    /\ Audio.produce Audio.make (repeat 0 1024)
       = Some (Audio.mk sy b' false, block, 0)
    /\ write_a b' = 1024.
Proof.
  destruct (produce_offers_the_block Audio.make (repeat 0 1024))
    as (sy & block & b' & Em & _ & E & _ & _ & _ & _ & _ & Hw & _).
  - exact SynthFacts.init_ok.
  - apply make_wf; [vm_compute; lia | vm_compute; discriminate].
  - apply Forall_forall. intros x Hx. apply repeat_spec in Hx. subst x.
    unfold in_int16, SHRT_MIN, SHRT_MAX. lia.
  - reflexivity.
  - exists sy, block, b'. split; [exact Em |]. split; [exact E | exact Hw].
Defined.

(** X19.  The rest of the turn, after the wait.  With [quit] clear and
    space in the buffer, the last [left] samples of the block are offered
    again without undefined behaviour: at least one is stored, as many as
    fit are stored in order from the write cursor, every other place of the
    buffer keeps its sample, and what does not fit is not offered again.
    With [quit] set nothing is touched. *)
Theorem resume_stores_what_fits (a : Audio.t) (data : list Z) (left : Z) :
  wf (Audio.buffer a) -> first (Audio.buffer a) = false ->
  Audio.wait_over a = true ->
  len data = buffer_size -> 0 < left <= buffer_size ->
  let b := Audio.buffer a in
  let stored := Z.min left (space b) in
  (Audio.quit a = true -> Audio.resume a data left = Some a)
  /\ (Audio.quit a = false ->
      exists b',
        Audio.resume a data left
        = Some (Audio.mk (Audio.synth a) b' false)
        /\ 0 < stored
        /\ (forall i, 0 <= i < stored ->
              get (samples b') ((write_a b + i) mod size b)
              = get data (buffer_size - left + i))
        /\ (forall p, 0 <= p < size b ->
              stored <= (p - write_a b) mod size b ->
              get (samples b') p = get (samples b) p)
        /\ write_a b' = (write_a b + stored) mod size b
        /\ read_a b' = read_a b).
Proof.
  intros Hwf Ef Hwait Hlen Hleft. cbv zeta.
  set (b := Audio.buffer a) in *. unfold Audio.resume.
  split; [intros ->; reflexivity |].
  intros Eq. rewrite Eq.
  unfold Audio.wait_over in Hwait. rewrite Eq in Hwait. cbn [orb] in Hwait.
  fold b in Hwait.
  pose proof Hwf as [Hsize Hrd Hwr Hfw].
  assert (Hsp : 0 < space b <= size b).
  { unfold has_space in Hwait. apply negb_true_iff in Hwait. to_prop.
    unfold space. rewrite Ef.
    destruct (read_a b >? write_a b) eqn:E1; to_prop; [lia |].
    destruct (read_a b <? write_a b) eqn:E2; to_prop; lia. }
  destruct (slice data (buffer_size - left) buffer_size) as [rest |] eqn:Es.
  2:{ rewrite slice_some in Es by lia. discriminate Es. }
  pose proof (slice_len _ _ _ _ Es) as (Hlr & _).
  cbn [bind]. fold b.
  assert (Hc : 0 <= left < size_max)
    by (unfold buffer_size, size_max in *; lia).
  destruct (copy_in_total b rest left Hwf Hc ltac:(lia)) as (b' & short & E).
  destruct (copy_in_cursors b b' rest left short Hwf Hc E)
    as (Hs & Hw & Hr & Hf & Hsz).
  rewrite E. cbn [bind]. exists b'.
  split; [reflexivity |]. split; [lia |].
  split; [| split; [| split; [exact Hw | exact Hr]]].
  - intros i Hi.
    rewrite (copy_in_data b b' rest left short _ Hwf Hc E)
      by (apply Z.mod_pos_bound; lia).
    rewrite offset_of_target by lia.
    destruct (Z.ltb_spec i (Z.min left (space b))); [| lia].
    apply (get_slice _ _ _ _ _ Es). lia.
  - intros p Hp Hout.
    rewrite (copy_in_data b b' rest left short p Hwf Hc E Hp).
    destruct (Z.ltb_spec ((p - write_a b) mod size b)
                (Z.min left (space b))); [lia | reflexivity].
Qed.

Lemma resume_stores_what_fits_witness :
  exists b',
    Audio.resume
      (Audio.mk Synth.init (mk (repeat 0 2048) 0 512 false) false)
      (repeat 7 1024) 1024
    = Some (Audio.mk Synth.init b' false)
    /\ write_a b' = 512.
Proof.
  destruct (resume_stores_what_fits
              (Audio.mk Synth.init (mk (repeat 0 2048) 0 512 false) false)
              (repeat 7 1024) 1024) as [_ H].
  - constructor; cbn; unfold size_max; first [lia | discriminate].
  - reflexivity.
  - reflexivity.
  - reflexivity.
  - unfold buffer_size. lia.
  - destruct (H eq_refl) as (b' & E & _ & _ & _ & Hw & _).
    exists b'. split; [exact E | exact Hw].
Defined.

End AudioFacts.

(** ** Keyboard *)

Module KeyboardFacts.

(** X20.  [pressed] answers [false] for a key below zero or above
    [length], and for a key below [length] it tells whether the key's
    entry is 1.  For the key equal to [length] the guard lets the read
    through, one place past the end of the array SDL hands out. *)
Theorem pressed_reads_one_past_the_end (k : Keyboard.t) (key : Z) :
  len (Keyboard.state k) = Keyboard.length k ->
  (key < 0 \/ Keyboard.length k < key ->
     Keyboard.pressed k key = Some false)
  /\ (0 <= key < Keyboard.length k ->
        exists x, nth_error (Keyboard.state k) (Z.to_nat key) = Some x
                  /\ Keyboard.pressed k key = Some (x =? 1))
  /\ (key = Keyboard.length k -> Keyboard.pressed k key = None).
Proof.
  intros Hlen. unfold Keyboard.pressed. split; [| split].
  - intros [H | H].
    + destruct (Z.ltb_spec key 0); [reflexivity | lia].
    + destruct (Z.ltb_spec key 0); [reflexivity |].
      rewrite Z.gtb_ltb. destruct (Z.ltb_spec (Keyboard.length k) key);
        [reflexivity | lia].
  - intros H. destruct (Z.ltb_spec key 0); [lia |].
    rewrite Z.gtb_ltb. destruct (Z.ltb_spec (Keyboard.length k) key); [lia |].
    cbn [orb].
    destruct (nth_error (Keyboard.state k) (Z.to_nat key)) as [x |] eqn:E.
    + exists x. split; reflexivity.
    + apply nth_error_None in E. unfold len in Hlen. lia.
  - intros ->. pose proof (len_nonneg (Keyboard.state k)).
    destruct (Z.ltb_spec (Keyboard.length k) 0); [lia |].
    rewrite Z.gtb_ltb, Z.ltb_irrefl. cbn [orb].
    replace (nth_error (Keyboard.state k) (Z.to_nat (Keyboard.length k)))
      with (@None Z); [reflexivity |].
    symmetry. apply nth_error_None. unfold len in Hlen. lia.
Qed.

Lemma pressed_reads_one_past_the_end_witness :
  Keyboard.pressed (Keyboard.mk [0; 1; 0] 3) 3 = None
  /\ Keyboard.pressed (Keyboard.mk [0; 1; 0] 3) 4 = Some false.
Proof.
  destruct (pressed_reads_one_past_the_end (Keyboard.mk [0; 1; 0] 3) 3
              eq_refl) as (_ & _ & H3).
  destruct (pressed_reads_one_past_the_end (Keyboard.mk [0; 1; 0] 3) 4
              eq_refl) as (H4 & _).
  split; [apply H3; reflexivity | apply H4; right; cbn; lia].
Defined.

End KeyboardFacts.

(** ** Levels *)

(** The conversion to an integer does not grow a value. *)
Lemma truncate_magnitude (y : spec_float) (z : Z) :
  truncate y = Some z -> (IZR (Z.abs z) <= Rabs (B2R y))%R.
Proof.
  destruct y as [s | s | | s m e]; cbn [truncate]; try discriminate.
  - intros E. injection E as <-. cbn [B2R]. rewrite Rabs_R0. simpl. lra.
  - set (t := match e with
              | Z.neg p => Z.pos m / 2 ^ Z.pos p
              | _ => Z.pos m * 2 ^ e
              end).
    intros E. injection E as <-.
    assert (Ht : 0 <= t /\ (IZR t <= F2R (Zpos m) e)%R).
    { subst t. destruct e as [| p | p].
      - split; [lia |]. unfold F2R. rewrite bpow_0, Z.pow_0_r, Z.mul_1_r. lra.
      - split; [pose proof (Z.pow_pos_nonneg 2 (Zpos p)); lia |].
        rewrite <- (Z.add_0_l (Zpos p)) at 2.
        rewrite <- F2R_shift by lia. unfold F2R. rewrite bpow_0. lra.
      - assert (Hp : 0 < 2 ^ Zpos p) by (apply Z.pow_pos_nonneg; lia).
        split; [apply Z.div_pos; lia |].
        assert (Hq : Zpos m / 2 ^ Zpos p * 2 ^ Zpos p <= Zpos m).
        { rewrite Z.mul_comm. apply Z.mul_div_le. lia. }
        apply IZR_le in Hq. rewrite mult_IZR, <- bpow_IZR in Hq by lia.
        unfold F2R. change (Z.neg p) with (- Zpos p). rewrite bpow_opp.
        pose proof (bpow_pos (Zpos p)) as Hbp.
        apply (Rmult_le_reg_r (bpow (Zpos p))); [exact Hbp |].
        rewrite Rmult_assoc, Rinv_l by lra. lra. }
    destruct Ht as [Ht0 Ht1].
    replace (Z.abs (cond_Zopp s t)) with t
      by (destruct s; cbn [cond_Zopp]; lia).
    rewrite B2R_finite.
    pose proof (F2R_pos (Zpos m) e ltac:(lia)).
    destruct s; [rewrite Rabs_Ropp |]; rewrite Rabs_pos_eq; lra.
Qed.

Module LevelFacts.
Import SawTooth.

Lemma quarter : B2R (volume init) = (/ 4)%R.
Proof.
  change (volume init) with (S754_finite false 8388608 (-25)).
  rewrite B2R_finite. unfold F2R. change (-25) with (- (25)).
  rewrite bpow_opp, bpow_IZR by lia. change (2 ^ 25) with 33554432. lra.
Qed.

(** At the volume of the program a sample is at most a quarter of full
    scale. *)
Lemma sample_of_quarter (value : spec_float) (v : Z) :
  in_phase value = true -> sample_of value (volume init) = Some v ->
  -8191 <= v <= 8191.
Proof.
  intros Hv E. apply OscillatorFacts.in_phase_spec in Hv.
  destruct Hv as [Hvg Hvb]. unfold sample_of in E.
  assert (Hq : good F32.prec F32.emax (volume init))
    by (split; vm_compute; reflexivity).
  set (nq := S754_finite true 8388608 (-25)).
  assert (Hnq : good F32.prec F32.emax nq) by (split; vm_compute; reflexivity).
  assert (Hnqv : B2R nq = (- / 4)%R).
  { unfold nq. rewrite B2R_finite. unfold F2R. change (-25) with (- (25)).
    rewrite bpow_opp, bpow_IZR by lia. change (2 ^ 25) with 33554432. lra. }
  set (top := S754_finite false 16776704 (-11)).
  assert (Htop : good F32.prec F32.emax top)
    by (split; vm_compute; reflexivity).
  assert (Htopv : B2R top = (32767 / 4)%R).
  { unfold top. rewrite B2R_finite. unfold F2R. change (-11) with (- (11)).
    rewrite bpow_opp, bpow_IZR by lia. change (2 ^ 11) with 2048. lra. }
  set (bot := S754_finite true 16776704 (-11)).
  assert (Hbot : good F32.prec F32.emax bot)
    by (split; vm_compute; reflexivity).
  assert (Hbotv : B2R bot = (- (32767 / 4))%R).
  { unfold bot. rewrite B2R_finite. unfold F2R. change (-11) with (- (11)).
    rewrite bpow_opp, bpow_IZR by lia. change (2 ^ 11) with 2048. lra. }
  destruct (F32_of_Z_exact SHRT_MAX ltac:(reflexivity)) as [Hsg Hsv].
  pose proof quarter as Hqv.
  (* value * volume *)
  pose proof (SFmul_rounds F32.prec F32.emax prec32_pos emax32_big _ _
                Hvg Hq) as Hr1.
  fold (F32.mul value (volume init)) in Hr1. rewrite Hqv in Hr1.
  set (p := F32.mul value (volume init)) in *.
  assert (Hp : good F32.prec F32.emax p).
  { apply rounds_good with (w := (B2R value * / 4)%R) (bmax := volume init);
      try assumption; try fmt.
    rewrite Hqv, (Rabs_pos_eq (/ 4)) by lra. apply Rabs_le. lra. }
  assert (Hpv : (- / 4 <= B2R p <= / 4)%R).
  { split.
    - rewrite <- Hnqv.
      apply rounds_ge with (prec := F32.prec) (emax := F32.emax)
                           (w := (B2R value * / 4)%R);
        try assumption; try fmt. rewrite Hnqv. lra.
    - rewrite <- Hqv.
      apply rounds_le with (prec := F32.prec) (emax := F32.emax)
                           (w := (B2R value * / 4)%R);
        try assumption; try fmt. rewrite Hqv. lra. }
  (* ... * scale *)
  pose proof (SFmul_rounds F32.prec F32.emax prec32_pos emax32_big _ _
                Hp Hsg) as Hr2.
  fold (F32.mul p (F32.of_Z SHRT_MAX)) in Hr2. rewrite Hsv in Hr2.
  change (IZR SHRT_MAX) with 32767%R in Hr2.
  set (q := F32.mul p (F32.of_Z SHRT_MAX)) in *.
  assert (Hq2 : good F32.prec F32.emax q).
  { apply rounds_good with (w := (B2R p * 32767)%R) (bmax := top);
      try assumption; try fmt.
    rewrite Htopv, (Rabs_pos_eq (32767 / 4)) by lra. apply Rabs_le. lra. }
  assert (Hqv2 : (Rabs (B2R q) <= 32767 / 4)%R).
  { apply Rabs_le. split.
    - rewrite <- Hbotv.
      apply rounds_ge with (prec := F32.prec) (emax := F32.emax)
                           (w := (B2R p * 32767)%R);
        try assumption; try fmt. rewrite Hbotv. lra.
    - rewrite <- Htopv.
      apply rounds_le with (prec := F32.prec) (emax := F32.emax)
                           (w := (B2R p * 32767)%R);
        try assumption; try fmt. rewrite Htopv. lra. }
  (* the conversion *)
  unfold to_int16 in E.
  destruct (truncate q) as [z |] eqn:Et; cbn [bind] in E; [| discriminate].
  destruct ((SHRT_MIN <=? z) && (z <=? SHRT_MAX)); [| discriminate].
  injection E as <-.
  pose proof (truncate_magnitude q z Et) as Hz.
  assert (Hlt : (IZR (Z.abs z) < IZR 8192)%R) by lra.
  apply lt_IZR in Hlt. lia.
Qed.

(** What the loop stores: [n] samples, each the sample of a phase in
    [-1, 1], between the places before and after. *)
Lemma fill_written (P : Z -> Prop) (volume delta : spec_float) :
  (forall value v, in_phase value = true ->
     sample_of value volume = Some v -> P v) ->
  in_unit delta = true ->
  forall (n : nat) (pre old rest : list Z) (value v' : spec_float)
         (data' : list Z),
    length old = n -> in_phase value = true ->
    fill volume delta n (len pre) value (pre ++ old ++ rest)
    = Some (v', data') ->
    exists written,
      data' = pre ++ written ++ rest
      /\ length written = n /\ Forall P written.
Proof.
  intros HP Hdelta. induction n as [| n IH];
    intros pre old rest value v' data' Hl Hv E.
  - destruct old; [| discriminate]. cbn [fill app] in E.
    injection E as _ <-. exists []. auto.
  - destruct old as [| a o]; [discriminate |].
    cbn [fill app] in E.
    destruct (sample_of value volume) as [v |] eqn:Es; [| discriminate].
    cbn [bind] in E. rewrite SawToothFacts.store_prefix in E.
    cbn [bind] in E.
    replace (len pre + 1) with (len (pre ++ [v])) in E
      by (rewrite len_app; reflexivity).
    destruct (IH (pre ++ [v]) o rest _ v' data' ltac:(simpl in Hl; lia)
                (OscillatorFacts.wrap_step _ _ Hv Hdelta) E)
      as (w & -> & Hw & HPw).
    exists (v :: w). split; [rewrite <- app_assoc; reflexivity |].
    split; [simpl; lia |]. constructor; [exact (HP _ _ Hv Es) | exact HPw].
Qed.

(** X21.  Headroom.  At the volume of the program, 0.25, every sample the
    oscillator writes is within a quarter of full scale: between -8191 and
    8191. *)
Theorem oscillator_peaks_at_a_quarter (s : t) (note : spec_float)
    (data : list Z) (count : Z) :
  sawtooth_ok s -> volume s = volume init -> is_float note = true ->
  Forall in_int16 data -> 0 <= count <= len data ->
  exists s' data',
    tick s note data count = Some (s', data')
    /\ Forall (fun v => -8191 <= v <= 8191)
              (firstn (Z.to_nat count) data').
Proof.
  intros Hok Hvol Hnote Hd Hc.
  destruct (SynthFacts.sawtooth_tick_ok s note data count Hok Hnote Hd Hc)
    as (s' & data' & E & _).
  exists s', data'. split; [exact E |].
  destruct Hok as (Htv & Ht & _ & Hlast).
  rewrite <- (firstn_skipn (Z.to_nat count) data) in E.
  assert (Hl : length (firstn (Z.to_nat count) data) = Z.to_nat count)
    by (rewrite length_firstn; unfold len in Hc; lia).
  unfold tick in E. rewrite Hvol in E.
  assert (Hfill : forall delta value v' d',
            in_unit delta = true -> in_phase value = true ->
            fill (volume init) delta (Z.to_nat count) 0 value
              (firstn (Z.to_nat count) data ++ skipn (Z.to_nat count) data)
            = Some (v', d') ->
            Forall (fun v => -8191 <= v <= 8191)
                   (firstn (Z.to_nat count) d')).
  { intros delta value v' d' Hdel Hval Ef.
    destruct (fill_written (fun v => -8191 <= v <= 8191) (volume init) delta
                sample_of_quarter Hdel (Z.to_nat count) []
                (firstn (Z.to_nat count) data)
                (skipn (Z.to_nat count) data) value v' d' Hl Hval Ef)
      as (w & -> & Hw & HP).
    cbn [app]. rewrite <- Hw, firstn_app, Nat.sub_diag, firstn_all.
    cbn [firstn]. rewrite app_nil_r. exact HP. }
  destruct (truthy note); cbv zeta in E.
  - pose proof (OscillatorFacts.glide_in_tuning_range _ _ Ht Htv) as Hg.
    pose proof (OscillatorFacts.increment_in_unit _ note
                  (OscillatorFacts.in_tuning_range_float _ Hg) Hnote) as Hdel.
    match type of E with context [fill ?vol ?d ?n ?i ?val ?dat] =>
      destruct (fill vol d n i val dat) as [[v' d'] |] eqn:Ef end;
      cbn [bind] in E; [| discriminate].
    injection E as _ <-.
    apply (Hfill _ _ _ _ Hdel (OscillatorFacts.wrap_step _ _ Hlast Hdel) Ef).
  - match type of E with context [fill ?vol ?d ?n ?i ?val ?dat] =>
      destruct (fill vol d n i val dat) as [[v' d'] |] eqn:Ef end;
      cbn [bind] in E; [| discriminate].
    injection E as _ <-.
    apply (Hfill _ _ _ _ OscillatorFacts.fzero_in_unit Hlast Ef).
Qed.

Lemma oscillator_peaks_at_a_quarter_witness :
  exists s' data',
    tick init (F32.of_Z 440) [0; 0; 0; 0] 4 = Some (s', data')
    /\ Forall (fun v => -8191 <= v <= 8191) (firstn 4 data').
Proof.
  destruct (oscillator_peaks_at_a_quarter init (F32.of_Z 440) [0; 0; 0; 0] 4)
    as (s' & data' & E & H).
  - repeat split; vm_compute; reflexivity.
  - reflexivity.
  - vm_compute. reflexivity.
  - repeat constructor; unfold SHRT_MIN, SHRT_MAX; lia.
  - unfold len. simpl. lia.
  - exists s', data'. split; [exact E | exact H].
Defined.

End LevelFacts.

(** ** From the synthesiser to the device *)

Module PathFacts.
Import CircularBuffer.
Import CircularBufferFacts.

(** X22.  The first block reaches the device as it was made.  On a buffer
    nobody has touched yet, the producer stores its whole block, and the
    callback that then asks for as many samples receives exactly that
    block: no sample is lost, reordered or replaced by silence. *)
Theorem first_block_reaches_the_device (a : Audio.t)
    (data stream : list Z) :
  synth_ok (Audio.synth a) -> wf (Audio.buffer a) ->
  first (Audio.buffer a) = true -> read_a (Audio.buffer a) = 0 ->
  buffer_size <= size (Audio.buffer a) ->
  Forall in_int16 data -> len data = buffer_size ->
  len stream = buffer_size ->
  exists a1 block a2,
    Audio.produce a data = Some (a1, block, 0)
    /\ audioCallback (Some a1) (Some stream) (2 * buffer_size)
       = Some (Some a2, Some block)
    /\ Forall in_int16 block /\ len block = buffer_size.
Proof.
  intros Hok Hwf Hfirst Hread Hsize Hd Hlen Hstream.
  unfold Audio.produce.
  destruct (SynthFacts.make_sound_in_range (Audio.synth a) data buffer_size
              Hok Hd ltac:(unfold buffer_size in *; lia))
    as (sy & block & -> & Hok' & Hd' & Hl').
  cbn [bind]. rewrite Hlen in Hl'.
  destruct (fresh_write_read (Audio.buffer a) block stream Hwf Hfirst Hread
              ltac:(lia) ltac:(lia)) as (b1 & b2 & E1 & E2 & _).
  rewrite Hl' in E1, E2. rewrite E1. cbn [bind].
  eexists. eexists. eexists. split; [reflexivity |].
  split; [| split; assumption].
  unfold audioCallback. cbn [Audio.buffer Audio.synth Audio.quit].
  rewrite wrap64_small by (unfold buffer_size, size_max; lia).
  replace (2 * buffer_size / 2) with buffer_size
    by (unfold buffer_size; reflexivity).
  rewrite E2. cbn [bind]. reflexivity.
Qed.

Lemma first_block_reaches_the_device_witness :
  exists a1 block a2,
    Audio.produce Audio.make (repeat 0 1024) = Some (a1, block, 0)
    /\ audioCallback (Some a1) (Some (repeat 5 1024)) 2048
       = Some (Some a2, Some block).
Proof.
  destruct (first_block_reaches_the_device Audio.make (repeat 0 1024)
              (repeat 5 1024)) as (a1 & block & a2 & E1 & E2 & _).
  - exact SynthFacts.init_ok.
  - apply make_wf; [vm_compute; lia | vm_compute; discriminate].
  - reflexivity.
  - reflexivity.
  - vm_compute. discriminate.
  - apply Forall_forall. intros x Hx. apply repeat_spec in Hx. subst x.
    unfold in_int16, SHRT_MIN, SHRT_MAX. lia.
  - reflexivity.
  - reflexivity.
  - exists a1, block, a2. split; [exact E1 | exact E2].
Defined.

End PathFacts.

(** ** The filter at rest *)

Module RestFacts.
Import LowPass.

(** A value that tests false is a zero. *)
Lemma falsy_zero (x : spec_float) :
  truthy x = false -> good F32.prec F32.emax x /\ B2R x = 0%R.
Proof.
  unfold truthy, fzero. intros H. apply negb_false_iff in H.
  destruct x as [s | s | | s m e]; try discriminate H.
  - split; [split; reflexivity | reflexivity].
  - destruct s; discriminate H.
  - destruct s; cbn in H; discriminate H.
Qed.

Lemma zero_falsy (x : spec_float) :
  good F32.prec F32.emax x -> B2R x = 0%R -> truthy x = false.
Proof.
  intros Hg Hv. destruct x as [s | s | | s m e];
    try (destruct Hg; discriminate).
  - destruct s; reflexivity.
  - rewrite B2R_finite in Hv.
    pose proof (F2R_pos (Zpos m) e ltac:(lia)). destruct s; lra.
Qed.

(** A zero sample into a zero accumulator leaves a zero. *)
Lemma smooth_rest (rc acc : spec_float) :
  in_unit rc = true -> truthy acc = false ->
  truthy (smooth rc acc 0) = false
  /\ to_int16 (smooth rc acc 0) = Some 0.
Proof.
  intros Hrc Hacc. apply in_unit_spec in Hrc. destruct Hrc as [Hrc Hrcv].
  destruct (falsy_zero _ Hacc) as [Haccg Haccv].
  unfold smooth.
  destruct (F32_of_Z_exact 0 ltac:(reflexivity)) as [H0f H0v].
  destruct (F64_of_Z_exact 1 ltac:(reflexivity)) as [H1d H1dv].
  destruct (F64_of_Z_exact 0 ltac:(reflexivity)) as [H0d H0dv].
  destruct (F64_of_Z_exact SHRT_MIN ltac:(reflexivity)) as [Hlo Hlov].
  destruct (F64_of_Z_exact SHRT_MAX ltac:(reflexivity)) as [Hhi Hhiv].
  unfold SHRT_MIN, SHRT_MAX in *.
  (* data[i] * rc *)
  pose proof (SFmul_rounds F32.prec F32.emax prec32_pos emax32_big _ _
                H0f Hrc) as Hr1.
  fold (F32.mul (F32.of_Z 0) rc) in Hr1.
  rewrite H0v, Rmult_0_l in Hr1.
  destruct (rounds_exact _ _ _ _ _ prec32_pos emax32_big Hr1 H0f H0v)
    as [Hp Hpv].
  set (p := F32.mul (F32.of_Z 0) rc) in *.
  destruct (of_float_exact p Hp) as [Hpd Hpdv].
  (* 1.0 - rc *)
  destruct (of_float_exact _ Hrc) as [Hrcd Hrcdv].
  pose proof (SFsub_rounds F64.prec F64.emax prec64_pos _ _ H1d Hrcd) as Hr2.
  fold (F64.sub (F64.of_Z 1) (F64.of_float rc)) in Hr2.
  assert (Ht : good F64.prec F64.emax
                 (F64.sub (F64.of_Z 1) (F64.of_float rc))).
  { apply rounds_good with (w := (B2R (F64.of_Z 1) - B2R (F64.of_float rc))%R)
                           (bmax := F64.of_Z 1); try assumption; try fmt.
    rewrite H1dv, Hrcdv, (Rabs_pos_eq 1) by lra. apply Rabs_le. lra. }
  set (t := F64.sub (F64.of_Z 1) (F64.of_float rc)) in *.
  (* value[j] * (1.0 - rc) *)
  destruct (of_float_exact acc Haccg) as [Haccd Haccdv].
  pose proof (SFmul_rounds F64.prec F64.emax prec64_pos emax64_big _ _
                Haccd Ht) as Hr3.
  fold (F64.mul (F64.of_float acc) t) in Hr3.
  rewrite Haccdv, Haccv, Rmult_0_l in Hr3.
  destruct (rounds_exact _ _ _ _ _ prec64_pos emax64_big Hr3 H0d H0dv)
    as [Hq Hqv].
  set (q := F64.mul (F64.of_float acc) t) in *.
  (* the sum *)
  pose proof (SFadd_rounds F64.prec F64.emax prec64_pos _ _ Hpd Hq) as Hr4.
  fold (F64.add (F64.of_float p) q) in Hr4.
  rewrite Hpdv, Hpv, Hqv, Rplus_0_r in Hr4.
  destruct (rounds_exact _ _ _ _ _ prec64_pos emax64_big Hr4 H0d H0dv)
    as [Hs Hsv].
  set (sm := F64.add (F64.of_float p) q) in *.
  rewrite clamp_inside.
  2:{ apply (not_less_in F64.prec F64.emax); try assumption; try fmt.
      rewrite Hlov, Hsv. lra. }
  2:{ apply (not_less_in F64.prec F64.emax); try assumption; try fmt.
      rewrite Hhiv, Hsv. lra. }
  pose proof (of_double_rounds sm Hs) as Hr5. rewrite Hsv in Hr5.
  destruct (rounds_exact _ _ _ _ _ prec32_pos emax32_big Hr5 H0f H0v)
    as [Hres Hresv].
  split; [apply zero_falsy; assumption |].
  unfold to_int16. rewrite (truncate_exact _ 0 (proj2 Hres) Hresv).
  reflexivity.
Qed.

Lemma stage_rest (rc : spec_float) (n : nat) :
  forall (i : Z) (acc : spec_float) (data : list Z),
    in_unit rc = true -> truthy acc = false ->
    Forall (fun x => x = 0) data ->
    0 <= i -> i + Z.of_nat n <= len data ->
    exists acc',
      stage rc n i acc data = Some (acc', data)
      /\ truthy acc' = false.
Proof.
  induction n as [| n IH]; intros i acc data Hrc Hacc Hd Hi Hn.
  - exists acc. split; [reflexivity | exact Hacc].
  - cbn [stage].
    destruct (nth_error data (Z.to_nat i)) as [x |] eqn:Ex.
    2:{ apply nth_error_None in Ex. unfold len in Hn. lia. }
    assert (Hx : x = 0).
    { rewrite Forall_forall in Hd. apply Hd. eapply nth_error_In, Ex. }
    subst x. cbn [bind].
    destruct (smooth_rest rc acc Hrc Hacc) as [Hz Et].
    rewrite Et. cbn [bind]. rewrite (store_same data i 0 Hi Ex). cbn [bind].
    apply IH; try assumption; lia.
Qed.

(** X23.  A filter at rest stays at rest.  With the four accumulators at
    zero, a block of zeros comes out as a block of zeros and the
    accumulators are zero afterwards, whatever the coefficient and its
    target. *)
Theorem silence_stays_silent (s : t) (data : list Z) (count : Z) :
  is_float (rc s) = true -> is_float (rc_v s) = true ->
  truthy (value0 s) = false -> truthy (value1 s) = false ->
  truthy (value2 s) = false -> truthy (value3 s) = false ->
  Forall (fun x => x = 0) data -> 0 <= count <= len data ->
  exists s',
    tick s data count = Some (s', data)
    /\ truthy (value0 s') = false /\ truthy (value1 s') = false
    /\ truthy (value2 s') = false /\ truthy (value3 s') = false.
Proof.
  intros Hrc Hrv H0 H1 H2 H3 Hd Hc. unfold tick.
  pose proof (LowPassFacts.smoothed_rc_in_unit _ _ Hrc Hrv) as Hu.
  set (rc' := clamp (F32.mul (rc s) (rc_v s)) fzero (F32.of_Z 1)) in *.
  assert (Hn : 0 + Z.of_nat (Z.to_nat count) <= len data) by lia.
  destruct (stage_rest rc' (Z.to_nat count) 0 _ data Hu H0 Hd ltac:(lia) Hn)
    as (v0 & -> & Hv0). cbn [bind].
  destruct (stage_rest rc' (Z.to_nat count) 0 _ data Hu H1 Hd ltac:(lia) Hn)
    as (v1 & -> & Hv1). cbn [bind].
  destruct (stage_rest rc' (Z.to_nat count) 0 _ data Hu H2 Hd ltac:(lia) Hn)
    as (v2 & -> & Hv2). cbn [bind].
  destruct (stage_rest rc' (Z.to_nat count) 0 _ data Hu H3 Hd ltac:(lia) Hn)
    as (v3 & -> & Hv3). cbn [bind].
  eexists. split; [reflexivity |].
  cbn [value0 value1 value2 value3]. auto.
Qed.

Lemma silence_stays_silent_witness :
  exists s', tick init [0; 0; 0] 3 = Some (s', [0; 0; 0]).
Proof.
  destruct (silence_stays_silent init [0; 0; 0] 3) as (s' & E & _);
    try reflexivity.
  - repeat constructor.
  - unfold len. simpl. lia.
  - exists s'. exact E.
Defined.

End RestFacts.
